(** * py12306 CDN registry: a shallow embedding of [py12306/helpers/cdn.py]

    The module keeps one [CdnItem] per CDN host, scores it by success rate
    and recent delay, keeps the items ranked in [cdn_list], indexes them by
    host in [cdn_map], and saves / restores the counters through a JSON
    snapshot.

    Modelling conventions.
    - Python numbers.  [CdnItem] is embedded twice.  The registry, whose
      claims are about order, positions, frames and exceptions, computes
      with counters in [Z] and delays, scores and weights as exact
      rationals [Qc].  The claims about the arithmetic of
      [add_request_result] are settled on [Py.CdnItem], the same code over
      Python's own numbers: unbounded ints and IEEE 754 binary64 floats,
      every float operation rounded to nearest, ties to even.
    - Python objects are shared by reference: [cdn_list] and [cdn_map] hold
      references ([ref]) into a store of [CdnItem] objects, so that an item
      reached through the list and through the map is the same object.
    - Exceptions and mutation: a computation is a function from the state
      to the state at exit paired with either a result or the exception
      raised ([M]). *)

From Stdlib Require Import ZArith QArith Qcanon Lia List Sorted Permutation SpecFloat.
From stdpp Require Import base option list functions gmap strings numbers sorting.

Local Open Scope Z_scope.

(** ** Exceptions and the state-and-exception monad *)

Inductive exn : Type :=
| KeyError
| IndexError
| ZeroDivisionError
| TypeError
| AttributeError
| OverflowError.

Inductive result (A : Type) : Type :=
| Ok (a : A)
| Raise (e : exn).
Arguments Ok {A} a.
Arguments Raise {A} e.

Definition M (S A : Type) : Type := S -> S * result A.

Definition ret {S A} (a : A) : M S A := fun s => (s, Ok a).
Definition raise {S A} (e : exn) : M S A := fun s => (s, Raise e).
Definition bind {S A B} (m : M S A) (k : A -> M S B) : M S B :=
  fun s => match m s with
           | (s', Ok a) => k a s'
           | (s', Raise e) => (s', Raise e)
           end.
Definition get {S} : M S S := fun s => (s, Ok s).
Definition put {S} (s : S) : M S unit := fun _ => (s, Ok tt).
Definition modify {S} (f : S -> S) : M S unit := fun s => (f s, Ok tt).
Definition lift_result {S A} (r : result A) : M S A := fun s => (s, r).

Global Instance M_ret {S} : MRet (M S) := @ret S.
Global Instance M_bind {S} : MBind (M S) := fun A B k m => bind m k.

(** ** Python arithmetic on exact rationals *)

(** [x / y] (true division): raises [ZeroDivisionError] on a zero divisor. *)
Definition truediv (x y : Qc) : result Qc :=
  if Qc_eq_bool y 0%Qc then Raise ZeroDivisionError else Ok (x / y)%Qc.

Definition Qcltb (x y : Qc) : bool :=
  match (x ?= y)%Qc with Lt => true | _ => false end.
Definition Qcleb (x y : Qc) : bool :=
  match (x ?= y)%Qc with Gt => false | _ => true end.

Definition sumQc (l : list Qc) : Qc := foldr Qcplus 0%Qc l.

(** ** CdnItem *)

Definition SUCCESS_RATE_WEIGHT : Qc := Qc_of_Z 10000.
Definition BASE_DELAY_MS : Qc := Qc_of_Z 1000.
Definition AVG_DELAY_WEIGHT : Qc := Qc_of_Z 1000.
Definition MAX_DELAY_DATA : nat := 10.

Record CdnItem : Type := mkCdnItem {
  host : string;
  list_index : option nat;      (* [None] until [load_items] assigns it *)
  request_count : Z;
  success_count : Z;
  delay_data : list Qc;
  delay_count : Qc;
  delay_rate_score : Qc;
  weight : Qc
}.

(** [CdnItem.__init__] *)
Definition CdnItem_init (h : string) : CdnItem :=
  {| host := h; list_index := None;
     request_count := 0; success_count := 0;
     delay_data := []; delay_count := 0%Qc; delay_rate_score := 0%Qc;
     weight := 0%Qc |}.

Definition set_list_index (v : option nat) (it : CdnItem) : CdnItem :=
  mkCdnItem (host it) v (request_count it) (success_count it)
            (delay_data it) (delay_count it) (delay_rate_score it) (weight it).
Definition set_request_count (v : Z) (it : CdnItem) : CdnItem :=
  mkCdnItem (host it) (list_index it) v (success_count it)
            (delay_data it) (delay_count it) (delay_rate_score it) (weight it).
Definition set_success_count (v : Z) (it : CdnItem) : CdnItem :=
  mkCdnItem (host it) (list_index it) (request_count it) v
            (delay_data it) (delay_count it) (delay_rate_score it) (weight it).
Definition set_delay_data (v : list Qc) (it : CdnItem) : CdnItem :=
  mkCdnItem (host it) (list_index it) (request_count it) (success_count it)
            v (delay_count it) (delay_rate_score it) (weight it).
Definition set_delay_count (v : Qc) (it : CdnItem) : CdnItem :=
  mkCdnItem (host it) (list_index it) (request_count it) (success_count it)
            (delay_data it) v (delay_rate_score it) (weight it).
Definition set_delay_rate_score (v : Qc) (it : CdnItem) : CdnItem :=
  mkCdnItem (host it) (list_index it) (request_count it) (success_count it)
            (delay_data it) (delay_count it) v (weight it).
Definition set_weight (v : Qc) (it : CdnItem) : CdnItem :=
  mkCdnItem (host it) (list_index it) (request_count it) (success_count it)
            (delay_data it) (delay_count it) (delay_rate_score it) v.

(** [self.delay_data.pop(0)]: removes and returns the oldest sample. *)
Definition pop0 : M CdnItem Qc := fun it =>
  match delay_data it with
  | [] => (it, Raise IndexError)
  | x :: rest => (set_delay_data rest it, Ok x)
  end.

(** The success branch of [add_request_result] (source lines 41-53). *)
Definition record_success (delay : Qc) : M CdnItem unit :=
  modify (fun it => set_success_count (success_count it + 1) it) ;;
  it ← get;
  (if (MAX_DELAY_DATA <=? length (delay_data it))%nat
   then x ← pop0;
        modify (fun it => set_delay_count (delay_count it - x)%Qc it)
   else ret tt) ;;
  modify (fun it => set_delay_count (delay_count it + delay)%Qc it) ;;
  modify (fun it => set_delay_data (delay_data it ++ [delay]) it) ;;
  it ← get;
  avg_delay ← lift_result
    (truediv (delay_count it) (Qc_of_Z (Z.of_nat (length (delay_data it)))));
  score ← lift_result (truediv (BASE_DELAY_MS - avg_delay)%Qc BASE_DELAY_MS);
  modify (set_delay_rate_score score) ;;
  modify (fun it => set_delay_rate_score
            (if Qcltb 0%Qc (delay_rate_score it) then delay_rate_score it
             else 0%Qc) it).

(** [CdnItem.add_request_result(delay, success)] *)
Definition add_request_result (delay : Qc) (success : bool) : M CdnItem unit :=
  modify (fun it => set_request_count (request_count it + 1) it) ;;
  (if success then record_success delay else ret tt) ;;
  it ← get;
  success_rate ← lift_result
    (truediv (Qc_of_Z (success_count it)) (Qc_of_Z (request_count it)));
  modify (set_weight (success_rate * SUCCESS_RATE_WEIGHT
                      + delay_rate_score it * AVG_DELAY_WEIGHT)%Qc).

(** A sequence of calls on one item, stopping at the first exception. *)
Fixpoint add_request_results (outs : list (Qc * bool)) : M CdnItem unit :=
  match outs with
  | [] => ret tt
  | (d, b) :: rest => add_request_result d b ;; add_request_results rest
  end.

(** ** CdnItem in Python's arithmetic

    The embedding of [CdnItem] above computes with exact rationals.  The
    module below is the same code with the numbers Python has: an [int] is
    an integer of any size, a [float] is an IEEE 754 binary64 value, and
    every operation on floats rounds to nearest, ties to even.  A delay is
    an int or a float, as the caller passes it. *)
Module Py.

Definition float : Type := spec_float.

Definition prec : Z := 53.
Definition emax : Z := 1024.

Definition fadd : float -> float -> float := SFadd prec emax.
Definition fsub : float -> float -> float := SFsub prec emax.
Definition fmul : float -> float -> float := SFmul prec emax.
Definition fdiv : float -> float -> float := SFdiv prec emax.

(** An integer as an unrounded binary value. *)
Definition Z2SF (z : Z) : float :=
  match z with
  | Z0 => S754_zero false
  | Zpos p => S754_finite false p 0
  | Zneg p => S754_finite true p 0
  end.

Definition finite_or_overflow (f : float) : result float :=
  match f with
  | S754_infinity _ => Raise OverflowError
  | _ => Ok f
  end.

(** [float(z)]: the nearest double; [OverflowError] beyond the range. *)
Definition float_of_Z (z : Z) : result float :=
  finite_or_overflow (binary_normalize prec emax z 0 false).

(** A Python number. *)
Inductive num : Type :=
| Int (z : Z)
| Float (f : float).

Definition to_float (x : num) : result float :=
  match x with
  | Int z => float_of_Z z
  | Float f => Ok f
  end.

(** [x op y] for [+], [-] and [*]: exact on two ints, otherwise the float
    operation on the operands converted to float. *)
Definition arith (iop : Z -> Z -> Z) (fop : float -> float -> float)
    (x y : num) : result num :=
  match x, y with
  | Int a, Int b => Ok (Int (iop a b))
  | _, _ =>
      match to_float x, to_float y with
      | Ok a, Ok b => Ok (Float (fop a b))
      | Raise e, _ => Raise e
      | _, Raise e => Raise e
      end
  end.

Definition add : num -> num -> result num := arith Z.add fadd.
Definition sub : num -> num -> result num := arith Z.sub fsub.
Definition mul : num -> num -> result num := arith Z.mul fmul.

Definition is_zero (f : float) : bool :=
  match f with
  | S754_zero _ => true
  | _ => false
  end.

(** [x / y] (true division).  Two ints give the double nearest to the exact
    quotient, or [OverflowError]; otherwise the float division of the
    converted operands.  A zero divisor raises [ZeroDivisionError]. *)
Definition truediv (x y : num) : result num :=
  match x, y with
  | Int a, Int b =>
      if b =? 0 then Raise ZeroDivisionError
      else match finite_or_overflow (fdiv (Z2SF a) (Z2SF b)) with
           | Ok f => Ok (Float f)
           | Raise e => Raise e
           end
  | _, _ =>
      match to_float x, to_float y with
      | Ok a, Ok b =>
          if is_zero b then Raise ZeroDivisionError else Ok (Float (fdiv a b))
      | Raise e, _ => Raise e
      | _, Raise e => Raise e
      end
  end.

(** A float against an int, compared exactly; [None] for a NaN. *)
Definition compare_float_Z (f : float) (z : Z) : option comparison :=
  match f with
  | S754_nan => None
  | S754_infinity s => Some (if s then Lt else Gt)
  | S754_zero _ => Some (0 ?= z)
  | S754_finite s m e =>
      let v := cond_Zopp s (Zpos m) in
      Some (if 0 <=? e then v * 2 ^ e ?= z else v ?= z * 2 ^ (- e))
  end.

(** [x > y] *)
Definition gt (x y : num) : bool :=
  match x, y with
  | Int a, Int b => b <? a
  | Float f, Int z =>
      match compare_float_Z f z with Some Gt => true | _ => false end
  | Int z, Float f =>
      match compare_float_Z f z with Some Lt => true | _ => false end
  | Float a, Float b => SFltb b a
  end.

Definition SUCCESS_RATE_WEIGHT : num := Int 10000.
Definition BASE_DELAY_MS : num := Int 1000.
Definition AVG_DELAY_WEIGHT : num := Int 1000.
Definition MAX_DELAY_DATA : nat := 10.

Record CdnItem : Type := mkCdnItem {
  host : string;
  list_index : option nat;
  request_count : Z;
  success_count : Z;
  delay_data : list num;
  delay_count : num;
  delay_rate_score : num;
  weight : num
}.

(** [CdnItem.__init__] *)
Definition CdnItem_init (h : string) : CdnItem :=
  {| host := h; list_index := None;
     request_count := 0; success_count := 0;
     delay_data := []; delay_count := Int 0; delay_rate_score := Int 0;
     weight := Int 0 |}.

Definition set_request_count (v : Z) (it : CdnItem) : CdnItem :=
  mkCdnItem (host it) (list_index it) v (success_count it)
            (delay_data it) (delay_count it) (delay_rate_score it) (weight it).
Definition set_success_count (v : Z) (it : CdnItem) : CdnItem :=
  mkCdnItem (host it) (list_index it) (request_count it) v
            (delay_data it) (delay_count it) (delay_rate_score it) (weight it).
Definition set_delay_data (v : list num) (it : CdnItem) : CdnItem :=
  mkCdnItem (host it) (list_index it) (request_count it) (success_count it)
            v (delay_count it) (delay_rate_score it) (weight it).
Definition set_delay_count (v : num) (it : CdnItem) : CdnItem :=
  mkCdnItem (host it) (list_index it) (request_count it) (success_count it)
            (delay_data it) v (delay_rate_score it) (weight it).
Definition set_delay_rate_score (v : num) (it : CdnItem) : CdnItem :=
  mkCdnItem (host it) (list_index it) (request_count it) (success_count it)
            (delay_data it) (delay_count it) v (weight it).
Definition set_weight (v : num) (it : CdnItem) : CdnItem :=
  mkCdnItem (host it) (list_index it) (request_count it) (success_count it)
            (delay_data it) (delay_count it) (delay_rate_score it) v.

(** [self.delay_data.pop(0)] *)
Definition pop0 : M CdnItem num := fun it =>
  match delay_data it with
  | [] => (it, Raise IndexError)
  | x :: rest => (set_delay_data rest it, Ok x)
  end.

(** The success branch of [add_request_result] (source lines 41-53). *)
Definition record_success (delay : num) : M CdnItem unit :=
  modify (fun it => set_success_count (success_count it + 1) it) ;;
  it ← get;
  (if (MAX_DELAY_DATA <=? length (delay_data it))%nat
   then x ← pop0;
        it ← get;
        c ← lift_result (sub (delay_count it) x);
        modify (set_delay_count c)
   else ret tt) ;;
  it ← get;
  c ← lift_result (add (delay_count it) delay);
  modify (set_delay_count c) ;;
  modify (fun it => set_delay_data (delay_data it ++ [delay]) it) ;;
  it ← get;
  avg_delay ← lift_result
    (truediv (delay_count it) (Int (Z.of_nat (length (delay_data it)))));
  diff ← lift_result (sub BASE_DELAY_MS avg_delay);
  score ← lift_result (truediv diff BASE_DELAY_MS);
  modify (set_delay_rate_score score) ;;
  modify (fun it => set_delay_rate_score
            (if gt (delay_rate_score it) (Int 0) then delay_rate_score it
             else Int 0) it).

(** [CdnItem.add_request_result(delay, success)] *)
Definition add_request_result (delay : num) (success : bool) : M CdnItem unit :=
  modify (fun it => set_request_count (request_count it + 1) it) ;;
  (if success then record_success delay else ret tt) ;;
  it ← get;
  success_rate ← lift_result
    (truediv (Int (success_count it)) (Int (request_count it)));
  a ← lift_result (mul success_rate SUCCESS_RATE_WEIGHT);
  b ← lift_result (mul (delay_rate_score it) AVG_DELAY_WEIGHT);
  w ← lift_result (add a b);
  modify (set_weight w).

(** A sequence of calls on one item, stopping at the first exception. *)
Fixpoint add_request_results (outs : list (num * bool)) : M CdnItem unit :=
  match outs with
  | [] => ret tt
  | (d, b) :: rest => add_request_result d b ;; add_request_results rest
  end.

(** *** The claims' formulas in this arithmetic *)

Definition and_then {A B} (r : result A) (k : A -> result B) : result B :=
  match r with
  | Ok a => k a
  | Raise e => Raise e
  end.

(** The window after a successful call. *)
Definition window_after (it : CdnItem) (d : num) : list num :=
  (if (MAX_DELAY_DATA <=? length (delay_data it))%nat
   then tail (delay_data it) else delay_data it) ++ [d].

(** The running sum after a successful call: what it was, less the sample
    dropped from a full window, plus the new delay. *)
Definition delay_count_after (it : CdnItem) (d : num) : result num :=
  and_then
    (if (MAX_DELAY_DATA <=? length (delay_data it))%nat
     then sub (delay_count it) (hd (Int 0) (delay_data it))
     else Ok (delay_count it))
    (fun c => add c d).

(** [max(0, (1000 - c / w) / 1000)] *)
Definition score_of (c : num) (w : nat) : result num :=
  and_then (truediv c (Int (Z.of_nat w))) (fun avg =>
  and_then (sub (Int 1000) avg) (fun diff =>
  and_then (truediv diff (Int 1000)) (fun q =>
  Ok (if gt q (Int 0) then q else Int 0)))).

(** [(s / t) * 10000 + score * 1000] *)
Definition weight_of (s t : Z) (score : num) : result num :=
  and_then (truediv (Int s) (Int t)) (fun rate =>
  and_then (mul rate (Int 10000)) (fun a =>
  and_then (mul score (Int 1000)) (fun b =>
  add a b))).

(** A float, or the int 0 that the attributes start from. *)
Definition float_or_0 (x : num) : Prop :=
  match x with
  | Int z => z = 0
  | Float _ => True
  end.

(** A delay that stays in the range of a double: any float, or an int below
    [2^400] in absolute value. *)
Definition small (x : num) : Prop :=
  match x with
  | Int z => Z.abs z < 2 ^ 400
  | Float _ => True
  end.

(** A number that converts to a float: a float, or an int below [2^404]
    in absolute value (a sum of ten small ints is one). *)
Definition fits (x : num) : Prop :=
  match x with
  | Int z => Z.abs z < 2 ^ 404
  | Float _ => True
  end.

Definition sumZ (l : list Z) : Z := foldr Z.add 0 l.

(** [delay_count] is a float, or it is an int, and then the window holds
    ints and [delay_count] is their sum. *)
Definition running (it : CdnItem) : Prop :=
  match delay_count it with
  | Float _ => True
  | Int c => exists l, delay_data it = map Int l /\ c = sumZ l
  end.

(** Data invariant of an item: counters in order, a window of at most
    [MAX_DELAY_DATA] small samples, and a score that is a float or the
    initial 0. *)
Definition CdnItem_ok (it : CdnItem) : Prop :=
  0 <= success_count it <= request_count it /\
  (length (delay_data it) <= MAX_DELAY_DATA)%nat /\
  Forall small (delay_data it) /\
  running it /\ float_or_0 (delay_rate_score it).

(** A history of calls with int delays. *)
Definition int_calls (outs : list (Z * bool)) : list (num * bool) :=
  map (fun o => (Int (fst o), snd o)) outs.

(** [sum(l)]: the items added to 0 from the left. *)
Definition sum (l : list num) : result num :=
  fold_left (fun acc x => match acc with Ok a => add a x | Raise e => Raise e end)
            l (Ok (Int 0)).

(** The double nearest to the decimal [n / 10^k], as a float literal
    denotes it. *)
Definition decimal (n : Z) (k : Z) : num := Float (fdiv (Z2SF n) (Z2SF (10 ^ k))).

(** Eleven successful calls with delays as a client measures them, in
    milliseconds. *)
Definition eleven_calls : list (num * bool) :=
  map (fun n => (decimal n 1, true))
      [6244; 7044; 2010; 477; 6415; 7556; 8846; 398; 8476; 7158; 2083].

(** A first delay of [2.0**53] followed by ten delays of [1.0]. *)
Definition one_huge_delay : list (num * bool) :=
  (decimal (2 ^ 53) 0, true) :: repeat (decimal 1 0, true) 10.

End Py.

(** ** The registry [Cdn] *)

(** Object references.  [heap s r] is the object behind reference [r];
    [next_ref s] is the next reference [CdnItem(...)] will allocate. *)
Abbreviation ref := nat (only parsing).

Record Cdn : Type := mkCdn {
  heap : ref -> CdnItem;
  next_ref : ref;
  items : list string;
  cdn_list : list ref;
  cdn_map : gmap string ref;
  last_check_at : option string   (* [None]: attribute not yet assigned *)
}.

(** The class attributes of [Cdn] before [load_items]. *)
Definition Cdn_init : Cdn :=
  {| heap := fun _ => CdnItem_init ""; next_ref := 0%nat; items := [];
     cdn_list := []; cdn_map := ∅; last_check_at := None |}.

Definition set_heap (v : ref -> CdnItem) (s : Cdn) : Cdn :=
  mkCdn v (next_ref s) (items s) (cdn_list s) (cdn_map s) (last_check_at s).
Definition set_cdn_list (v : list ref) (s : Cdn) : Cdn :=
  mkCdn (heap s) (next_ref s) (items s) v (cdn_map s) (last_check_at s).
Definition set_last_check_at (v : option string) (s : Cdn) : Cdn :=
  mkCdn (heap s) (next_ref s) (items s) (cdn_list s) (cdn_map s) v.

(** Run a method of the object behind [r], writing the object back. *)
Definition on_item {A} (r : ref) (m : M CdnItem A) : M Cdn A := fun s =>
  let '(it, res) := m (heap s r) in (set_heap (<[r := it]> (heap s)) s, res).

(** [self.cdn_list[i]] as an expression and as an assignment target; both
    raise [IndexError] out of range. *)
Definition list_get (i : nat) : M Cdn ref := fun s =>
  match cdn_list s !! i with
  | Some r => (s, Ok r)
  | None => (s, Raise IndexError)
  end.
Definition list_set (i : nat) (r : ref) : M Cdn unit := fun s =>
  if (i <? length (cdn_list s))%nat
  then (set_cdn_list (<[i := r]> (cdn_list s)) s, Ok tt)
  else (s, Raise IndexError).

(** [self.cdn_map[host]]: raises [KeyError] on a missing key. *)
Definition map_get (h : string) : M Cdn ref := fun s =>
  match cdn_map s !! h with
  | Some r => (s, Ok r)
  | None => (s, Raise KeyError)
  end.

(** A [for] loop without [break]. *)
Fixpoint for_each {S A} (l : list A) (body : A -> M S unit) : M S unit :=
  match l with
  | [] => ret tt
  | x :: rest => body x ;; for_each rest body
  end.

(** One line of the host file, already stripped of its newline
    (source lines 136-144). *)
Definition load_item (h : string) : M Cdn unit := fun s =>
  let r := next_ref s in
  let cdn_item := set_list_index (Some (length (cdn_list s))) (CdnItem_init h) in
  (mkCdn (<[r := cdn_item]> (heap s)) (S r) (items s ++ [h])
         (cdn_list s ++ [r]) (<[h := r]> (cdn_map s)) (last_check_at s),
   Ok tt).

(** [Cdn.load_items], on the lines of the host file. *)
Definition load_items (lines : list string) : M Cdn unit :=
  for_each lines load_item.

(** The loop of source lines 230-236, over [range(list_index - 1, -1, -1)]. *)
Fixpoint bubble_up (cdn_item : ref) (new_weight : Qc) (range : list nat)
  : M Cdn unit :=
  match range with
  | [] => ret tt
  | i :: rest =>
      x ← list_get i;
      s ← get;
      if Qcltb (weight (heap s x)) new_weight then
        x ← list_get i;
        on_item x (modify (set_list_index (Some (i + 1)%nat))) ;;
        x ← list_get i;
        list_set (i + 1) x ;;
        list_set i cdn_item ;;
        bubble_up cdn_item new_weight rest
      else ret tt
  end.

(** The loop of source lines 239-245, over
    [range(list_index + 1, len(self.cdn_list))]. *)
Fixpoint bubble_down (cdn_item : ref) (new_weight : Qc) (range : list nat)
  : M Cdn unit :=
  match range with
  | [] => ret tt
  | i :: rest =>
      x ← list_get i;
      s ← get;
      if Qcleb new_weight (weight (heap s x)) then
        x ← list_get i;
        on_item x (modify (set_list_index (Some (i - 1)%nat))) ;;
        x ← list_get i;
        list_set (i - 1) x ;;
        list_set i cdn_item ;;
        bubble_down cdn_item new_weight rest
      else ret tt
  end.

(** [Cdn.report_cdn_result(host, delay, success)].  The lock is released on
    every exit, also by an exception.  A [CdnItem] defines neither
    [__bool__] nor [__len__], so [not cdn_item] is false for every item and
    the branch of source lines 218-220 is never taken. *)
Definition report_cdn_result (h : string) (delay : Qc) (success : bool)
  : M Cdn unit :=
  cdn_item ← map_get h;
  on_item cdn_item (add_request_result delay success) ;;
  s ← get;
  let new_weight := weight (heap s cdn_item) in
  match list_index (heap s cdn_item) with
  | None => raise TypeError
  | Some p =>
      up ← (if (0 <? p)%nat
            then x ← list_get (p - 1);
                 ret (Qcltb (weight (heap s x)) new_weight)
            else ret false);
      if (up : bool) then bubble_up cdn_item new_weight (rev (seq 0 p))
      else
        down ← (if Z.of_nat p <? Z.of_nat (length (cdn_list s)) - 1
                then x ← list_get (p + 1);
                     ret (Qcleb new_weight (weight (heap s x)))
                else ret false);
        if (down : bool)
        then bubble_down cdn_item new_weight
               (seq (p + 1) (length (cdn_list s) - (p + 1)))
        else ret tt
  end.

(** [random.choice(seq)]: [entropy] stands for the generator's draw, which
    is reduced to an index below [len(seq)]; an empty sequence raises
    [IndexError]. *)
Definition random_choice {A} (entropy : nat) (l : list A) : result A :=
  match l with
  | [] => Raise IndexError
  | _ => match l !! (entropy mod length l)%nat with
         | Some x => Ok x
         | None => Raise IndexError
         end
  end.

(** [Cdn.get_cdn()] *)
Definition get_cdn (entropy : nat) : M Cdn string :=
  s ← get;
  random_cdn ← lift_result (random_choice entropy (take 100 (cdn_list s)));
  ret (host (heap s random_cdn)).

(** [list.sort(key=lambda x: x.weight, reverse=True)]: a stable sort,
    descending by weight; items of equal weight keep their order.  The
    result of a stable sort is fixed by the keys, so insertion sort stands
    for Python's own algorithm. *)
Fixpoint insert_desc (h : ref -> CdnItem) (x : ref) (l : list ref) : list ref :=
  match l with
  | [] => [x]
  | y :: ys => if Qcltb (weight (h x)) (weight (h y))
               then y :: insert_desc h x ys
               else x :: y :: ys
  end.
Definition sort_desc (h : ref -> CdnItem) (l : list ref) : list ref :=
  foldr (insert_desc h) [] l.

(** [self.cdn_list[i].list_index = i] *)
Definition assign_index (i : nat) : M Cdn unit :=
  x ← list_get i; on_item x (modify (set_list_index (Some i))).

(** [Cdn.resort_cdn_list()] *)
Definition resort_cdn_list : M Cdn unit :=
  modify (fun s => set_cdn_list (sort_desc (heap s) (cdn_list s)) s) ;;
  s ← get;
  for_each (seq 0 (length (cdn_list s))) assign_index.

(** ** Persistence *)

(** What [CdnItemEncoder.default] writes for one item, and what
    [json.loads] gives back for it: a host, two integer counters and a
    numeric weight.  A record with a member missing or of another type is
    not represented: [restore_items] would store [None] or a non-number in
    the item, which [CdnItem] above cannot hold. *)
Record SnapshotItem : Type := mkSnapshotItem {
  snap_host : string;
  snap_request_count : Z;
  snap_success_count : Z;
  snap_weight : Qc
}.

(** The top-level JSON object, with members of the types
    [save_available_items] writes; [None] is a missing key. *)
Record Snapshot : Type := mkSnapshot {
  snap_version : option Z;
  snap_last_check_at : option string;
  snap_cdn_list : option (list SnapshotItem)
}.

(** The snapshot file as [restore_items] finds it: missing, a text that
    [json.loads] rejects, a JSON value that is not an object (of which
    [restore_items] uses the truth value only), or a JSON object. *)
Inductive SnapshotFile : Type :=
| NoFile
| Malformed
| NotObject (truthy : bool)
| Json (d : Snapshot).

Definition CdnItemEncoder_default (obj : CdnItem) : SnapshotItem :=
  {| snap_host := host obj; snap_request_count := request_count obj;
     snap_success_count := success_count obj; snap_weight := weight obj |}.

(** [Cdn.save_available_items()].  [now] is the reading of [time_now()]
    rendered by [str]; the result is the object written to the file. *)
Definition save_available_items (now : string) : M Cdn Snapshot :=
  modify (set_last_check_at (Some now)) ;;
  s ← get;
  ret {| snap_version := Some 2;
         snap_last_check_at := Some now;
         snap_cdn_list :=
           Some (map (fun r => CdnItemEncoder_default (heap s r)) (cdn_list s)) |}.

(** Truth value of the parsed object: an empty dict is false. *)
Definition dict_truthy (d : Snapshot) : bool :=
  match snap_version d, snap_last_check_at d, snap_cdn_list d with
  | None, None, None => false
  | _, _, _ => true
  end.

(** The body of the loop of source lines 171-175. *)
Definition restore_item (x : SnapshotItem) : M Cdn unit :=
  cdn_item ← map_get (snap_host x);
  on_item cdn_item (modify (set_request_count (snap_request_count x))) ;;
  on_item cdn_item (modify (set_success_count (snap_success_count x))) ;;
  on_item cdn_item (modify (set_weight (snap_weight x))).

(** [Cdn.restore_items()].  [str_to_time] belongs to
    [py12306.helpers.func] and is taken as a parameter, a function that
    returns on every string. *)
Definition restore_items (str_to_time : string -> string) (f : SnapshotFile)
  : M Cdn bool :=
  match f with
  | NoFile | Malformed => ret false
  | NotObject truthy =>
      (* [result.get]: a list, number, string or [True] has no [get] *)
      if truthy then raise AttributeError else ret false
  | Json result =>
      if dict_truthy result then
        let version := default 1 (snap_version result) in
        if version <=? 1 then ret false
        else
          modify (set_last_check_at
                    (Some (default EmptyString (snap_last_check_at result)))) ;;
          s ← get;
          match last_check_at s with
          | Some (String c t) =>
              modify (set_last_check_at (Some (str_to_time (String c t))))
          | _ => ret tt
          end ;;
          for_each (default [] (snap_cdn_list result)) restore_item ;;
          resort_cdn_list ;;
          ret true
      else ret false
  end.

(** ** Observations used in the statements *)

Definition weights (s : Cdn) : list Qc := map (fun r => weight (heap s r)) (cdn_list s).
Definition hosts (s : Cdn) : list string := map (fun r => host (heap s r)) (cdn_list s).

(** The ranking invariant: [cdn_list] is descending by weight. *)
Definition descending (l : list Qc) : Prop :=
  StronglySorted (fun x y => (y <= x)%Qc) l.
Definition ranked (s : Cdn) : Prop := descending (weights s).

Fixpoint descendingb (l : list Qc) : bool :=
  match l with
  | [] => true
  | x :: rest => forallb (fun y => Qcleb y x) rest && descendingb rest
  end.

(** The position invariant for the object [r]:
    [cdn_list[item.list_index] == item]. *)
Definition position_ok (s : Cdn) (r : ref) : Prop :=
  exists p, list_index (heap s r) = Some p /\ cdn_list s !! p = Some r.

(** The three fields a snapshot record carries for an item. *)
Definition stats (it : CdnItem) : Z * Z * Qc :=
  (request_count it, success_count it, weight it).
Definition snap_stats (x : SnapshotItem) : Z * Z * Qc :=
  (snap_request_count x, snap_success_count x, snap_weight x).

(** The fields of an item that [restore_items] never assigns. *)
Definition same_delay_fields (it it' : CdnItem) : Prop :=
  host it' = host it /\ delay_data it' = delay_data it /\
  delay_count it' = delay_count it /\
  delay_rate_score it' = delay_rate_score it.

(** [max(x, y)] on exact rationals. *)
Definition Qc_max (x y : Qc) : Qc := if Qcltb x y then y else x.

(** Data invariant of one item: counters from zero, a window of at most
    [MAX_DELAY_DATA] samples, and [delay_count] their sum. *)
Definition CdnItem_ok (it : CdnItem) : Prop :=
  0 <= request_count it /\
  (length (delay_data it) <= MAX_DELAY_DATA)%nat /\
  delay_count it = sumQc (delay_data it).

(** [a] ranks at least as high as [b] in the store [h]. *)
Definition heavier (h : ref -> CdnItem) (a b : ref) : Prop :=
  (weight (h b) <= weight (h a))%Qc.

(** The record [x] names the object [r] through the index [m]. *)
Definition targets (m : gmap string ref) (r : ref) (x : SnapshotItem) : Prop :=
  m !! snap_host x = Some r.

#[local] Instance targets_dec m r x : Decision (targets m r x).
Proof. unfold targets. apply _. Defined.

(** What [restore_items] runs once the version check has passed and
    [last_check_at] is set. *)
Definition restore_body (recs : list SnapshotItem) : M Cdn bool :=
  for_each recs restore_item ;; resort_cdn_list ;; ret true.

(** The window and its running sum after a successful call. *)
Definition window_after (it : CdnItem) (d : Qc) : list Qc :=
  (if (MAX_DELAY_DATA <=? length (delay_data it))%nat
   then tail (delay_data it) else delay_data it) ++ [d].
Definition delay_count_after (it : CdnItem) (d : Qc) : Qc :=
  ((if (MAX_DELAY_DATA <=? length (delay_data it))%nat
    then delay_count it - hd 0%Qc (delay_data it) else delay_count it) + d)%Qc.
Definition score_after (it : CdnItem) (d : Qc) : Qc :=
  Qc_max 0%Qc
    ((BASE_DELAY_MS
      - delay_count_after it d
        / Qc_of_Z (Z.of_nat (length (window_after it d))))
     / BASE_DELAY_MS)%Qc.

(** ** Histories of calls

    What a client can do to the registry once the pool is loaded.  A call
    that raises leaves the registry in the state it had reached. *)
Inductive call : Type :=
| Report (h : string) (delay : Qc) (success : bool)
| GetCdn (entropy : nat)
| Save (now : string)
| Restore (f : SnapshotFile).

Definition run_call (str_to_time : string -> string) (c : call) (s : Cdn) : Cdn :=
  match c with
  | Report h delay success => fst (report_cdn_result h delay success s)
  | GetCdn entropy => fst (get_cdn entropy s)
  | Save now => fst (save_available_items now s)
  | Restore f => fst (restore_items str_to_time f s)
  end.

Definition run_calls (str_to_time : string -> string) (cs : list call) (s : Cdn) : Cdn :=
  fold_left (fun s c => run_call str_to_time c s) cs s.

(** Every item is tracked under its own host, and every listed item is the
    one tracked for its host. *)
Definition indexed (s : Cdn) : Prop :=
  (forall h r, cdn_map s !! h = Some r -> host (heap s r) = h) /\
  (forall r, r ∈ cdn_list s -> cdn_map s !! host (heap s r) = Some r).

(** [m] changes neither the index nor any host, and puts into the list only
    references that were in it or that satisfy [Q]. *)
Definition stable (Q : nat -> Prop) {A} (m : M Cdn A) : Prop :=
  forall s,
    cdn_map (fst (m s)) = cdn_map s /\
    (forall r, host (heap (fst (m s)) r) = host (heap s r)) /\
    (forall r, r ∈ cdn_list (fst (m s)) -> r ∈ cdn_list s \/ Q r).

(** The same, between two states. *)
Definition frame_of (s s' : Cdn) (Q : nat -> Prop) : Prop :=
  cdn_map s' = cdn_map s /\
  (forall r, host (heap s' r) = host (heap s r)) /\
  (forall r, r ∈ cdn_list s' -> r ∈ cdn_list s \/ Q r).

(** Every reference in use is below [next_ref]. *)
Definition allocated (s : Cdn) : Prop :=
  (forall r, r ∈ cdn_list s -> (r < next_ref s)%nat) /\
  (forall h r, cdn_map s !! h = Some r -> (r < next_ref s)%nat).

(** ** Concrete inputs used in examples *)

Definition ten_fast_calls : list (Qc * bool) :=
  repeat (Qc_of_Z 100, true) 10.

(** A pool of two hosts and three reports on it. *)
Definition pool_AB : Cdn := fst (load_items ["A"; "B"] Cdn_init).
Definition pool_AB_1 : Cdn :=
  fst (report_cdn_result "B" (Qc_of_Z 200) true pool_AB).
Definition pool_AB_2 : Cdn :=
  fst (report_cdn_result "A" (Qc_of_Z 100) true pool_AB_1).
Definition pool_AB_3 : Cdn :=
  fst (report_cdn_result "A" (Qc_of_Z 100) false pool_AB_2).



(** Snapshots: an outdated one, one for the hosts A and B, and one with a
    record for the untracked host Z. *)
Definition snap_v1 : Snapshot :=
  {| snap_version := Some 1; snap_last_check_at := Some "2019-01-01 00:00:00.000001";
     snap_cdn_list := Some [mkSnapshotItem "A" 5 5 (Qc_of_Z 10900)] |}.
Definition snap_BA : Snapshot :=
  {| snap_version := Some 2; snap_last_check_at := Some "2019-01-01 00:00:00.000001";
     snap_cdn_list := Some [mkSnapshotItem "A" 4 1 (Qc_of_Z 3400);
                            mkSnapshotItem "B" 3 3 (Qc_of_Z 10800)] |}.
Definition snap_BZ : Snapshot :=
  {| snap_version := Some 2; snap_last_check_at := Some "2019-01-01 00:00:00.000001";
     snap_cdn_list := Some [mkSnapshotItem "B" 3 2 (Qc_of_Z 7000);
                            mkSnapshotItem "Z" 1 1 (Qc_of_Z 10800)] |}.

(** ** Reading an item's history *)





(** ** Invariants of registry computations *)

(** [m] keeps the invariant [P], whether it returns or raises. *)
Definition keeps (P : Cdn -> Prop) {A} (m : M Cdn A) : Prop :=
  forall s, P s -> P (fst (m s)).

(** From a state in [P], [m] returns normally and in [P]. *)
Definition total (P : Cdn -> Prop) {A} (m : M Cdn A) : Prop :=
  forall s, P s -> exists s' a, m s = (s', Ok a) /\ P s'.

(** An item without its position. *)
Definition forget_index (it : CdnItem) : CdnItem := set_list_index None it.

(** [s'] differs from [s] at most in which item the list holds at which
    index and in stored positions; the list has the length it had. *)
Definition relisting_of (s s' : Cdn) : Prop :=
  cdn_map s' = cdn_map s /\ items s' = items s /\
  next_ref s' = next_ref s /\ last_check_at s' = last_check_at s /\
  length (cdn_list s') = length (cdn_list s) /\
  forall r, forget_index (heap s' r) = forget_index (heap s r).

(** The part of [report_cdn_result] that follows the update of the item
    (source lines 226-245). *)
Definition reposition (cdn_item : ref) : M Cdn unit :=
  s ← get;
  let new_weight := weight (heap s cdn_item) in
  match list_index (heap s cdn_item) with
  | None => raise TypeError
  | Some p =>
      up ← (if (0 <? p)%nat
            then x ← list_get (p - 1);
                 ret (Qcltb (weight (heap s x)) new_weight)
            else ret false);
      if (up : bool) then bubble_up cdn_item new_weight (rev (seq 0 p))
      else
        down ← (if Z.of_nat p <? Z.of_nat (length (cdn_list s)) - 1
                then x ← list_get (p + 1);
                     ret (Qcleb new_weight (weight (heap s x)))
                else ret false);
        if (down : bool)
        then bubble_down cdn_item new_weight
               (seq (p + 1) (length (cdn_list s) - (p + 1)))
        else ret tt
  end.

(** The state after one exchange: [x] is told its new position [j] and the
    list becomes [l]. *)
Definition exchanged (x j : nat) (l : list nat) (s : Cdn) : Cdn :=
  set_cdn_list l (set_heap (<[x := set_list_index (Some j) (heap s x)]> (heap s)) s).


(** What a report needs of the registry to go through: the list has [n]
    entries, and every tracked item has a request counter from 0 up and a
    stored position below [n]. *)
Definition sane (n : nat) (s : Cdn) : Prop :=
  length (cdn_list s) = n /\
  forall h r, cdn_map s !! h = Some r ->
    0 <= request_count (heap s r) /\
    exists p, list_index (heap s r) = Some p /\ (p < n)%nat.

(** A call that restores a snapshot restores no negative request counter. *)
Definition call_sane (c : call) : Prop :=
  match c with
  | Restore (Json d) =>
      Forall (fun x => 0 <= snap_request_count x) (default [] (snap_cdn_list d))
  | _ => True
  end.


(** Every tracked item carries the host it is tracked under, and the host of
    every listed item is tracked. *)
Definition listed_tracked (s : Cdn) : Prop :=
  (forall h r, cdn_map s !! h = Some r -> host (heap s r) = h) /\
  (forall r, r ∈ cdn_list s -> is_Some (cdn_map s !! host (heap s r))).


(** A registry whose list has no repeated item, is descending by weight, and
    in which every listed item's stored position is its index. *)
Definition consistent (s : Cdn) : Prop :=
  NoDup (cdn_list s) /\ ranked s /\
  forall i r, cdn_list s !! i = Some r -> list_index (heap s r) = Some i.


(** ** Start-up *)





(** * Proofs *)

(** ** Arithmetic helpers *)

Lemma Qc_of_Z_eq_0 (z : Z) : Qc_of_Z z = 0%Qc -> z = 0.
Proof.
  intros H. apply (f_equal Qcanon.this) in H. cbn in H.
  unfold inject_Z in H. now inversion H.
Qed.

Lemma truediv_ok (x y : Qc) : y <> 0%Qc -> truediv x y = Ok (x / y)%Qc.
Proof.
  intros Hy. unfold truediv, Qc_eq_bool.
  destruct (Qcanon.Qc_eq_dec y 0%Qc) as [E|_]; [contradiction | reflexivity].
Qed.

Lemma truediv_Z_ok (x : Qc) (z : Z) :
  z <> 0 -> truediv x (Qc_of_Z z) = Ok (x / Qc_of_Z z)%Qc.
Proof. intros Hz. apply truediv_ok. intros E. apply Hz, Qc_of_Z_eq_0, E. Qed.

Lemma BASE_DELAY_MS_nonzero : BASE_DELAY_MS <> 0%Qc.
Proof. intros E. apply Qc_of_Z_eq_0 in E. discriminate. Qed.


(** ** [add_request_result] as a state transformer *)

Ltac run_M :=
  unfold mbind, M_bind, mret, M_ret, bind, ret, raise, modify, get, lift_result;
  cbn -[Z.of_nat length Qc_of_Z Qcdiv Qcplus Qcminus Qcmult Qcopp Z.add
        truediv app Qcltb Qcleb Nat.leb BASE_DELAY_MS MAX_DELAY_DATA].

(** The failure call: only [request_count] and [weight] change. *)
Lemma add_request_result_failure (it : CdnItem) (d : Qc) :
  request_count it + 1 <> 0 ->
  add_request_result d false it =
    (set_weight (Qc_of_Z (success_count it) / Qc_of_Z (request_count it + 1)
                   * SUCCESS_RATE_WEIGHT
                 + delay_rate_score it * AVG_DELAY_WEIGHT)%Qc
       (set_request_count (request_count it + 1) it),
     Ok tt).
Proof.
  intros Hrc. unfold add_request_result. run_M.
  rewrite (truediv_Z_ok _ _ Hrc). reflexivity.
Qed.

Lemma window_after_length_pos (it : CdnItem) (d : Qc) :
  Z.of_nat (length (window_after it d)) <> 0.
Proof. unfold window_after. rewrite length_app. cbn. lia. Qed.

Lemma add_request_result_success (it : CdnItem) (d : Qc) :
  request_count it + 1 <> 0 ->
  add_request_result d true it =
    (mkCdnItem (host it) (list_index it)
       (request_count it + 1) (success_count it + 1)
       (window_after it d) (delay_count_after it d) (score_after it d)
       (Qc_of_Z (success_count it + 1) / Qc_of_Z (request_count it + 1)
          * SUCCESS_RATE_WEIGHT
        + score_after it d * AVG_DELAY_WEIGHT)%Qc,
     Ok tt).
Proof.
  intros Hrc.
  pose proof (window_after_length_pos it d) as Hlen.
  unfold score_after, delay_count_after, window_after, Qc_max in *.
  unfold add_request_result, record_success. run_M.
  destruct (MAX_DELAY_DATA <=? length (delay_data it))%nat eqn:Hfull.
  - unfold pop0. run_M.
    destruct (delay_data it) as [|x rest] eqn:Hdata; [discriminate|].
    run_M. cbn [tail hd] in *.
    rewrite (truediv_Z_ok _ _ Hlen). run_M.
    rewrite (truediv_ok _ _ BASE_DELAY_MS_nonzero). run_M.
    rewrite (truediv_Z_ok _ _ Hrc). reflexivity.
  - run_M.
    rewrite (truediv_Z_ok _ _ Hlen). run_M.
    rewrite (truediv_ok _ _ BASE_DELAY_MS_nonzero). run_M.
    rewrite (truediv_Z_ok _ _ Hrc). reflexivity.
Qed.

(** ** The item invariant *)






(** ** Claims about [add_request_result] *)




(** ** Binary64 rounding stays in range *)

Section Rounding.
Import Py.

Lemma Zdigits2_bound (m j : Z) : 0 <= m < 2 ^ j -> 0 <= j -> Zdigits2 m <= j.
Proof.
  intros [Hm Hlt] Hj. destruct m as [|p|p]; [exact Hj | | lia].
  cbn [Zdigits2]. clear Hm. revert j Hj Hlt.
  induction p as [p IH|p IH|]; intros j Hj Hlt; cbn [digits2_pos].
  - assert (j <> 0) by (intros ->; cbn in Hlt; lia).
    replace j with (Z.succ (j - 1)) in Hlt by lia.
    rewrite Z.pow_succ_r in Hlt by lia.
    specialize (IH (j - 1)). rewrite Pos2Z.inj_succ. lia.
  - assert (j <> 0) by (intros ->; cbn in Hlt; lia).
    replace j with (Z.succ (j - 1)) in Hlt by lia.
    rewrite Z.pow_succ_r in Hlt by lia.
    specialize (IH (j - 1)). rewrite Pos2Z.inj_succ. lia.
  - assert (j <> 0) by (intros ->; cbn in Hlt; lia). lia.
Qed.

Lemma Zdigits2_nonneg (m : Z) : 0 <= Zdigits2 m.
Proof. destruct m; cbn; lia. Qed.

Lemma digits2_pos_upper (p : positive) : Zpos p < 2 ^ Zpos (digits2_pos p).
Proof.
  induction p as [p IH|p IH|]; cbn [digits2_pos];
    rewrite ?Pos2Z.inj_succ, ?Z.pow_succ_r by lia; cbn; lia.
Qed.

Lemma digits2_pos_lower (p : positive) : 2 ^ (Zpos (digits2_pos p) - 1) <= Zpos p.
Proof.
  induction p as [p IH|p IH|]; cbn [digits2_pos];
    rewrite ?Pos2Z.inj_succ; try (cbn; lia);
    replace (Z.succ (Zpos (digits2_pos p)) - 1)
      with (Z.succ (Zpos (digits2_pos p) - 1)) by lia;
    rewrite Z.pow_succ_r by lia; lia.
Qed.

Lemma iter_pos_keeps {A} (P : A -> Prop) (f : A -> A) :
  (forall x, P x -> P (f x)) ->
  forall p x, P x -> P (SpecFloat.iter_pos f p x).
Proof.
  intros Hf. induction p as [p IH|p IH|]; intros x Hx;
    cbn [SpecFloat.iter_pos]; auto.
Qed.

Lemma shr_1_below (b : Z) (mrs : shr_record) :
  0 <= shr_m mrs <= b -> 0 <= shr_m (shr_1 mrs) <= b.
Proof.
  destruct mrs as [m r s]. cbn [shr_m]. intros Hm.
  destruct m as [|[p|p|]|p]; cbn [shr_1 shr_m]; lia.
Qed.

Lemma shr_fexp_exponent (m e : Z) (l : location) :
  snd (shr_fexp prec emax m e l) = Z.max e (fexp prec emax (Zdigits2 m + e)).
Proof.
  unfold shr_fexp, shr.
  destruct (fexp prec emax (Zdigits2 m + e) - e) as [|p|p] eqn:E; cbn [snd]; lia.
Qed.

Lemma shr_fexp_mantissa (m e : Z) (l : location) :
  0 <= m -> 0 <= shr_m (fst (shr_fexp prec emax m e l)) <= m.
Proof.
  intros Hm. unfold shr_fexp, shr.
  assert (0 <= shr_m (shr_record_of_loc m l) <= m) as H0
    by (destruct l as [|[| |]]; cbn; lia).
  destruct (fexp prec emax (Zdigits2 m + e) - e) as [|p|p]; cbn [fst];
    try exact H0.
  apply (iter_pos_keeps (fun mrs => 0 <= shr_m mrs <= m)); [|exact H0].
  intros x. apply shr_1_below.
Qed.

Lemma round_nearest_even_bounds (m : Z) (l : location) :
  m <= round_nearest_even m l <= m + 1.
Proof.
  destruct l as [|[| |]]; cbn [round_nearest_even]; try lia.
  destruct (Z.even m); lia.
Qed.

(** A mantissa below [2^j] at an exponent [ex] that keeps the value well
    below [2^1024] rounds to a finite double. *)
Lemma binary_round_aux_finite (sx : bool) (mx ex j : Z) (lx : location) :
  0 <= mx < 2 ^ j -> 0 <= j ->
  - 1074 <= ex <= 971 -> j + ex <= 1023 -> 2 * j + ex <= 1076 ->
  forall s, binary_round_aux prec emax sx mx ex lx <> S754_infinity s.
Proof.
  intros Hm Hj Hex Hje Hjje s. unfold binary_round_aux.
  pose proof (shr_fexp_exponent mx ex lx) as He1.
  pose proof (shr_fexp_mantissa mx ex lx (proj1 Hm)) as Hm1.
  destruct (shr_fexp prec emax mx ex lx) as [mrs' e1]. cbn [fst snd] in *.
  set (m1 := round_nearest_even (shr_m mrs') (loc_of_shr_record mrs')).
  pose proof (round_nearest_even_bounds (shr_m mrs') (loc_of_shr_record mrs'))
    as Hr. fold m1 in Hr.
  pose proof (shr_fexp_exponent m1 e1 loc_Exact) as He2.
  destruct (shr_fexp prec emax m1 e1 loc_Exact) as [mrs'' e2]. cbn [snd] in He2.
  assert (2 ^ j < 2 ^ (j + 1)) as Hpow.
  { rewrite Z.pow_add_r by lia. assert (0 < 2 ^ j) by (apply Z.pow_pos_nonneg; lia).
    lia. }
  assert (Zdigits2 mx <= j) as Hd by (apply Zdigits2_bound; lia).
  assert (Zdigits2 m1 <= j + 1) as Hd1 by (apply Zdigits2_bound; lia).
  pose proof (Zdigits2_nonneg mx). pose proof (Zdigits2_nonneg m1).
  unfold fexp, emin, prec, emax in *.
  assert (e2 <= 1024 - 53) as He by lia.
  destruct (shr_m mrs''); try discriminate.
  apply Z.leb_le in He. rewrite He. discriminate.
Qed.

(** The quotient of two positive integers below [2^500] rounds to a finite
    double. *)
Lemma fdiv_int_finite (sa sb : bool) (a b : positive) :
  Zpos a < Zpos b * 2 ^ 500 ->
  forall s, fdiv (S754_finite sa a 0) (S754_finite sb b 0) <> S754_infinity s.
Proof.
  intros Hab s. unfold fdiv, SFdiv, SFdiv_core_binary.
  pose proof (digits2_pos_upper a) as Ha1.
  pose proof (digits2_pos_lower a) as Ha2.
  pose proof (digits2_pos_upper b) as Hb1.
  pose proof (digits2_pos_lower b) as Hb2.
  cbn [Zdigits2].
  set (d1 := Zpos (digits2_pos a)) in *. set (d2 := Zpos (digits2_pos b)) in *.
  assert (0 < d1) as Hd1 by (subst d1; lia).
  assert (0 < d2) as Hd2 by (subst d2; lia).
  set (e' := Z.min (fexp prec emax (d1 + 0 - (d2 + 0))) (0 - 0)).
  assert (0 < 2 ^ (d2 - 1)) as Hp2 by (apply Z.pow_pos_nonneg; lia).
  destruct (Z_le_gt_dec 0 (d1 - d2 - 53)) as [Hbig | Hsmall].
  - (* no shift: the quotient is below [2^500] *)
    assert (e' = 0) as -> by (subst e'; unfold fexp, emin, prec, emax; lia).
    change (0 - 0 - 0) with 0. cbv iota.
    destruct (Z.div_eucl (Zpos a) (Zpos b)) as [q r] eqn:Ediv.
    assert (q = Zpos a / Zpos b) as ->
      by (unfold Z.div; now rewrite Ediv).
    apply (binary_round_aux_finite _ _ _ 500); try lia.
    split; [apply Z.div_pos; lia|].
    apply Z.div_lt_upper_bound; lia.
  - (* the dividend is shifted so that the quotient has 53 or 54 bits *)
    assert (- 1074 <= e' < 0 /\ d1 - d2 - 53 <= e') as (He' & Hlow)
      by (subst e'; unfold fexp, emin, prec, emax; lia).
    destruct (0 - 0 - e') as [|p|p] eqn:Es; try lia.
    assert (e' = - Zpos p) as -> by lia.
    destruct (Z.div_eucl (Z.shiftl (Zpos a) (Zpos p)) (Zpos b)) as [q r] eqn:Ediv.
    assert (q = Z.shiftl (Zpos a) (Zpos p) / Zpos b) as ->
      by (unfold Z.div; now rewrite Ediv).
    rewrite Z.shiftl_mul_pow2 by lia.
    assert (0 < 2 ^ Zpos p) as Hpp by (apply Z.pow_pos_nonneg; lia).
    apply (binary_round_aux_finite _ _ _ 54); try lia.
    split; [apply Z.div_pos; nia|].
    apply Z.div_lt_upper_bound; [lia|].
    (* a * 2^p < 2^d1 * 2^p <= 2^(d2-1) * 2^54 <= b * 2^54 *)
    assert (2 ^ d1 * 2 ^ Zpos p <= 2 ^ (d2 - 1) * 2 ^ 54) as Hpow.
    { rewrite <- !Z.pow_add_r by lia. apply Z.pow_le_mono_r; lia. }
    assert (0 < 2 ^ 54) by (apply Z.pow_pos_nonneg; lia).
    nia.
Qed.

(** [a / b] on ints returns when the quotient is below [2^500]. *)
Lemma truediv_int (a b : Z) :
  b <> 0 -> Z.abs a < Z.abs b * 2 ^ 500 ->
  exists f, truediv (Int a) (Int b) = Ok (Float f).
Proof.
  intros Hb Hab. unfold truediv.
  assert ((b =? 0) = false) as -> by now apply Z.eqb_neq.
  destruct a as [|a|a].
  - destruct b as [|b|b]; [contradiction| |]; eexists; reflexivity.
  - destruct b as [|b|b]; [contradiction| |]; cbn [Z2SF].
    + pose proof (fdiv_int_finite false false a b Hab) as Hfin.
      destruct (fdiv _ _) as [z|s| |sg m e];
        cbn [finite_or_overflow]; try (eexists; reflexivity).
      exfalso. now apply (Hfin s).
    + pose proof (fdiv_int_finite false true a b Hab) as Hfin.
      destruct (fdiv _ _) as [z|s| |sg m e];
        cbn [finite_or_overflow]; try (eexists; reflexivity).
      exfalso. now apply (Hfin s).
  - destruct b as [|b|b]; [contradiction| |]; cbn [Z2SF].
    + pose proof (fdiv_int_finite true false a b Hab) as Hfin.
      destruct (fdiv _ _) as [z|s| |sg m e];
        cbn [finite_or_overflow]; try (eexists; reflexivity).
      exfalso. now apply (Hfin s).
    + pose proof (fdiv_int_finite true true a b Hab) as Hfin.
      destruct (fdiv _ _) as [z|s| |sg m e];
        cbn [finite_or_overflow]; try (eexists; reflexivity).
      exfalso. now apply (Hfin s).
Qed.

Lemma truediv_rate (s r : Z) :
  0 <= s <= r -> 1 <= r ->
  exists f, truediv (Int s) (Int r) = Ok (Float f).
Proof.
  intros Hs Hr. apply truediv_int; [lia|].
  assert (1 <= 2 ^ 500) by (apply (Z.pow_le_mono_r 2 0 500); lia). nia.
Qed.

Lemma iter_xO (m d : positive) : Zpos (Pos.iter xO m d) = Zpos m * 2 ^ Zpos d.
Proof.
  induction d as [|d IH] using Pos.peano_ind.
  - cbn. lia.
  - rewrite Pos.iter_succ, Pos2Z.inj_succ, Z.pow_succ_r by lia.
    rewrite Pos2Z.inj_xO, IH. lia.
Qed.

(** [float(z)] returns for an int below [2^500] in absolute value. *)
Lemma float_of_Z_finite (z : Z) :
  Z.abs z < 2 ^ 500 -> exists g, float_of_Z z = Ok g.
Proof.
  intros Hz. unfold float_of_Z.
  assert (forall sx (m : positive), Zpos m < 2 ^ 500 ->
            forall s, binary_round prec emax sx m 0 <> S754_infinity s) as Hfin.
  { intros sx m Hm s. unfold binary_round, shl_align.
    pose proof (digits2_pos_upper m) as Hu.
    pose proof (digits2_pos_lower m) as Hl.
    set (d := Zpos (digits2_pos m)) in *.
    assert (0 < d) as Hd by (subst d; lia).
    assert (d <= 500) as Hd500.
    { destruct (Z_le_gt_dec d 500) as [H|H]; [exact H|exfalso].
      assert (2 ^ 500 <= 2 ^ (d - 1)) by (apply Z.pow_le_mono_r; lia). lia. }
    set (e := fexp prec emax (d + 0)).
    assert (e = Z.max (d - 53) (- 1074)) as He
      by (subst e; unfold fexp, emin, prec, emax; lia).
    destruct (e - 0) as [|p|p] eqn:E; cbv iota beta.
    - apply (binary_round_aux_finite _ _ _ d); lia.
    - apply (binary_round_aux_finite _ _ _ d); lia.
    - rewrite iter_xO.
      assert (d + Zpos p = 53) as Hdp by lia.
      apply (binary_round_aux_finite _ _ _ 53); try lia.
      split; [lia|].
      replace 53 with (d + Zpos p) by lia. rewrite Z.pow_add_r by lia.
      assert (0 < 2 ^ Zpos p) by (apply Z.pow_pos_nonneg; lia). nia. }
  destruct z as [|m|m]; cbn [binary_normalize].
  - eexists; reflexivity.
  - pose proof (Hfin false m Hz) as H.
    destruct (binary_round prec emax false m 0) as [z|s| |sg m' e];
      cbn [finite_or_overflow]; try (eexists; reflexivity).
    exfalso. now apply (H s).
  - pose proof (Hfin true m Hz) as H.
    destruct (binary_round prec emax true m 0) as [z|s| |sg m' e];
      cbn [finite_or_overflow]; try (eexists; reflexivity).
    exfalso. now apply (H s).
Qed.

End Rounding.

(** ** [add_request_result] in Python's arithmetic *)

Section PyItem.
Import Py.

Lemma to_float_0 : to_float (Int 0) = Ok (S754_zero false).
Proof. reflexivity. Qed.

Lemma to_float_1000 :
  exists g, to_float (Int 1000) = Ok g /\ is_zero g = false.
Proof. eexists. split; vm_compute; reflexivity. Qed.

Lemma to_float_10000 : exists g, to_float (Int 10000) = Ok g.
Proof. eexists. vm_compute. reflexivity. Qed.

Lemma to_float_length (n : nat) :
  (1 <= n <= 10)%nat ->
  exists g, to_float (Int (Z.of_nat n)) = Ok g /\ is_zero g = false.
Proof.
  intros Hn.
  assert (n = 1 \/ n = 2 \/ n = 3 \/ n = 4 \/ n = 5 \/ n = 6 \/ n = 7 \/
          n = 8 \/ n = 9 \/ n = 10)%nat as H by lia.
  repeat (destruct H as [-> | H]; [eexists; split; vm_compute; reflexivity|]).
  subst n. eexists; split; vm_compute; reflexivity.
Qed.

Lemma pow_400_404 : 2 ^ 404 = 16 * 2 ^ 400.
Proof. reflexivity. Qed.

Lemma pow_404_500 : 2 ^ 404 < 2 ^ 500.
Proof. apply Z.pow_lt_mono_r; lia. Qed.

Lemma small_fits (x : num) : small x -> fits x.
Proof.
  destruct x as [z|f]; cbn [small fits]; [|auto].
  rewrite pow_400_404. assert (0 < 2 ^ 400) by (apply Z.pow_pos_nonneg; lia). lia.
Qed.

Lemma to_float_fits (x : num) : fits x -> exists g, to_float x = Ok g.
Proof.
  destruct x as [z|f]; cbn [fits to_float]; [|eexists; reflexivity].
  intros Hz. apply float_of_Z_finite. pose proof pow_404_500. lia.
Qed.

Lemma float_or_0_fits (x : num) : float_or_0 x -> fits x.
Proof.
  destruct x as [z|f]; cbn [float_or_0 fits]; [intros ->; reflexivity | auto].
Qed.

Section Arith.
Variables (iop : Z -> Z -> Z) (fop : float -> float -> float).

Lemma arith_float_l (f g : float) (y : num) :
  to_float y = Ok g -> arith iop fop (Float f) y = Ok (Float (fop f g)).
Proof. intros E. unfold arith. cbn [to_float]. now rewrite E. Qed.

Lemma arith_float_r (f g : float) (x : num) :
  to_float x = Ok g -> arith iop fop x (Float f) = Ok (Float (fop g f)).
Proof.
  intros E. unfold arith. destruct x as [z|x]; rewrite E; reflexivity.
Qed.

(** On operands that convert, the operation returns: the int result on two
    ints, and a float otherwise. *)
Lemma arith_fits (x y : num) :
  fits x -> fits y ->
  exists c, arith iop fop x y = Ok c /\
            match x, y with
            | Int a, Int b => c = Int (iop a b)
            | _, _ => exists f, c = Float f
            end.
Proof.
  intros Hx Hy.
  destruct (to_float_fits x Hx) as [gx Ex].
  destruct (to_float_fits y Hy) as [gy Ey].
  destruct x as [a|f], y as [b|g].
  - eexists. split; reflexivity.
  - eexists. split; [exact (arith_float_r g gx (Int a) Ex) | eexists; reflexivity].
  - eexists. split; [exact (arith_float_l f gy (Int b) Ey) | eexists; reflexivity].
  - eexists. split; [reflexivity | eexists; reflexivity].
Qed.
End Arith.

Lemma truediv_float_l (f g : float) (y : num) :
  to_float y = Ok g -> is_zero g = false ->
  truediv (Float f) y = Ok (Float (fdiv f g)).
Proof. intros E Hz. unfold truediv. cbn [to_float]. now rewrite E, Hz. Qed.

Lemma sumZ_snoc (l : list Z) (z : Z) : sumZ (l ++ [z]) = sumZ l + z.
Proof.
  unfold sumZ. rewrite foldr_app. cbn [foldr].
  induction l as [|y l IH]; cbn [foldr]; lia.
Qed.

Lemma sumZ_fits (l : list Z) :
  Forall small (map Int l) -> (length l <= 10)%nat -> fits (Int (sumZ l)).
Proof.
  intros Hl Hlen. cbn [fits]. rewrite pow_400_404.
  assert (0 < 2 ^ 400) as HB by (apply Z.pow_pos_nonneg; lia).
  set (B := 2 ^ 400) in *.
  assert (Z.abs (sumZ l) <= Z.of_nat (length l) * B) as Hsum.
  { clear Hlen. induction l as [|z l IH]; cbn [sumZ foldr length map] in *.
    - lia.
    - inversion Hl as [|? ? Hz Hrest]; subst. cbn [small] in Hz. fold B in Hz.
      specialize (IH Hrest). fold (sumZ l). lia. }
  nia.
Qed.

(** The score of a running sum over a window of 1 to 10 samples. *)
Lemma score_of_fits (c : num) (w : nat) :
  fits c -> (1 <= w <= 10)%nat ->
  exists q, score_of c w = Ok q /\ float_or_0 q.
Proof.
  intros Hc Hw. unfold score_of.
  destruct (to_float_length w Hw) as (gw & Ew & Zw).
  destruct to_float_1000 as (g1000 & E1000 & Z1000).
  assert (exists avg, truediv c (Int (Z.of_nat w)) = Ok (Float avg)) as (avg & ->).
  { destruct c as [z|f]; cbn [fits] in Hc.
    - apply truediv_int; [lia|].
      pose proof pow_404_500. nia.
    - eexists. exact (truediv_float_l f gw _ Ew Zw). }
  cbn [and_then].
  unfold sub. rewrite (arith_float_r _ _ _ g1000 _ E1000). cbn [and_then].
  rewrite (truediv_float_l _ g1000 _ E1000 Z1000). cbn [and_then].
  eexists. split; [reflexivity|].
  destruct (gt _ _); [exact I | reflexivity].
Qed.

(** The weight of an item whose counters are in order. *)
Lemma weight_of_float (s t : Z) (score : num) :
  0 <= s <= t -> 1 <= t -> float_or_0 score ->
  exists w, weight_of s t score = Ok (Float w).
Proof.
  intros Hs Ht Hscore. unfold weight_of.
  destruct (truediv_rate s t Hs Ht) as (rate & ->). cbn [and_then].
  destruct to_float_10000 as (g & Eg).
  unfold mul at 1. rewrite (arith_float_l _ _ rate g _ Eg). cbn [and_then].
  destruct score as [z|f]; cbn [float_or_0] in Hscore.
  - subst z. cbn [mul arith and_then Z.mul].
    unfold add. rewrite (arith_float_l _ _ _ _ _ to_float_0).
    eexists; reflexivity.
  - destruct to_float_1000 as (g1 & E1 & _).
    unfold mul. rewrite (arith_float_l _ _ f g1 _ E1). cbn [and_then].
    unfold add. rewrite (arith_float_l _ _ _ _ (Float _) eq_refl).
    eexists; reflexivity.
Qed.

Ltac run_D :=
  unfold mbind, M_bind, mret, M_ret, bind, ret, raise, modify, get, lift_result;
  cbn [fst snd host list_index request_count success_count delay_data
       delay_count delay_rate_score weight
       set_request_count set_success_count set_delay_data set_delay_count
       set_delay_rate_score set_weight].

(** [add_request_result] written out: the call returns when the arithmetic
    of the claims' formulas does, and then with their values. *)
Lemma add_request_result_failure_run (it : CdnItem) (d w : num) :
  weight_of (success_count it) (request_count it + 1) (delay_rate_score it)
  = Ok w ->
  add_request_result d false it =
    (set_weight w (set_request_count (request_count it + 1) it), Ok tt).
Proof.
  unfold weight_of, add_request_result, SUCCESS_RATE_WEIGHT, AVG_DELAY_WEIGHT.
  run_D.
  destruct (truediv (Int (success_count it)) (Int (request_count it + 1)))
    as [rate|e]; cbn [and_then]; [|discriminate].
  destruct (mul rate (Int 10000)) as [a|e]; cbn [and_then]; [|discriminate].
  destruct (mul (delay_rate_score it) (Int 1000)) as [b|e]; cbn [and_then];
    [|discriminate].
  now intros ->.
Qed.

Lemma add_request_result_success_run (it : CdnItem) (d c q w : num) :
  delay_count_after it d = Ok c ->
  score_of c (length (window_after it d)) = Ok q ->
  weight_of (success_count it + 1) (request_count it + 1) q = Ok w ->
  add_request_result d true it =
    (mkCdnItem (host it) (list_index it)
       (request_count it + 1) (success_count it + 1)
       (window_after it d) c q w,
     Ok tt).
Proof.
  unfold delay_count_after, score_of, weight_of, window_after.
  unfold add_request_result, record_success, pop0,
    SUCCESS_RATE_WEIGHT, AVG_DELAY_WEIGHT, BASE_DELAY_MS.
  run_D.
  destruct (MAX_DELAY_DATA <=? length (delay_data it))%nat eqn:Hfull.
  - destruct (delay_data it) as [|x rest] eqn:Hdata; [discriminate|].
    run_D. rewrite Hdata. run_D. cbn [hd tail].
    destruct (sub (delay_count it) x) as [c0|e]; cbn [and_then]; [|discriminate].
    run_D. intros ->. run_D.
    destruct (truediv c _) as [avg|e]; cbn [and_then]; [|discriminate].
    destruct (sub (Int 1000) avg) as [diff|e]; cbn [and_then]; [|discriminate].
    destruct (truediv diff (Int 1000)) as [q0|e]; cbn [and_then]; [|discriminate].
    run_D. intros [= <-].
    destruct (truediv (Int (success_count it + 1)) (Int (request_count it + 1)))
      as [rate|e]; cbn [and_then]; [|discriminate].
    destruct (mul rate (Int 10000)) as [a|e]; cbn [and_then]; [|discriminate].
    destruct (mul _ (Int 1000)) as [b|e]; cbn [and_then]; [|discriminate].
    now intros ->.
  - run_D. cbn [and_then]. intros ->. run_D.
    destruct (truediv c _) as [avg|e]; cbn [and_then]; [|discriminate].
    destruct (sub (Int 1000) avg) as [diff|e]; cbn [and_then]; [|discriminate].
    destruct (truediv diff (Int 1000)) as [q0|e]; cbn [and_then]; [|discriminate].
    run_D. intros [= <-].
    destruct (truediv (Int (success_count it + 1)) (Int (request_count it + 1)))
      as [rate|e]; cbn [and_then]; [|discriminate].
    destruct (mul rate (Int 10000)) as [a|e]; cbn [and_then]; [|discriminate].
    destruct (mul _ (Int 1000)) as [b|e]; cbn [and_then]; [|discriminate].
    now intros ->.
Qed.

Lemma window_after_length (it : CdnItem) (d : num) :
  (length (delay_data it) <= 10)%nat ->
  (1 <= length (window_after it d) <= 10)%nat.
Proof.
  intros Hlen. unfold window_after, MAX_DELAY_DATA.
  destruct (10 <=? length (delay_data it))%nat eqn:Hfull.
  - apply Nat.leb_le in Hfull.
    destruct (delay_data it) as [|x rest]; cbn [tail length] in *;
      rewrite length_app; cbn [length]; lia.
  - apply Nat.leb_gt in Hfull. rewrite length_app. cbn [length]. lia.
Qed.

Lemma window_after_small (it : CdnItem) (d : num) :
  Forall small (delay_data it) -> small d -> Forall small (window_after it d).
Proof.
  intros Hw Hd. unfold window_after. apply Forall_app. split.
  - destruct (MAX_DELAY_DATA <=? length (delay_data it))%nat; [|exact Hw].
    destruct (delay_data it); cbn [tail]; [constructor | now inversion Hw].
  - now repeat constructor.
Qed.

(** The running sum after a successful call: it is computed, it is a float
    or the exact sum of a window of ints, and it converts to a float. *)
Lemma delay_count_after_ok (it : CdnItem) (d : num) :
  CdnItem_ok it -> small d ->
  exists c,
    delay_count_after it d = Ok c /\
    match c with
    | Float _ => True
    | Int z => exists l, window_after it d = map Int l /\ z = sumZ l
    end.
Proof.
  intros (_ & Hlen & Hdata & Hrun & _) Hd.
  unfold delay_count_after, window_after, running, MAX_DELAY_DATA in *.
  assert (fits d) as Hfd by now apply small_fits.
  (* the sum before the new delay is added, and the window it belongs to *)
  assert (exists c0 win0,
            (if (10 <=? length (delay_data it))%nat
             then sub (delay_count it) (hd (Int 0) (delay_data it))
             else Ok (delay_count it)) = Ok c0 /\
            (if (10 <=? length (delay_data it))%nat
             then tail (delay_data it) else delay_data it) = win0 /\
            Forall small win0 /\ (length win0 <= 10)%nat /\
            match c0 with
            | Float _ => True
            | Int z => exists l, win0 = map Int l /\ z = sumZ l
            end) as (c0 & win0 & -> & -> & Hw0 & Hl0 & Hc0).
  { destruct (10 <=? length (delay_data it))%nat.
    2: { exists (delay_count it), (delay_data it).
         repeat split; try assumption. }
    destruct (delay_data it) as [|x rest] eqn:Ed; cbn [hd tail].
    - (* an empty window is never full, but the code is defined on it *)
      destruct (delay_count it) as [z|f].
      + exists (Int (z - 0)), []. destruct Hrun as (l & El & ->).
        destruct l; [|discriminate].
        split; [reflexivity|]. split; [reflexivity|].
        split; [constructor|]. split; [cbn; lia|].
        exists []. split; reflexivity.
      + exists (Float (fsub f (S754_zero false))), [].
        split; [apply (arith_float_l _ _ f _ _ to_float_0)|].
        split; [reflexivity|]. split; [constructor|].
        split; [cbn; lia | exact I].
    - inversion Hdata as [|? ? Hx Hrest]; subst.
      cbn [length] in Hlen.
      destruct (delay_count it) as [z|f].
      + destruct Hrun as (l & El & ->).
        destruct l as [|x0 l']; [discriminate|]. cbn [map] in El.
        injection El as -> ->.
        exists (Int (sumZ (x0 :: l') - x0)), (map Int l').
        split; [reflexivity|]. split; [reflexivity|].
        split; [exact Hrest|]. split; [lia|].
        exists l'. split; [reflexivity|]. unfold sumZ. cbn [foldr]. lia.
      + destruct (to_float_fits x (small_fits x Hx)) as [g Eg].
        exists (Float (fsub f g)), rest.
        split; [apply (arith_float_l _ _ f g x Eg)|].
        split; [reflexivity|]. split; [exact Hrest|].
        split; [lia | exact I]. }
  cbn [and_then].
  destruct c0 as [z|f].
  - destruct Hc0 as (l & -> & ->).
    destruct d as [zd|fd].
    + exists (Int (sumZ l + zd)). split; [reflexivity|].
      exists (l ++ [zd]). split; [now rewrite map_app | now rewrite sumZ_snoc].
    + assert (fits (Int (sumZ l))) as Hs
        by (apply sumZ_fits; [exact Hw0 | now rewrite length_map in Hl0]).
      destruct (to_float_fits _ Hs) as [g Eg].
      eexists. split; [apply (arith_float_r _ _ fd g _ Eg) | exact I].
  - destruct (to_float_fits d Hfd) as [g Eg].
    eexists. split; [apply (arith_float_l _ _ f g d Eg) | exact I].
Qed.

(** A call with a small delay on an item that satisfies the invariant
    returns, with the values of the claims' formulas, and the invariant
    holds again. *)
Lemma add_request_result_small (it : CdnItem) (d : num) (b : bool) :
  CdnItem_ok it -> small d ->
  exists it',
    add_request_result d b it = (it', Ok tt) /\
    CdnItem_ok it' /\
    host it' = host it /\ list_index it' = list_index it /\
    request_count it' = request_count it + 1 /\
    success_count it' = success_count it + (if b then 1 else 0) /\
    (if b
     then delay_data it' = window_after it d /\
          delay_count_after it d = Ok (delay_count it') /\
          score_of (delay_count it') (length (delay_data it'))
          = Ok (delay_rate_score it')
     else delay_data it' = delay_data it /\
          delay_count it' = delay_count it /\
          delay_rate_score it' = delay_rate_score it) /\
    weight_of (success_count it') (request_count it') (delay_rate_score it')
    = Ok (weight it').
Proof.
  intros Hok Hd. pose proof Hok as (Hcnt & Hlen & Hdata & Hrun & Hscore).
  destruct b.
  - destruct (delay_count_after_ok it d Hok Hd) as (c & Ec & Hc).
    pose proof (window_after_length it d Hlen) as Hw.
    pose proof (window_after_small it d Hdata Hd) as Hws.
    assert (fits c) as Hfc.
    { destruct c as [z|f]; [|exact I]. destruct Hc as (l & El & ->).
      apply sumZ_fits; [now rewrite <- El|].
      rewrite <- (length_map Int), <- El. lia. }
    destruct (score_of_fits c _ Hfc Hw) as (q & Eq & Hq).
    destruct (weight_of_float (success_count it + 1) (request_count it + 1) q)
      as (w & Ew); [lia | lia | exact Hq|].
    eexists. split; [exact (add_request_result_success_run it _ _ _ _ Ec Eq Ew)|].
    unfold CdnItem_ok, running.
    cbn [host list_index request_count success_count delay_data delay_count
         delay_rate_score weight].
    split; [|repeat split; assumption].
    split; [lia|]. split; [unfold MAX_DELAY_DATA; lia|].
    split; [exact Hws|]. split; [|exact Hq].
    destruct c; [exact Hc | exact I].
  - destruct (weight_of_float (success_count it) (request_count it + 1)
                (delay_rate_score it)) as (w & Ew); [lia | lia | exact Hscore|].
    eexists. split; [exact (add_request_result_failure_run it _ _ Ew)|].
    unfold CdnItem_ok, running in *.
    cbn [host list_index request_count success_count delay_data delay_count
         delay_rate_score weight set_weight set_request_count].
    split; [|rewrite Z.add_0_r; repeat split; assumption].
    split; [lia|]. repeat split; assumption.
Qed.

Lemma CdnItem_init_ok_py (h : string) : CdnItem_ok (CdnItem_init h).
Proof.
  repeat split; cbn; try lia; try constructor.
  exists []. split; reflexivity.
Qed.

Lemma add_request_results_small (outs : list (num * bool)) (it : CdnItem) :
  CdnItem_ok it -> Forall (fun o => small (fst o)) outs ->
  exists it',
    add_request_results outs it = (it', Ok tt) /\ CdnItem_ok it'.
Proof.
  revert it. induction outs as [|[d b] outs IH]; intros it Hok Hall.
  - exists it. split; [reflexivity | exact Hok].
  - inversion Hall as [|? ? Hd Hrest]; subst. cbn [fst] in Hd.
    destruct (add_request_result_small it d b Hok Hd) as (it1 & E1 & Hok1 & _).
    destruct (IH it1 Hok1 Hrest) as (it2 & E2 & Hok2).
    exists it2. split; [|exact Hok2].
    cbn [add_request_results]. unfold mbind, M_bind, bind. rewrite E1. exact E2.
Qed.

End PyItem.

(** Runs a call as far as the arithmetic is known, and splits on every
    operation that can raise. *)
Ltac run_int :=
  repeat (cbn [fst snd Py.delay_data Py.delay_count
               Py.request_count Py.success_count
               Py.delay_rate_score Py.weight
               Py.set_request_count Py.set_success_count
               Py.set_delay_data Py.set_delay_count
               Py.set_delay_rate_score Py.set_weight
               Py.sub Py.add Py.arith];
          try match goal with
              | |- context [match ?r with Ok _ => _ | Raise _ => _ end] =>
                  destruct r
              end).

(** With int delays the running sum is exact: at every exit of a call,
    returned or raised, [delay_count] is the sum of the window. *)
Lemma add_request_result_int_sum
    (it : Py.CdnItem) (z : Z) (b : bool) (l : list Z) :
  Py.delay_data it = map Py.Int l ->
  Py.delay_count it = Py.Int (Py.sumZ l) ->
  (length l <= 10)%nat ->
  exists l',
    Py.delay_data (fst (Py.add_request_result (Py.Int z) b it))
    = map Py.Int l' /\
    Py.delay_count (fst (Py.add_request_result (Py.Int z) b it))
    = Py.Int (Py.sumZ l') /\
    (length l' <= 10)%nat.
Proof.
  intros Hdata Hcount Hlen.
  destruct it as [h0 li rc sc dd dc ds w0].
  cbn [Py.delay_data Py.delay_count] in Hdata, Hcount. subst dd dc.
  unfold Py.add_request_result, Py.record_success, Py.pop0.
  unfold mbind, M_bind, bind, modify, mret, M_ret, ret, get, lift_result.
  destruct b.
  2: { exists l. run_int; repeat split; try reflexivity; exact Hlen. }
  cbn [fst snd Py.delay_data Py.delay_count Py.set_request_count
       Py.set_success_count].
  rewrite length_map.
  destruct (Py.MAX_DELAY_DATA <=? length l)%nat eqn:Hfull.
  - destruct l as [|x rest]; [discriminate|]. cbn [map].
    exists (rest ++ [z]).
    assert (Py.sumZ (rest ++ [z]) = Py.sumZ (x :: rest) - x + z) as Es.
    { unfold Py.sumZ. rewrite foldr_app. cbn [foldr].
      generalize rest as r. induction r as [|y r IH]; cbn [foldr]; lia. }
    rewrite map_app, Es. cbn [map].
    assert (length (rest ++ [z]) <= 10)%nat as Hl
      by (rewrite length_app; cbn [length] in *; lia).
    run_int; rewrite ?length_map; repeat split; try reflexivity; exact Hl.
  - exists (l ++ [z]).
    assert (Py.sumZ (l ++ [z]) = Py.sumZ l + z) as Es.
    { unfold Py.sumZ. rewrite foldr_app. cbn [foldr].
      generalize l as r. induction r as [|y r IH]; cbn [foldr]; lia. }
    rewrite map_app, Es. cbn [map].
    assert (length (l ++ [z]) <= 10)%nat as Hl.
    { apply Nat.leb_gt in Hfull. unfold Py.MAX_DELAY_DATA in Hfull.
      rewrite length_app. cbn [length]. lia. }
    run_int; rewrite ?length_map; repeat split; try reflexivity; exact Hl.
Qed.

Lemma add_request_results_int_sum
    (zs : list (Z * bool)) (it : Py.CdnItem) (l : list Z) :
  Py.delay_data it = map Py.Int l ->
  Py.delay_count it = Py.Int (Py.sumZ l) ->
  (length l <= 10)%nat ->
  exists l',
    Py.delay_data (fst (Py.add_request_results (Py.int_calls zs) it))
    = map Py.Int l' /\
    Py.delay_count (fst (Py.add_request_results (Py.int_calls zs) it))
    = Py.Int (Py.sumZ l') /\
    (length l' <= 10)%nat.
Proof.
  revert it l. induction zs as [|[z b] zs IH]; intros it l Hdata Hcount Hlen.
  - exists l. now repeat split.
  - destruct (add_request_result_int_sum it z b l Hdata Hcount Hlen)
      as (l1 & Hd1 & Hc1 & Hl1).
    cbn [Py.int_calls map Py.add_request_results fst snd].
    unfold mbind, M_bind, bind.
    destruct (Py.add_request_result (Py.Int z) b it) as [it1 [[]|e]];
      cbn [fst] in *.
    + exact (IH it1 l1 Hd1 Hc1 Hl1).
    + exists l1. now repeat split.
Qed.

(** Some bound on int delays is needed: [10**400 / 1] has no double, and
    the call ends with [OverflowError] before the weight is assigned. *)
Lemma huge_int_delay_raises :
  let r := Py.add_request_result (Py.Int (10 ^ 400)) true (Py.CdnItem_init "H") in
  snd r = Raise OverflowError /\
  Py.request_count (fst r) = 1 /\ Py.weight (fst r) = Py.Int 0.
Proof. cbv zeta. repeat split; vm_compute; reflexivity. Qed.

(** ** Claims about the arithmetic of [add_request_result] *)

(** C3 (as the code has it).  Take an item that satisfies the invariant and
    a delay that is a float or an int below 2^400.  The call returns, and
    with S = [success_count], T = [request_count], at least 1, and W the
    size of the window: the weight is (S/T)*10000 + score*1000 as Python
    evaluates it, every float operation rounded to a double.  After a
    successful call, W is between 1 and 10, the window is the one before
    without its oldest sample when it was full, with the new delay
    appended, and score is max(0, (1000 - A)/1000) for
    A = [delay_count] / W, where [delay_count] is the running sum: what it
    was, less the dropped sample, plus the new delay.  After a failed call
    score is the [delay_rate_score] the item already had. *)
Theorem weight_formula (it : Py.CdnItem) (d : Py.num) (b : bool) :
  Py.CdnItem_ok it -> Py.small d ->
  exists it',
    Py.add_request_result d b it = (it', Ok tt) /\
    let S := Py.success_count it' in
    let T := Py.request_count it' in
    let W := length (Py.delay_data it') in
    T = Py.request_count it + 1 /\ 1 <= T /\
    S = Py.success_count it + (if b then 1 else 0) /\
    (if b
     then Py.delay_data it' = Py.window_after it d /\
          (1 <= W <= 10)%nat /\
          Py.delay_count_after it d = Ok (Py.delay_count it') /\
          Py.score_of (Py.delay_count it') W = Ok (Py.delay_rate_score it')
     else Py.delay_rate_score it' = Py.delay_rate_score it) /\
    Py.weight_of S T (Py.delay_rate_score it') = Ok (Py.weight it').
Proof.
  intros Hok Hd.
  destruct (add_request_result_small it d b Hok Hd)
    as (it' & E & Hok' & _ & _ & Hrc & Hsc & Hdelay & Hw).
  exists it'. split; [exact E|]. cbv zeta.
  split; [exact Hrc|]. split; [destruct Hok as ((? & ?) & _); lia|].
  split; [exact Hsc|]. split; [|exact Hw].
  destruct b.
  - destruct Hdelay as (Hwin & Hc & Hs). split; [exact Hwin|].
    split; [|split; [exact Hc | exact Hs]].
    rewrite Hwin. apply window_after_length. apply Hok.
  - apply Hdelay.
Qed.

Lemma weight_formula_witness :
  Py.CdnItem_ok (Py.CdnItem_init "h") /\ Py.small (Py.Int 200) /\
  exists it',
    Py.add_request_result (Py.Int 200) true (Py.CdnItem_init "h")
    = (it', Ok tt) /\
    Py.request_count it' = 1 /\
    (length (Py.delay_data it') = 1)%nat /\
    Py.weight_of 1 1 (Py.delay_rate_score it') = Ok (Py.weight it').
Proof.
  assert (Py.CdnItem_ok (Py.CdnItem_init "h")) as Hok.
  { repeat split; cbn; try lia; try constructor. exists []. split; reflexivity. }
  assert (Py.small (Py.Int 200)) as Hd by reflexivity.
  split; [exact Hok|]. split; [exact Hd|].
  destruct (weight_formula (Py.CdnItem_init "h") (Py.Int 200) true Hok Hd)
    as (it' & E & Hrc & _ & Hsc & (Hwin & _) & Hw).
  exists it'. split; [exact E|]. split; [exact Hrc|].
  split; [now rewrite Hwin|].
  cbv zeta in Hw. rewrite Hrc, Hsc in Hw. exact Hw.
Defined.

(** C3, read with A the average of the samples in the window, fails.
    After the eleven successful calls of [eleven_calls] the weight is
    10495.369999999999, while the formula with A = sum(window) / 10 gives
    10495.37: the running sum is 5046.300000000001, the sum of the window
    5046.3.  After [one_huge_delay] the window holds ten samples of 1.0,
    whose average is 1 however it is computed, so the formula gives 10999,
    but the weight is above 10999 (it is 10999.9: the running sum is 1.0,
    not 10.0). *)
Lemma weight_formula_window_average_fails :
  (let r := Py.add_request_results Py.eleven_calls (Py.CdnItem_init "H") in
   snd r = Ok tt /\
   Py.success_count (fst r) = 11 /\ Py.request_count (fst r) = 11 /\
   length (Py.delay_data (fst r)) = 10%nat /\
   exists s w,
     Py.sum (Py.delay_data (fst r)) = Ok s /\
     Py.and_then (Py.score_of s 10) (Py.weight_of 11 11) = Ok w /\
     Py.weight (fst r) <> w) /\
  (let r := Py.add_request_results Py.one_huge_delay (Py.CdnItem_init "H") in
   snd r = Ok tt /\
   Py.success_count (fst r) = 11 /\ Py.request_count (fst r) = 11 /\
   Py.delay_data (fst r) = repeat (Py.decimal 1 0) 10 /\
   Py.and_then (Py.score_of (Py.decimal 10 0) 10) (Py.weight_of 11 11)
   = Ok (Py.decimal 10999 0) /\
   Py.gt (Py.weight (fst r)) (Py.Int 10999) = true).
Proof.
  split.
  - cbv zeta. split; [vm_compute; reflexivity|].
    split; [vm_compute; reflexivity|]. split; [vm_compute; reflexivity|].
    split; [vm_compute; reflexivity|].
    eexists. eexists. split; [vm_compute; reflexivity|].
    split; [vm_compute; reflexivity|].
    vm_compute. discriminate.
  - cbv zeta. repeat split; vm_compute; reflexivity.
Qed.

(** C5 (as the code has it).  Along every sequence of calls, with delays
    that are floats or ints below 2^400, on an item that starts from the
    invariant, every call returns and the window holds at most 10 samples.
    A successful call on a full window drops the oldest sample, subtracts
    it from [delay_count], adds the new delay to [delay_count] and appends
    it; on a window with room it only adds and appends; a failed call
    leaves both alone.  The subtraction and the addition are those of
    Python.  On ints they are exact: as long as [delay_count] is an int,
    the window holds ints and [delay_count] is their sum, and it is an int
    after every history of int delays, of any size.  On floats each
    rounds to a double, so [delay_count] is a running sum, not the sum of
    the window. *)
Theorem delay_window_fifo
    (it0 : Py.CdnItem) (outs : list (Py.num * bool))
    (d : Py.num) (b : bool) (h : string) (zs : list (Z * bool)) :
  Py.CdnItem_ok it0 ->
  Forall (fun o => Py.small (fst o)) outs -> Py.small d ->
  (exists it it',
     Py.add_request_results outs it0 = (it, Ok tt) /\
     Py.add_request_result d b it = (it', Ok tt) /\
     (length (Py.delay_data it') <= 10)%nat /\
     match b, (10 <=? length (Py.delay_data it))%nat with
     | true, true =>
         exists x rest c,
           Py.delay_data it = x :: rest /\
           Py.delay_data it' = rest ++ [d] /\
           Py.sub (Py.delay_count it) x = Ok c /\
           Py.add c d = Ok (Py.delay_count it')
     | true, false =>
         Py.delay_data it' = Py.delay_data it ++ [d] /\
         Py.add (Py.delay_count it) d = Ok (Py.delay_count it')
     | false, _ =>
         Py.delay_data it' = Py.delay_data it /\
         Py.delay_count it' = Py.delay_count it
     end /\
     match Py.delay_count it' with
     | Py.Int c =>
         exists l, Py.delay_data it' = map Py.Int l /\ c = Py.sumZ l
     | Py.Float _ => True
     end) /\
  (let it := fst (Py.add_request_results (Py.int_calls zs)
                    (Py.CdnItem_init h)) in
   exists l,
     Py.delay_data it = map Py.Int l /\ (length l <= 10)%nat /\
     Py.delay_count it = Py.Int (Py.sumZ l)).
Proof.
  intros Hok0 Houts Hd. split.
  - destruct (add_request_results_small outs it0 Hok0 Houts) as (it & Erun & Hok).
    destruct (add_request_result_small it d b Hok Hd)
      as (it' & Estep & Hok' & _ & _ & _ & _ & Hdelay & _).
    exists it, it'. split; [exact Erun|]. split; [exact Estep|].
    split; [apply Hok'|]. split; [|apply Hok'].
    destruct b.
    + destruct Hdelay as (Hwin & Hc & _).
      unfold Py.window_after, Py.delay_count_after, Py.MAX_DELAY_DATA in *.
      destruct (10 <=? length (Py.delay_data it))%nat eqn:Hfull.
      * destruct (Py.delay_data it) as [|x rest]; [discriminate|].
        cbn [tail hd] in *.
        destruct (Py.sub (Py.delay_count it) x) as [c|e] eqn:Ec;
          cbn [Py.and_then] in Hc; [|discriminate].
        exists x, rest, c. repeat split; assumption.
      * cbn [Py.and_then] in Hc. split; assumption.
    + destruct Hdelay as (Hwin & Hc & _).
      destruct (10 <=? length (Py.delay_data it))%nat; split; assumption.
  - cbv zeta.
    destruct (add_request_results_int_sum zs (Py.CdnItem_init h) [])
      as (l & Hwin & Hc & Hl); [reflexivity | reflexivity | cbn; lia|].
    exists l. repeat split; assumption.
Qed.

Lemma delay_window_fifo_witness :
  Py.CdnItem_ok (Py.CdnItem_init "H") /\
  Forall (fun o => Py.small (fst o)) (repeat (Py.Int 100, true) 10) /\
  Py.small (Py.Int 900) /\
  exists it it',
    Py.add_request_results (repeat (Py.Int 100, true) 10) (Py.CdnItem_init "H")
    = (it, Ok tt) /\
    Py.add_request_result (Py.Int 900) true it = (it', Ok tt) /\
    (length (Py.delay_data it') <= 10)%nat.
Proof.
  assert (Py.CdnItem_ok (Py.CdnItem_init "H")) as Hok.
  { repeat split; cbn; try lia; try constructor. exists []. split; reflexivity. }
  assert (Forall (fun o => Py.small (fst o)) (repeat (Py.Int 100, true) 10))
    as Houts by (repeat constructor).
  assert (Py.small (Py.Int 900)) as Hd by reflexivity.
  split; [exact Hok|]. split; [exact Houts|]. split; [exact Hd|].
  destruct (delay_window_fifo (Py.CdnItem_init "H")
              (repeat (Py.Int 100, true) 10) (Py.Int 900) true "H" []
              Hok Houts Hd)
    as [(it & it' & Erun & Estep & Hlen & _) _].
  exists it, it'. repeat split; assumption.
Defined.

(** C5, read as it stands, fails on float delays.  After the eleven
    successful calls of [eleven_calls], [delay_count] is 5046.300000000001
    and the sum of the ten samples in the window is 5046.3.  After
    [one_huge_delay] the window holds ten samples of 1.0, whose sum is 10.0,
    and [delay_count] is 1.0. *)
Lemma delay_count_is_not_the_window_sum :
  (let r := Py.add_request_results Py.eleven_calls (Py.CdnItem_init "H") in
   snd r = Ok tt /\ length (Py.delay_data (fst r)) = 10%nat /\
   exists s, Py.sum (Py.delay_data (fst r)) = Ok s /\
             Py.delay_count (fst r) <> s) /\
  (let r := Py.add_request_results Py.one_huge_delay (Py.CdnItem_init "H") in
   snd r = Ok tt /\
   Py.delay_data (fst r) = repeat (Py.decimal 1 0) 10 /\
   Py.sum (Py.delay_data (fst r)) = Ok (Py.decimal 10 0) /\
   Py.delay_count (fst r) = Py.decimal 1 0).
Proof.
  split.
  - cbv zeta. split; [vm_compute; reflexivity|].
    split; [vm_compute; reflexivity|].
    eexists. split; [vm_compute; reflexivity|].
    vm_compute. discriminate.
  - cbv zeta. repeat split; vm_compute; reflexivity.
Qed.

(** ** Claims about the registry *)

Lemma Qcleb_le (x y : Qc) : Qcleb x y = true <-> (x <= y)%Qc.
Proof.
  unfold Qcleb. rewrite Qcle_alt.
  destruct (x ?= y)%Qc; split; intros H; congruence.
Qed.

Lemma Qcltb_lt (x y : Qc) : Qcltb x y = true <-> (x < y)%Qc.
Proof.
  unfold Qcltb. rewrite Qclt_alt.
  destruct (x ?= y)%Qc; split; intros H; congruence.
Qed.

Lemma descendingb_spec (l : list Qc) : descendingb l = true <-> descending l.
Proof.
  unfold descending. induction l as [|x l IH]; cbn.
  - split; [constructor | reflexivity].
  - rewrite andb_true_iff, forallb_forall, IH. split.
    + intros [Hall Hrest]. constructor; [exact Hrest|].
      apply List.Forall_forall. intros y Hy. apply Qcleb_le, Hall, Hy.
    + intros Hs. apply StronglySorted_inv in Hs as [Hrest Hall].
      split; [|exact Hrest].
      intros y Hy. apply Qcleb_le.
      rewrite List.Forall_forall in Hall. apply Hall, Hy.
Qed.

Lemma report_cdn_result_KeyError (s : Cdn) (h : string) (d : Qc) (b : bool) :
  cdn_map s !! h = None -> report_cdn_result h d b s = (s, Raise KeyError).
Proof.
  intros Hnone. unfold report_cdn_result, map_get, mbind, M_bind, bind.
  now rewrite Hnone.
Qed.

(** C2 (evaluated at a host that is not tracked).  On the pool loaded from
    the hosts A and B, reporting a result for host Z leaves the registry as
    it was, and the call ends with [KeyError]: the lookup
    [self.cdn_map[host]] raises before the not-found branch is reached. *)
Theorem report_untracked_host_raises :
  cdn_map pool_AB !! "Z" = None /\
  report_cdn_result "Z" (Qc_of_Z 100) true pool_AB = (pool_AB, Raise KeyError).
Proof.
  assert (cdn_map pool_AB !! "Z" = None) as Hnone by (vm_compute; reflexivity).
  split; [exact Hnone | now apply report_cdn_result_KeyError].
Qed.

(** C1 (evaluated on a pool of two hosts).  After loading A and B the list
    is ranked and every position is right.  One successful report for B
    moves B to the front but leaves its [list_index] at 1, where A now
    sits.  After a successful report for A and then a failed one, the list
    is [A; B] with weights 5900 and 10800: it is no longer descending. *)
Theorem report_cdn_result_breaks_invariants :
  (ranked pool_AB /\ forall r, r ∈ cdn_list pool_AB -> position_ok pool_AB r) /\
  snd (report_cdn_result "B" (Qc_of_Z 200) true pool_AB) = Ok tt /\
  (hosts pool_AB_1 = ["B"; "A"] /\
   exists r, cdn_map pool_AB_1 !! "B" = Some r /\ ~ position_ok pool_AB_1 r) /\
  snd (report_cdn_result "A" (Qc_of_Z 100) true pool_AB_1) = Ok tt /\
  snd (report_cdn_result "A" (Qc_of_Z 100) false pool_AB_2) = Ok tt /\
  hosts pool_AB_3 = ["A"; "B"] /\
  weights pool_AB_3 = [Qc_of_Z 5900; Qc_of_Z 10800] /\
  ~ ranked pool_AB_3.
Proof.
  split.
  { split.
    - apply descendingb_spec. vm_compute. reflexivity.
    - intros r Hr.
      assert (cdn_list pool_AB = [0; 1]%nat) as El by (vm_compute; reflexivity).
      rewrite El in Hr. unfold position_ok. rewrite El.
      apply elem_of_cons in Hr as [->|Hr]; [exists 0%nat; split; reflexivity|].
      apply elem_of_cons in Hr as [->|Hr]; [exists 1%nat; split; reflexivity|].
      inversion Hr. }
  split; [vm_compute; reflexivity|].
  split.
  { split; [vm_compute; reflexivity|].
    exists 1%nat. split; [vm_compute; reflexivity|].
    intros (p & Hp & Hl).
    assert (list_index (heap pool_AB_1 1%nat) = Some 1%nat) as E
      by (vm_compute; reflexivity).
    rewrite E in Hp. injection Hp as <-.
    assert (cdn_list pool_AB_1 !! 1%nat = Some 0%nat) as E'
      by (vm_compute; reflexivity).
    rewrite E' in Hl. discriminate. }
  split; [vm_compute; reflexivity|].
  split; [vm_compute; reflexivity|].
  split; [vm_compute; reflexivity|].
  assert (weights pool_AB_3 = [Qc_of_Z 5900; Qc_of_Z 10800]) as Ew.
  { unfold weights.
    assert (cdn_list pool_AB_3 = [0; 1]%nat) as -> by (vm_compute; reflexivity).
    cbn [map]. f_equal; [|f_equal]; apply Qc_is_canon; vm_compute; reflexivity. }
  split; [exact Ew|].
  unfold ranked. rewrite Ew, <- descendingb_spec. vm_compute. discriminate.
Qed.

Lemma random_choice_nonempty {A} (entropy : nat) (l : list A) :
  l <> [] ->
  exists i x, (i < length l)%nat /\ l !! i = Some x /\
              random_choice entropy l = Ok x.
Proof.
  intros Hne. destruct l as [|a l']; [contradiction|].
  set (l := a :: l') in *.
  assert (entropy mod length l < length l)%nat as Hi
    by (apply Nat.mod_upper_bound; discriminate).
  destruct (lookup_lt_is_Some_2 l _ Hi) as [x Hx].
  exists (entropy mod length l)%nat, x.
  split; [exact Hi|]. split; [exact Hx|].
  unfold random_choice. subst l. cbv zeta. now rewrite Hx.
Qed.

(** C6. On a non-empty pool [get_cdn] returns the host of an item that sits
    at one of the first min(100, pool size) positions of [cdn_list]; on an
    empty pool it returns no host and ends with [IndexError].  The registry
    is left as it was in both cases. *)
Theorem get_cdn_top_slice (s : Cdn) (entropy : nat) :
  match cdn_list s with
  | [] => get_cdn entropy s = (s, Raise IndexError)
  | _ :: _ =>
      exists i r,
        (i < Nat.min 100 (length (cdn_list s)))%nat /\
        cdn_list s !! i = Some r /\
        get_cdn entropy s = (s, Ok (host (heap s r)))
  end.
Proof.
  unfold get_cdn, mbind, M_bind, bind, get, lift_result, mret, M_ret, ret.
  destruct (cdn_list s) as [|r0 l'] eqn:El; [reflexivity|].
  destruct (random_choice_nonempty entropy (take 100 (r0 :: l')))
    as (i & r & Hi & Hr & Hc); [discriminate|].
  rewrite length_take in Hi.
  exists i, r. split; [exact Hi|]. split.
  - rewrite <- Hr. symmetry. apply lookup_take_lt. lia.
  - now rewrite Hc.
Qed.

(** C8. A snapshot whose version is missing or at most 1 is discarded:
    [restore_items] returns [False] and the registry (every counter and
    weight, the order of [cdn_list], and all the rest) is what it was. *)
Theorem restore_items_outdated
    (str_to_time : string -> string) (d : Snapshot) (s : Cdn) :
  (snap_version d = None \/ exists v, snap_version d = Some v /\ v <= 1) ->
  restore_items str_to_time (Json d) s = (s, Ok false).
Proof.
  intros Hv. unfold restore_items.
  destruct (dict_truthy d); [|reflexivity].
  destruct Hv as [-> | (v & -> & Hle)]; cbn [default from_option id].
  - reflexivity.
  - apply Z.leb_le in Hle. now rewrite Hle.
Qed.

(** ** Restoring a snapshot *)

Ltac proj_Cdn :=
  cbn [fst snd heap next_ref items cdn_list cdn_map last_check_at
       set_heap set_cdn_list set_last_check_at].

Ltac run_Cdn :=
  unfold mbind, M_bind, mret, M_ret, bind, ret, raise, modify, get,
    lift_result, on_item, map_get, list_get;
  proj_Cdn.

Lemma restore_item_untracked (x : SnapshotItem) (s : Cdn) :
  cdn_map s !! snap_host x = None ->
  restore_item x s = (s, Raise KeyError).
Proof. intros Hnone. unfold restore_item. run_Cdn. now rewrite Hnone. Qed.

Lemma restore_item_tracked (x : SnapshotItem) (s : Cdn) (r : ref) :
  cdn_map s !! snap_host x = Some r ->
  exists s',
    restore_item x s = (s', Ok tt) /\
    cdn_list s' = cdn_list s /\ cdn_map s' = cdn_map s /\
    next_ref s' = next_ref s /\
    stats (heap s' r) = snap_stats x /\
    (forall r', same_delay_fields (heap s r') (heap s' r') /\
                list_index (heap s' r') = list_index (heap s r')) /\
    (forall r', r' <> r -> heap s' r' = heap s r').
Proof.
  intros Hmap. unfold restore_item. run_Cdn. rewrite Hmap. run_Cdn.
  eexists. split; [reflexivity|]. proj_Cdn.
  split; [reflexivity|]. split; [reflexivity|]. split; [reflexivity|].
  split; [|split].
  - now rewrite !fn_lookup_insert.
  - intros r'. destruct (decide (r' = r)) as [->|Hne].
    + rewrite !fn_lookup_insert. repeat split.
    + rewrite !fn_lookup_insert_ne by congruence. repeat split.
  - intros r' Hne. now rewrite !fn_lookup_insert_ne by congruence.
Qed.

(** The loop of [restore_items] when every record names a tracked host. *)
Lemma restore_loop_tracked (recs : list SnapshotItem) (s : Cdn) :
  Forall (fun x => is_Some (cdn_map s !! snap_host x)) recs ->
  exists s',
    for_each recs restore_item s = (s', Ok tt) /\
    cdn_list s' = cdn_list s /\ cdn_map s' = cdn_map s /\
    next_ref s' = next_ref s /\
    (forall r, same_delay_fields (heap s r) (heap s' r) /\
               list_index (heap s' r) = list_index (heap s r)) /\
    (forall r, Forall (fun x => ~ targets (cdn_map s) r x) recs ->
               heap s' r = heap s r) /\
    (forall pre x post r,
        recs = pre ++ x :: post -> targets (cdn_map s) r x ->
        Forall (fun y => ~ targets (cdn_map s) r y) post ->
        stats (heap s' r) = snap_stats x).
Proof.
  revert s. induction recs as [|x0 rest IH]; intros s Hall.
  - exists s. split; [reflexivity|].
    split; [reflexivity|]. split; [reflexivity|]. split; [reflexivity|].
    split; [intros r; repeat split|].
    split; [reflexivity|].
    intros pre x post r E. destruct pre; discriminate E.
  - apply List.Forall_cons_iff in Hall as [[r0 Hr0] Hrest].
    destruct (restore_item_tracked x0 s r0 Hr0)
      as (s1 & E1 & Hl1 & Hm1 & Hn1 & Hst1 & Hfr1 & Hoth1).
    rewrite <- Hm1 in Hrest.
    destruct (IH s1 Hrest) as (s' & E' & Hl' & Hm' & Hn' & Hfr' & Hun' & Hlast').
    exists s'. split.
    { cbn [for_each]. unfold mbind, M_bind, bind. now rewrite E1. }
    split; [congruence|]. split; [congruence|]. split; [congruence|].
    split; [|split].
    + intros r. destruct (Hfr1 r) as [(A1 & A2 & A3 & A4) A5].
      destruct (Hfr' r) as [(B1 & B2 & B3 & B4) B5].
      repeat split; congruence.
    + intros r Hno. apply List.Forall_cons_iff in Hno as [Hx0 Hno].
      rewrite Hm1 in Hun'. rewrite (Hun' r Hno).
      apply Hoth1. intros ->. now apply Hx0.
    + intros pre x post r Erecs Hx Hpost.
      rewrite Hm1 in Hun', Hlast'.
      destruct pre as [|y pre'].
      * cbn in Erecs. injection Erecs as <- <-.
        rewrite (Hun' r Hpost).
        unfold targets in Hx. rewrite Hr0 in Hx. injection Hx as <-.
        exact Hst1.
      * cbn in Erecs. injection Erecs as <- ->.
        now apply (Hlast' pre' x post r).
Qed.


(** The loop applies the records up to the first whose host is not tracked,
    and ends there. *)
Lemma restore_loop_stops
    (pre : list SnapshotItem) (x : SnapshotItem) (post : list SnapshotItem)
    (s s1 : Cdn) :
  for_each pre restore_item s = (s1, Ok tt) ->
  cdn_map s1 !! snap_host x = None ->
  for_each (pre ++ x :: post) restore_item s = (s1, Raise KeyError).
Proof.
  revert s. induction pre as [|y pre IH]; intros s Epre Hx.
  - cbn in Epre. injection Epre as ->.
    cbn [app for_each]. unfold mbind, M_bind, bind.
    now rewrite (restore_item_untracked x s1 Hx).
  - cbn [app for_each] in *. unfold mbind, M_bind, bind in *.
    destruct (restore_item y s) as [s0 [[]|e]]; [|discriminate Epre].
    now apply IH.
Qed.

Lemma first_satisfying {A} (P : A -> Prop) `{forall x, Decision (P x)}
    (l : list A) :
  Exists P l ->
  exists pre x post,
    l = pre ++ x :: post /\ Forall (fun y => ~ P y) pre /\ P x.
Proof.
  induction l as [|y l IH]; intros Hex; [inversion Hex|].
  destruct (decide (P y)) as [Hy | Hny].
  - exists [], y, l. repeat split; [constructor | exact Hy].
  - apply List.Exists_cons in Hex as [Hy | Hl]; [contradiction|].
    destruct (IH Hl) as (pre & x & post & -> & Hpre & Hx).
    exists (y :: pre), x, post. repeat split; [|exact Hx].
    now constructor.
Qed.

(** ** The full re-sort *)

Section Sorting.
Variable h : ref -> CdnItem.

Lemma insert_desc_perm (x : ref) (l : list ref) :
  Permutation (insert_desc h x l) (x :: l).
Proof.
  induction l as [|y ys IH]; cbn [insert_desc]; [reflexivity|].
  destruct (Qcltb (weight (h x)) (weight (h y))); [|reflexivity].
  rewrite IH. apply perm_swap.
Qed.

Lemma sort_desc_perm (l : list ref) : Permutation (sort_desc h l) l.
Proof.
  induction l as [|x l IH]; [reflexivity|].
  unfold sort_desc in *. cbn [foldr].
  rewrite insert_desc_perm. now apply perm_skip.
Qed.

Lemma insert_desc_sorted (x : ref) (l : list ref) :
  StronglySorted (heavier h) l -> StronglySorted (heavier h) (insert_desc h x l).
Proof.
  induction l as [|y ys IH]; intros Hs; cbn [insert_desc].
  - repeat constructor.
  - apply StronglySorted_inv in Hs as [Hys Hy].
    destruct (Qcltb (weight (h x)) (weight (h y))) eqn:Hlt.
    + constructor; [now apply IH|].
      apply Qcltb_lt in Hlt.
      rewrite List.Forall_forall in *. intros z Hz.
      apply (Permutation_in _ (insert_desc_perm x ys)) in Hz.
      destruct Hz as [<- | Hz]; [now apply Qclt_le_weak | now apply Hy].
    + assert (weight (h y) <= weight (h x))%Qc as Hle.
      { apply Qcnot_lt_le. intros Hc. apply Qcltb_lt in Hc. congruence. }
      constructor; [now constructor|].
      constructor; [exact Hle|].
      rewrite List.Forall_forall in *. intros z Hz.
      unfold heavier. eapply Qcle_trans; [apply (Hy z Hz) | exact Hle].
Qed.

Lemma sort_desc_sorted (l : list ref) : StronglySorted (heavier h) (sort_desc h l).
Proof.
  induction l as [|x l IH]; [constructor|].
  unfold sort_desc in *. cbn [foldr]. now apply insert_desc_sorted.
Qed.
End Sorting.

Lemma descending_map (h : ref -> CdnItem) (l : list ref) :
  StronglySorted (heavier h) l -> descending (map (fun r => weight (h r)) l).
Proof.
  unfold descending. induction 1 as [|a l Hs IH Ha]; cbn [map]; constructor.
  - exact IH.
  - rewrite List.Forall_forall in *. intros w Hw.
    apply in_map_iff in Hw as (r & <- & Hr). now apply Ha.
Qed.

Lemma assign_index_loop (k a : nat) (s : Cdn) :
  (a + k <= length (cdn_list s))%nat ->
  exists s',
    for_each (seq a k) assign_index s = (s', Ok tt) /\
    cdn_list s' = cdn_list s /\ cdn_map s' = cdn_map s /\
    next_ref s' = next_ref s /\
    (forall r, stats (heap s' r) = stats (heap s r) /\
               same_delay_fields (heap s r) (heap s' r)) /\
    (forall r, (forall i, (a <= i < a + k)%nat -> cdn_list s !! i <> Some r) ->
               list_index (heap s' r) = list_index (heap s r)) /\
    (forall i r, (a <= i < a + k)%nat -> cdn_list s !! i = Some r ->
                 (forall j, (i < j < a + k)%nat -> cdn_list s !! j <> Some r) ->
                 list_index (heap s' r) = Some i).
Proof.
  revert a s. induction k as [|k IH]; intros a s Hlen.
  - exists s. split; [reflexivity|].
    split; [reflexivity|]. split; [reflexivity|]. split; [reflexivity|].
    split; [intros r; repeat split|].
    split; [reflexivity|].
    intros i r Hi. lia.
  - destruct (lookup_lt_is_Some_2 (cdn_list s) a) as [x Hx]; [lia|].
    set (s1 := set_heap (<[x := set_list_index (Some a) (heap s x)]> (heap s)) s).
    assert (assign_index a s = (s1, Ok tt)) as E1.
    { unfold assign_index. run_Cdn. now rewrite Hx. }
    destruct (IH (S a) s1) as (s' & E' & Hl' & Hm' & Hn' & Hfr' & Hun' & Hlast').
    { cbn. lia. }
    exists s'. split.
    { cbn [seq for_each]. unfold mbind, M_bind, bind. now rewrite E1. }
    split; [exact Hl'|]. split; [exact Hm'|]. split; [exact Hn'|].
    subst s1. proj_Cdn. cbn [heap cdn_list set_heap] in *.
    split; [|split].
    + intros r. destruct (Hfr' r) as [A (B1 & B2 & B3 & B4)].
      destruct (decide (r = x)) as [->|Hne].
      * rewrite fn_lookup_insert in *. split; [exact A|]. repeat split; assumption.
      * rewrite fn_lookup_insert_ne in * by congruence.
        split; [exact A|]. repeat split; assumption.
    + intros r Hno. rewrite Hun'.
      * rewrite fn_lookup_insert_ne; [reflexivity|].
        intros ->. apply (Hno a); [lia | exact Hx].
      * intros i Hi. apply Hno. lia.
    + intros i r Hi Hr Hafter.
      destruct (decide (i = a)) as [->|Hne].
      * rewrite Hx in Hr. injection Hr as ->.
        rewrite Hun'; [now rewrite fn_lookup_insert|].
        intros j Hj. apply Hafter. lia.
      * apply Hlast'; [lia | exact Hr |].
        intros j Hj. apply Hafter. lia.
Qed.

Lemma resort_cdn_list_spec (s : Cdn) :
  exists s',
    resort_cdn_list s = (s', Ok tt) /\
    cdn_list s' = sort_desc (heap s) (cdn_list s) /\
    cdn_map s' = cdn_map s /\ next_ref s' = next_ref s /\
    (forall r, stats (heap s' r) = stats (heap s r) /\
               same_delay_fields (heap s r) (heap s' r)) /\
    (forall r, r ∉ cdn_list s -> list_index (heap s' r) = list_index (heap s r)) /\
    (forall i r, cdn_list s' !! i = Some r ->
                 (forall j, (i < j)%nat -> cdn_list s' !! j <> Some r) ->
                 list_index (heap s' r) = Some i).
Proof.
  set (s1 := set_cdn_list (sort_desc (heap s) (cdn_list s)) s).
  destruct (assign_index_loop (length (cdn_list s1)) 0 s1)
    as (s' & E' & Hl' & Hm' & Hn' & Hfr' & Hun' & Hlast'); [lia|].
  exists s'. split.
  { unfold resort_cdn_list. run_Cdn. fold s1. exact E'. }
  split; [exact Hl'|]. split; [exact Hm'|]. split; [exact Hn'|].
  split; [exact Hfr'|]. split.
  - intros r Hr. rewrite Hun'; [reflexivity|].
    intros i _ Hi. apply Hr.
    apply list_elem_of_lookup_2 in Hi. subst s1. cbn [cdn_list set_cdn_list] in Hi.
    apply list_elem_of_In. apply list_elem_of_In in Hi.
    eapply Permutation_in; [apply sort_desc_perm | exact Hi].
  - intros i r Hi Hafter. rewrite Hl' in Hi.
    apply Hlast'; [|exact Hi|].
    + apply lookup_lt_Some in Hi. lia.
    + intros j Hj. rewrite <- Hl'. apply Hafter. lia.
Qed.

(** ** [restore_items] on a snapshot of a current version *)

Lemma restore_items_current
    (str_to_time : string -> string) (d : Snapshot) (v : Z) (s : Cdn) :
  snap_version d = Some v -> 1 < v ->
  exists lc,
    restore_items str_to_time (Json d) s =
    restore_body (default [] (snap_cdn_list d)) (set_last_check_at lc s).
Proof.
  intros Hv Hlt. unfold restore_items, dict_truthy. rewrite Hv.
  cbn [default from_option id].
  assert ((v <=? 1) = false) as -> by now apply Z.leb_gt.
  destruct (snap_last_check_at d) as [[|c t]|]; cbn [default from_option id];
    eexists; run_Cdn; reflexivity.
Qed.

Lemma restore_body_tracked (recs : list SnapshotItem) (s : Cdn) :
  Forall (fun x => is_Some (cdn_map s !! snap_host x)) recs ->
  exists s1 s',
    for_each recs restore_item s = (s1, Ok tt) /\
    resort_cdn_list s1 = (s', Ok tt) /\
    restore_body recs s = (s', Ok true) /\
    cdn_list s1 = cdn_list s /\
    cdn_list s' = sort_desc (heap s1) (cdn_list s) /\
    cdn_map s' = cdn_map s /\ next_ref s' = next_ref s /\
    (forall r, same_delay_fields (heap s r) (heap s' r)) /\
    (forall r, stats (heap s' r) = stats (heap s1 r)) /\
    (forall r, Forall (fun x => ~ targets (cdn_map s) r x) recs ->
               stats (heap s' r) = stats (heap s r)) /\
    (forall pre x post r,
        recs = pre ++ x :: post -> targets (cdn_map s) r x ->
        Forall (fun y => ~ targets (cdn_map s) r y) post ->
        stats (heap s' r) = snap_stats x) /\
    (forall i r, cdn_list s' !! i = Some r ->
                 (forall j, (i < j)%nat -> cdn_list s' !! j <> Some r) ->
                 list_index (heap s' r) = Some i).
Proof.
  intros Hall.
  destruct (restore_loop_tracked recs s Hall)
    as (s1 & E1 & Hl1 & Hm1 & Hn1 & Hfr1 & Hun1 & Hlast1).
  destruct (resort_cdn_list_spec s1)
    as (s' & E' & Hl' & Hm' & Hn' & Hfr' & _ & Hpos').
  exists s1, s'. split; [exact E1|]. split; [exact E'|]. split.
  { unfold restore_body, mbind, M_bind, bind. rewrite E1, E'. reflexivity. }
  split; [exact Hl1|]. split; [now rewrite Hl', Hl1|].
  split; [congruence|]. split; [congruence|].
  split; [|split; [|split; [|split]]].
  - intros r. destruct (Hfr1 r) as [(A1 & A2 & A3 & A4) _].
    destruct (Hfr' r) as [_ (B1 & B2 & B3 & B4)].
    repeat split; congruence.
  - intros r. apply Hfr'.
  - intros r Hno. destruct (Hfr' r) as [-> _]. now rewrite (Hun1 r Hno).
  - intros pre x post r Erecs Hx Hpost. destruct (Hfr' r) as [-> _].
    now apply (Hlast1 pre x post r).
  - exact Hpos'.
Qed.


(** C9 (as the code has it).  For a snapshot object of version above 1
    whose records are of the shape [save_available_items] writes (a host,
    two integer counters and a numeric weight):
    if every record names a tracked host, [restore_items] returns [True],
    creates no object and no map entry, keeps the list a permutation of what
    it was, leaves the counters and weight of every item that no record
    names as they were, and gives an item named by records the counters and
    weight of the last such record; if some record names a host that is not
    tracked, the call ends with [KeyError] at the first such record: the
    records before it have been applied in the same way (an item they name
    has the counters and weight of the last of them that names it), every
    other item is what it was, no object or map entry is created, and the
    list and every stored position are as they were (no re-sort). *)
Theorem restore_items_merge
    (str_to_time : string -> string) (d : Snapshot) (v : Z) (s : Cdn) :
  snap_version d = Some v -> 1 < v ->
  let recs := default [] (snap_cdn_list d) in
  (Forall (fun x => is_Some (cdn_map s !! snap_host x)) recs ->
   exists s',
     restore_items str_to_time (Json d) s = (s', Ok true) /\
     cdn_map s' = cdn_map s /\ next_ref s' = next_ref s /\
     Permutation (cdn_list s') (cdn_list s) /\
     (forall r, same_delay_fields (heap s r) (heap s' r)) /\
     (forall r, Forall (fun x => cdn_map s !! snap_host x <> Some r) recs ->
                stats (heap s' r) = stats (heap s r)) /\
     (forall pre x post r,
         recs = pre ++ x :: post ->
         cdn_map s !! snap_host x = Some r ->
         Forall (fun y => cdn_map s !! snap_host y <> Some r) post ->
         stats (heap s' r) = snap_stats x)) /\
  (Exists (fun x => cdn_map s !! snap_host x = None) recs ->
   exists pre x post s',
     recs = pre ++ x :: post /\
     Forall (fun y => is_Some (cdn_map s !! snap_host y)) pre /\
     cdn_map s !! snap_host x = None /\
     restore_items str_to_time (Json d) s = (s', Raise KeyError) /\
     cdn_map s' = cdn_map s /\ next_ref s' = next_ref s /\
     cdn_list s' = cdn_list s /\
     (forall r, same_delay_fields (heap s r) (heap s' r) /\
                list_index (heap s' r) = list_index (heap s r)) /\
     (forall r, Forall (fun y => cdn_map s !! snap_host y <> Some r) pre ->
                heap s' r = heap s r) /\
     (forall pre1 y post1 r,
         pre = pre1 ++ y :: post1 ->
         cdn_map s !! snap_host y = Some r ->
         Forall (fun z => cdn_map s !! snap_host z <> Some r) post1 ->
         stats (heap s' r) = snap_stats y)).
Proof.
  intros Hv Hlt recs.
  destruct (restore_items_current str_to_time d v s Hv Hlt) as (lc & ->).
  fold recs. split.
  - intros Hall.
    destruct (restore_body_tracked recs (set_last_check_at lc s) Hall)
      as (s1 & s' & _ & _ & E & _ & Hl & Hm & Hn & Hfr & _ & Hun & Hlast & _).
    exists s'. split; [exact E|].
    split; [exact Hm|]. split; [exact Hn|].
    split; [rewrite Hl; apply sort_desc_perm|].
    split; [exact Hfr|]. split; [exact Hun | exact Hlast].
  - intros Hex.
    destruct (first_satisfying _ recs Hex) as (pre & x & post & Erecs & Hpre & Hx).
    assert (Forall (fun y => is_Some (cdn_map s !! snap_host y)) pre) as Htr.
    { eapply Forall_impl; [exact Hpre|]. cbn. intros y Hy.
      destruct (cdn_map s !! snap_host y); [eexists; reflexivity | now contradict Hy]. }
    destruct (restore_loop_tracked pre (set_last_check_at lc s) Htr)
      as (s' & E & Hl & Hm & Hn & Hfr & Hun & Hlast).
    exists pre, x, post, s'.
    split; [exact Erecs|]. split; [exact Htr|]. split; [exact Hx|].
    split.
    { unfold restore_body, mbind, M_bind, bind. rewrite Erecs.
      rewrite (restore_loop_stops pre x post _ s' E); [reflexivity|].
      rewrite Hm. exact Hx. }
    split; [exact Hm|]. split; [exact Hn|]. split; [exact Hl|].
    split; [exact Hfr|]. split; [exact Hun | exact Hlast].
Qed.

(** ** Registries reached by a history of calls *)

(** Whichever way a division goes, the goal is closed by computation. *)
Ltac split_truediv :=
  repeat (match goal with
          | |- context [truediv ?a ?b] => destruct (truediv a b)
          end; run_M; try reflexivity).

(** No call changes the host of an item, whether it returns or raises. *)
Lemma add_request_result_host (d : Qc) (b : bool) (it : CdnItem) :
  host (fst (add_request_result d b it)) = host it.
Proof.
  unfold add_request_result, record_success, pop0. destruct b; run_M.
  - destruct (MAX_DELAY_DATA <=? length (delay_data it))%nat; run_M.
    + destruct (delay_data it); run_M; [reflexivity|]. split_truediv.
    + split_truediv.
  - split_truediv.
Qed.

Section Stable.
Variable Q : nat -> Prop.

Lemma stable_ret {A} (a : A) : stable Q (mret a).
Proof. intros s. cbn. auto. Qed.

Lemma stable_raise {A} (e : exn) : stable Q (@raise Cdn A e).
Proof. intros s. cbn. auto. Qed.

Lemma stable_bind {A B} (m : M Cdn A) (k : A -> M Cdn B) :
  stable Q m -> (forall a, stable Q (k a)) -> stable Q (m ≫= k).
Proof.
  intros Hm Hk s. unfold mbind, M_bind, bind.
  destruct (Hm s) as (Hm1 & Hm2 & Hm3).
  destruct (m s) as [s1 [a|e]]; cbn [fst] in *.
  - destruct (Hk a s1) as (Hk1 & Hk2 & Hk3).
    split; [congruence|]. split; [intros r; now rewrite Hk2|].
    intros r Hr. destruct (Hk3 r Hr) as [Hr1|HQ]; [auto | now right].
  - auto.
Qed.

Lemma stable_get {B} (k : Cdn -> M Cdn B) :
  (forall s0, stable Q (k s0)) -> stable Q (get ≫= k).
Proof. intros Hk. apply stable_bind; [|exact Hk]. intros s. cbn. auto. Qed.

Lemma stable_list_get (i : nat) : stable Q (list_get i).
Proof. intros s. unfold list_get. destruct (cdn_list s !! i); cbn; auto. Qed.

Lemma stable_on_item {A} (r : nat) (m : M CdnItem A) :
  (forall it, host (fst (m it)) = host it) -> stable Q (on_item r m).
Proof.
  intros Hm s. unfold on_item. specialize (Hm (heap s r)).
  destruct (m (heap s r)) as [it res]. cbn in *.
  split; [reflexivity|]. split; [|auto].
  intros r'. destruct (decide (r' = r)) as [->|Hne].
  - now rewrite fn_lookup_insert.
  - now rewrite fn_lookup_insert_ne by congruence.
Qed.

Lemma stable_list_set (i : nat) (x : nat) : Q x -> stable Q (list_set i x).
Proof.
  intros Hx s. unfold list_set.
  destruct (i <? length (cdn_list s))%nat; cbn; [|auto].
  split; [reflexivity|]. split; [reflexivity|].
  intros r Hr. apply list_elem_of_lookup in Hr as [j Hj].
  destruct (decide (j = i)) as [->|Hne].
  - apply list_lookup_insert_Some in Hj as [(_ & <- & _) | (Hc & _)]; [now right | congruence].
  - rewrite list_lookup_insert_ne in Hj by congruence.
    left. now apply list_elem_of_lookup_2 in Hj.
Qed.

(** [self.cdn_list[j] = self.cdn_list[i]] *)
Lemma stable_copy {B} (i j : nat) (k : M Cdn B) :
  stable Q k -> stable Q (x ← list_get i; list_set j x ;; k).
Proof.
  intros Hk s. unfold mbind, M_bind, bind, list_get, list_set.
  destruct (cdn_list s !! i) as [x|] eqn:Hx; cbn [fst]; [|auto].
  destruct (j <? length (cdn_list s))%nat; cbn [cdn_list set_cdn_list fst]; [|auto].
  set (s1 := set_cdn_list (<[j:=x]> (cdn_list s)) s).
  destruct (Hk s1) as (Hk1 & Hk2 & Hk3).
  split; [exact Hk1|]. split; [exact Hk2|].
  intros r Hr. destruct (Hk3 r Hr) as [Hr1|HQ]; [|now right].
  left. subst s1. cbn in Hr1.
  apply list_elem_of_lookup in Hr1 as [n Hn].
  destruct (decide (n = j)) as [->|Hne].
  - apply list_lookup_insert_Some in Hn as [(_ & <- & _) | (Hc & _)]; [|congruence].
    now apply list_elem_of_lookup_2 in Hx.
  - rewrite list_lookup_insert_ne in Hn by congruence.
    now apply list_elem_of_lookup_2 in Hn.
Qed.

Lemma stable_for_each {A} (l : list A) (body : A -> M Cdn unit) :
  (forall a, stable Q (body a)) -> stable Q (for_each l body).
Proof.
  intros Hb. induction l as [|a l IH]; cbn [for_each].
  - apply stable_ret.
  - apply stable_bind; [apply Hb | intros _; exact IH].
Qed.

Lemma bubble_up_stable (cdn_item : nat) (w : Qc) (range : list nat) :
  Q cdn_item -> stable Q (bubble_up cdn_item w range).
Proof.
  intros HQ. induction range as [|i rest IH]; cbn [bubble_up].
  - apply stable_ret.
  - apply stable_bind; [apply stable_list_get|]. intros x.
    apply stable_get. intros s0.
    destruct (Qcltb (weight (heap s0 x)) w); [|apply stable_ret].
    apply stable_bind; [apply stable_list_get|]. intros y.
    apply stable_bind; [apply stable_on_item; reflexivity|]. intros _.
    apply stable_copy.
    apply stable_bind; [now apply stable_list_set | intros _; exact IH].
Qed.

Lemma bubble_down_stable (cdn_item : nat) (w : Qc) (range : list nat) :
  Q cdn_item -> stable Q (bubble_down cdn_item w range).
Proof.
  intros HQ. induction range as [|i rest IH]; cbn [bubble_down].
  - apply stable_ret.
  - apply stable_bind; [apply stable_list_get|]. intros x.
    apply stable_get. intros s0.
    destruct (Qcleb w (weight (heap s0 x))); [|apply stable_ret].
    apply stable_bind; [apply stable_list_get|]. intros y.
    apply stable_bind; [apply stable_on_item; reflexivity|]. intros _.
    apply stable_copy.
    apply stable_bind; [now apply stable_list_set | intros _; exact IH].
Qed.
End Stable.


Lemma report_cdn_result_frame (h : string) (d : Qc) (b : bool) (s : Cdn) :
  frame_of s (fst (report_cdn_result h d b s))
           (fun r => cdn_map s !! h = Some r).
Proof.
  unfold report_cdn_result. unfold mbind at 1. unfold M_bind, bind, map_get.
  destruct (cdn_map s !! h) as [cdn_item|] eqn:Hmap; cbn [fst].
  2: { repeat split; auto. }
  match goal with |- frame_of _ (fst (?m s)) _ =>
    assert (stable (fun r => Some cdn_item = Some r) m) as Hst end.
  { apply stable_bind.
    - apply stable_on_item. apply add_request_result_host.
    - intros _. apply stable_get. intros s0.
      destruct (list_index (heap s0 cdn_item)) as [p|]; [|apply stable_raise].
      apply stable_bind.
      + destruct (0 <? p)%nat; [|apply stable_ret].
        apply stable_bind; [apply stable_list_get | intros x; apply stable_ret].
      + intros [|]; [now apply bubble_up_stable|].
        apply stable_bind.
        * destruct (Z.of_nat p <? Z.of_nat (length (cdn_list s0)) - 1);
            [|apply stable_ret].
          apply stable_bind; [apply stable_list_get | intros x; apply stable_ret].
        * intros [|]; [now apply bubble_down_stable | apply stable_ret]. }
  exact (Hst s).
Qed.

Lemma restore_items_frame
    (str_to_time : string -> string) (f : SnapshotFile) (s : Cdn) :
  frame_of s (fst (restore_items str_to_time f s)) (fun _ => False).
Proof.
  assert (stable (fun _ => False) (restore_items str_to_time f)) as Hst.
  { unfold restore_items. destruct f as [| |truthy|d]; try apply stable_ret.
    { destruct truthy; [apply stable_raise | apply stable_ret]. }
    destruct (dict_truthy d); [|apply stable_ret].
    destruct (default 1 (snap_version d) <=? 1); [apply stable_ret|].
    apply stable_bind; [intros s0; cbn; auto|]. intros _.
    apply stable_get. intros s0.
    apply stable_bind.
    { destruct (last_check_at s0) as [[|c t]|]; try apply stable_ret.
      intros s1; cbn; auto. }
    intros _. apply stable_bind.
    { apply stable_for_each. intros x. unfold restore_item.
      apply stable_bind.
      - intros s1. unfold map_get. destruct (cdn_map s1 !! snap_host x); cbn; auto.
      - intros r. repeat (apply stable_bind; [|intros _]);
          apply stable_on_item; reflexivity. }
    intros _. apply stable_bind; [|intros _; apply stable_ret].
    unfold resort_cdn_list. apply stable_bind.
    - intros s1. cbn. split; [reflexivity|]. split; [reflexivity|].
      intros r Hr. left. apply list_elem_of_In. apply list_elem_of_In in Hr.
      eapply Permutation_in; [apply sort_desc_perm | exact Hr].
    - intros _. apply stable_get. intros s1. apply stable_for_each.
      intros i. unfold assign_index.
      apply stable_bind; [apply stable_list_get|].
      intros x. apply stable_on_item. reflexivity. }
  exact (Hst s).
Qed.

Lemma run_call_frame (str_to_time : string -> string) (c : call) (s : Cdn) :
  frame_of s (run_call str_to_time c s)
           (fun r => exists h, cdn_map s !! h = Some r).
Proof.
  destruct c as [h d b|k|now|f]; cbn [run_call].
  - destruct (report_cdn_result_frame h d b s) as (A & B & C).
    split; [exact A|]. split; [exact B|].
    intros r Hr. destruct (C r Hr) as [?|?]; [now left | right; eauto].
  - unfold get_cdn. run_Cdn.
    destruct (random_choice k (take 100 (cdn_list s))); cbn; repeat split; auto.
  - cbn. repeat split; auto.
  - destruct (restore_items_frame str_to_time f s) as (A & B & C).
    split; [exact A|]. split; [exact B|].
    intros r Hr. destruct (C r Hr) as [?|[]]. now left.
Qed.

Lemma run_call_indexed (str_to_time : string -> string) (c : call) (s : Cdn) :
  indexed s ->
  indexed (run_call str_to_time c s) /\
  cdn_map (run_call str_to_time c s) = cdn_map s.
Proof.
  intros [Hmap Hlist].
  destruct (run_call_frame str_to_time c s) as (A & B & C).
  split; [|exact A]. split.
  - intros h r Hr. rewrite A in Hr. rewrite B. now apply Hmap.
  - intros r Hr. rewrite A, B.
    destruct (C r Hr) as [Hold | [h Hh]]; [now apply Hlist|].
    now rewrite (Hmap h r Hh).
Qed.

Lemma run_calls_indexed
    (str_to_time : string -> string) (cs : list call) (s : Cdn) :
  indexed s ->
  indexed (run_calls str_to_time cs s) /\
  cdn_map (run_calls str_to_time cs s) = cdn_map s.
Proof.
  revert s. induction cs as [|c cs IH]; intros s Hs; [now split|].
  destruct (run_call_indexed str_to_time c s Hs) as [H1 E1].
  destruct (IH _ H1) as [H2 E2].
  unfold run_calls in *. cbn [fold_left].
  split; [exact H2 | now rewrite E2].
Qed.

(** [load_items] on distinct host lines. *)
Lemma load_items_indexed (lines : list string) (s : Cdn) :
  NoDup lines -> (forall h, h ∈ lines -> cdn_map s !! h = None) ->
  indexed s -> allocated s ->
  indexed (fst (load_items lines s)) /\ allocated (fst (load_items lines s)).
Proof.
  unfold load_items.
  revert s. induction lines as [|h lines IH]; intros s Hnd Hfresh Hidx Hal.
  - now split.
  - inversion Hnd as [|? ? Hh Hnd']; subst. clear Hnd. rename Hnd' into Hnd.
    cbn [for_each]. unfold mbind, M_bind, bind.
    destruct (load_item h s) as [s1 res] eqn:E1.
    unfold load_item in E1. injection E1 as <- <-.
    destruct Hidx as [Hmap Hlist]. destruct Hal as [Hal1 Hal2].
    apply IH; [exact Hnd | | |]; cbn [cdn_map cdn_list heap next_ref].
    + intros h' Hh'. rewrite lookup_insert_ne by (intros ->; contradiction).
      apply Hfresh. now right.
    + split.
      * intros h' r Hr. cbn [cdn_map cdn_list heap next_ref] in *.
        destruct (decide (h' = h)) as [->|Hne].
        -- rewrite lookup_insert_eq in Hr. injection Hr as <-.
           now rewrite fn_lookup_insert.
        -- rewrite lookup_insert_ne in Hr by congruence.
           rewrite fn_lookup_insert_ne; [now apply Hmap|].
           apply Hal2 in Hr. lia.
      * intros r Hr. cbn [cdn_map cdn_list heap next_ref] in *.
        apply elem_of_app in Hr as [Hr | Hr].
        -- assert (r <> next_ref s) as Hne by (apply Hal1 in Hr; lia).
           rewrite fn_lookup_insert_ne by congruence.
           rewrite lookup_insert_ne; [now apply Hlist|].
           intros Eh. specialize (Hlist r Hr). rewrite <- Eh in Hlist.
           rewrite Hfresh in Hlist; [discriminate | now left].
        -- apply list_elem_of_singleton in Hr as ->.
           rewrite fn_lookup_insert. cbn. now rewrite lookup_insert_eq.
    + split.
      * intros r Hr. cbn [cdn_map cdn_list heap next_ref] in *.
        apply elem_of_app in Hr as [Hr | Hr].
        -- apply Hal1 in Hr. lia.
        -- apply list_elem_of_singleton in Hr as ->. lia.
      * intros h' r Hr. cbn [cdn_map cdn_list heap next_ref] in *.
        destruct (decide (h' = h)) as [->|Hne].
        -- rewrite lookup_insert_eq in Hr. injection Hr as <-. lia.
        -- rewrite lookup_insert_ne in Hr by congruence. apply Hal2 in Hr. lia.
Qed.

Lemma reachable_indexed
    (str_to_time : string -> string) (lines : list string) (cs : list call) :
  NoDup lines ->
  indexed (run_calls str_to_time cs (fst (load_items lines Cdn_init))) /\
  cdn_map (run_calls str_to_time cs (fst (load_items lines Cdn_init)))
  = cdn_map (fst (load_items lines Cdn_init)).
Proof.
  intros Hnd. apply run_calls_indexed.
  apply (load_items_indexed lines Cdn_init Hnd).
  - intros h _. apply lookup_empty.
  - split; [intros h r Hr | intros r Hr]; cbn in Hr.
    + rewrite lookup_empty in Hr. discriminate.
    + inversion Hr.
  - split; [intros r Hr | intros h r Hr]; cbn in Hr.
    + inversion Hr.
    + rewrite lookup_empty in Hr. discriminate.
Qed.

(** The two premises of the round trip hold between any two registries
    reached from one load of distinct host lines: every listed item is
    tracked, under its own host, as itself. *)
Lemma reachable_round_trip_premises
    (str_to_time : string -> string) (lines : list string)
    (cs cs' : list call) :
  NoDup lines ->
  let s := run_calls str_to_time cs (fst (load_items lines Cdn_init)) in
  let t := run_calls str_to_time cs' (fst (load_items lines Cdn_init)) in
  (forall r, r ∈ cdn_list s -> is_Some (cdn_map t !! host (heap s r))) /\
  (forall r1 r2, r1 ∈ cdn_list s -> r2 ∈ cdn_list s ->
     cdn_map t !! host (heap s r1) = cdn_map t !! host (heap s r2) ->
     stats (heap s r1) = stats (heap s r2)).
Proof.
  intros Hnd s t.
  destruct (reachable_indexed str_to_time lines cs Hnd) as [[_ Hlist] Es].
  destruct (reachable_indexed str_to_time lines cs' Hnd) as [_ Et].
  fold s in Hlist, Es. fold t in Et.
  assert (cdn_map t = cdn_map s) as E by congruence.
  rewrite E. split.
  - intros r Hr. rewrite (Hlist r Hr). eexists; reflexivity.
  - intros r1 r2 Hr1 Hr2. rewrite (Hlist r1 Hr1), (Hlist r2 Hr2).
    intros [= ->]. reflexivity.
Qed.

(** ** Round trip through a snapshot *)

Lemma last_occurrence {A} `{EqDecision A} (l : list A) (x : A) :
  x ∈ l ->
  exists i, l !! i = Some x /\ forall j, (i < j)%nat -> l !! j <> Some x.
Proof.
  induction l as [|y l IH]; intros Hin; [inversion Hin|].
  destruct (decide (x ∈ l)) as [Hl | Hnl].
  - destruct (IH Hl) as (i & Hi & Hafter).
    exists (S i). split; [exact Hi|].
    intros [|j] Hj; [lia|]. cbn. apply Hafter. lia.
  - apply elem_of_cons in Hin as [-> | Hl]; [|contradiction].
    exists 0%nat. split; [reflexivity|].
    intros [|j] Hj; [lia|]. cbn. intros Hc. apply Hnl.
    now apply list_elem_of_lookup_2 in Hc.
Qed.



(** ** Instances on concrete registries *)

Lemma pool_AB_tracks_A_B :
  cdn_map pool_AB !! "A" = Some 0%nat /\ cdn_map pool_AB !! "B" = Some 1%nat /\
  cdn_map pool_AB !! "Z" = None.
Proof. repeat split; vm_compute; reflexivity. Qed.

Lemma restore_items_outdated_witness :
  (snap_version snap_v1 = None \/
   exists v, snap_version snap_v1 = Some v /\ v <= 1) /\
  restore_items (fun t => t) (Json snap_v1) pool_AB_1 = (pool_AB_1, Ok false).
Proof.
  assert (snap_version snap_v1 = None \/
          exists v, snap_version snap_v1 = Some v /\ v <= 1) as Hv.
  { right. exists 1. split; [reflexivity | lia]. }
  split; [exact Hv|].
  exact (restore_items_outdated (fun t => t) snap_v1 pool_AB_1 Hv).
Defined.

Lemma restore_items_merge_witness :
  snap_version snap_BA = Some 2 /\ 1 < 2 /\
  exists s',
    restore_items (fun t => t) (Json snap_BA) pool_AB = (s', Ok true) /\
    cdn_map s' = cdn_map pool_AB /\
    stats (heap s' 0%nat) = (4, 1, Qc_of_Z 3400) /\
    stats (heap s' 1%nat) = (3, 3, Qc_of_Z 10800).
Proof.
  destruct pool_AB_tracks_A_B as (HA & HB & _).
  split; [reflexivity|]. split; [lia|].
  destruct (restore_items_merge (fun t => t) snap_BA 2 pool_AB eq_refl)
    as [Hok _]; [lia|].
  destruct Hok as (s' & E & Hm & _ & _ & _ & _ & Hlast).
  { repeat constructor; cbn; [rewrite HA | rewrite HB]; eexists; reflexivity. }
  exists s'. split; [exact E|]. split; [exact Hm|]. split.
  - apply (Hlast [] (mkSnapshotItem "A" 4 1 (Qc_of_Z 3400))
                 [mkSnapshotItem "B" 3 3 (Qc_of_Z 10800)]);
      [reflexivity | exact HA |].
    repeat constructor. cbn. rewrite HB. discriminate.
  - apply (Hlast [mkSnapshotItem "A" 4 1 (Qc_of_Z 3400)]
                 (mkSnapshotItem "B" 3 3 (Qc_of_Z 10800)) []);
      [reflexivity | exact HB | constructor].
Defined.

(** C9, read without a condition on the records, fails on a record for a
    host that is not tracked: on the pool of A and B, a version 2 snapshot
    with records for B and Z overwrites the counters and weight of B and
    then ends with [KeyError]; A is untouched, and the list is not
    re-sorted and stays [A; B]. *)
Lemma restore_untracked_record_raises :
  snap_version snap_BZ = Some 2 /\
  cdn_map pool_AB !! "Z" = None /\
  snd (restore_items (fun t => t) (Json snap_BZ) pool_AB) = Raise KeyError /\
  let s' := fst (restore_items (fun t => t) (Json snap_BZ) pool_AB) in
  request_count (heap s' 1%nat) = 3 /\ success_count (heap s' 1%nat) = 2 /\
  request_count (heap s' 0%nat) = 0 /\ success_count (heap s' 0%nat) = 0 /\
  hosts s' = ["A"; "B"] /\ descendingb (weights s') = false.
Proof.
  split; [reflexivity|]. split; [apply pool_AB_tracks_A_B|].
  repeat split; vm_compute; reflexivity.
Qed.



(** * Further properties of the code *)

(** ** What an item records of its history *)







(** ** Bounds on counters, score and weight *)


Lemma Qc_of_Z_1 : Qc_of_Z 1 = 1%Qc.
Proof. apply Qc_is_canon. reflexivity. Qed.










(** ** Totality in Python's arithmetic *)

Lemma py_calls_run (outs : list (Py.num * bool)) (it : Py.CdnItem) :
  Py.CdnItem_ok it -> Forall (fun o => Py.small (fst o)) outs ->
  exists it',
    Py.add_request_results outs it = (it', Ok tt) /\
    Py.CdnItem_ok it' /\ Py.host it' = Py.host it /\
    Py.request_count it' = Py.request_count it + Z.of_nat (length outs) /\
    (outs <> [] ->
     Py.weight_of (Py.success_count it') (Py.request_count it')
       (Py.delay_rate_score it') = Ok (Py.weight it')).
Proof.
  revert it. induction outs as [|[d b] outs IH]; intros it Hok Hall.
  - exists it. split; [reflexivity|]. split; [exact Hok|].
    split; [reflexivity|]. split; [cbn; lia | congruence].
  - inversion Hall as [|? ? Hd Hrest]; subst. cbn [fst] in Hd.
    destruct (add_request_result_small it d b Hok Hd)
      as (it1 & E1 & Hok1 & Hh1 & _ & Hrc1 & _ & _ & Hw1).
    destruct (IH it1 Hok1 Hrest) as (it2 & E2 & Hok2 & Hh2 & Hrc2 & Hw2).
    exists it2. split.
    { cbn [Py.add_request_results]. unfold mbind, M_bind, bind.
      rewrite E1. exact E2. }
    split; [exact Hok2|]. split; [congruence|].
    split; [cbn [length]; lia|]. intros _.
    destruct outs as [|o outs']; [|apply Hw2; discriminate].
    cbn in E2. injection E2 as <-. exact Hw1.
Qed.

(** X14. In Python's arithmetic, with ints of any size and binary64 floats:
    every call of a history whose delays are floats or ints below 2^400 in
    absolute value returns normally from a fresh item.  No division is by
    zero and no conversion or quotient leaves the range of a double, so
    neither [ZeroDivisionError] nor [OverflowError] is raised.  Afterwards
    [request_count] is the number of calls, the counters are in order, the
    window holds at most 10 samples, and after at least one call the
    weight is (S/T)*10000 + score*1000 for the counters and the score the
    item then has. *)
Theorem py_calls_return (h : string) (outs : list (Py.num * bool)) :
  Forall (fun o => Py.small (fst o)) outs ->
  exists it,
    Py.add_request_results outs (Py.CdnItem_init h) = (it, Ok tt) /\
    Py.host it = h /\
    Py.request_count it = Z.of_nat (length outs) /\
    0 <= Py.success_count it <= Py.request_count it /\
    (length (Py.delay_data it) <= 10)%nat /\
    (outs <> [] ->
     Py.weight_of (Py.success_count it) (Py.request_count it)
       (Py.delay_rate_score it) = Ok (Py.weight it)).
Proof.
  intros Hall.
  assert (Py.CdnItem_ok (Py.CdnItem_init h)) as Hok0.
  { repeat split; cbn; try lia; try constructor. exists []. split; reflexivity. }
  destruct (py_calls_run outs _ Hok0 Hall) as (it & E & Hok & Hh & Hrc & Hw).
  exists it. split; [exact E|]. split; [exact Hh|].
  split; [cbn in Hrc; lia|]. split; [apply Hok|]. split; [apply Hok | exact Hw].
Qed.

Lemma py_calls_return_witness :
  let outs := [(Py.Int 200, true); (Py.decimal 9005 1, false)] in
  Forall (fun o => Py.small (fst o)) outs /\
  exists it,
    Py.add_request_results outs (Py.CdnItem_init "h") = (it, Ok tt) /\
    Py.request_count it = 2.
Proof.
  intros outs.
  assert (Forall (fun o => Py.small (fst o)) outs) as Hall.
  { repeat constructor. }
  split; [exact Hall|].
  destruct (py_calls_return "h" outs Hall) as (it & E & _ & Hrc & _).
  exists it. split; [exact E | exact Hrc].
Defined.

(** ** Rules for [keeps] and [total] *)

Section Rules.
Variable P : Cdn -> Prop.

Lemma keeps_ret {A} (a : A) : keeps P (mret a).
Proof. intros s Hs. exact Hs. Qed.

Lemma keeps_raise {A} (e : exn) : keeps P (@raise Cdn A e).
Proof. intros s Hs. exact Hs. Qed.

Lemma keeps_bind {A B} (m : M Cdn A) (k : A -> M Cdn B) :
  keeps P m -> (forall a, keeps P (k a)) -> keeps P (m ≫= k).
Proof.
  intros Hm Hk s Hs. unfold mbind, M_bind, bind.
  specialize (Hm s Hs). destruct (m s) as [s1 [a|e]]; cbn [fst] in *.
  - now apply Hk.
  - exact Hm.
Qed.

Lemma keeps_get {B} (k : Cdn -> M Cdn B) :
  (forall s0, keeps P (k s0)) -> keeps P (get ≫= k).
Proof. intros Hk. apply keeps_bind; [|exact Hk]. intros s Hs. exact Hs. Qed.

Lemma keeps_list_get (i : nat) : keeps P (list_get i).
Proof. intros s Hs. unfold list_get. now destruct (cdn_list s !! i). Qed.

Lemma keeps_map_get (h : string) : keeps P (map_get h).
Proof. intros s Hs. unfold map_get. now destruct (cdn_map s !! h). Qed.

Lemma keeps_for_each {A} (l : list A) (body : A -> M Cdn unit) :
  (forall a, keeps P (body a)) -> keeps P (for_each l body).
Proof.
  intros Hb. induction l as [|a l IH]; cbn [for_each].
  - apply keeps_ret.
  - apply keeps_bind; [apply Hb | intros _; exact IH].
Qed.

Lemma total_keeps {A} (m : M Cdn A) : total P m -> keeps P m.
Proof. intros Hm s Hs. destruct (Hm s Hs) as (s' & a & -> & Hs'). exact Hs'. Qed.

Lemma total_ret {A} (a : A) : total P (mret a).
Proof. intros s Hs. now exists s, a. Qed.

Lemma total_bind {A B} (m : M Cdn A) (k : A -> M Cdn B) :
  total P m -> (forall a, total P (k a)) -> total P (m ≫= k).
Proof.
  intros Hm Hk s Hs. unfold mbind, M_bind, bind.
  destruct (Hm s Hs) as (s1 & a & -> & Hs1). now apply Hk.
Qed.

Lemma total_get {B} (k : Cdn -> M Cdn B) :
  (forall s0, total P (k s0)) -> total P (get ≫= k).
Proof. intros Hk. apply total_bind; [|exact Hk]. intros s Hs. now exists s, s. Qed.
End Rules.

(** ** What a report leaves alone *)

Lemma relisting_of_refl (s : Cdn) : relisting_of s s.
Proof. repeat split. Qed.

Section Relisting.
Variable s0 : Cdn.

Lemma keeps_relisting_list_set (i : nat) (x : nat) :
  keeps (relisting_of s0) (list_set i x).
Proof.
  intros s Hs. unfold list_set.
  destruct (i <? length (cdn_list s))%nat; [|exact Hs].
  destruct Hs as (A & B & C & D & E & F).
  repeat split; cbn; try assumption. now rewrite length_insert.
Qed.

Lemma keeps_relisting_set_index (x : nat) (v : option nat) :
  keeps (relisting_of s0) (on_item x (modify (set_list_index v))).
Proof.
  intros s (A & B & C & D & E & F). repeat split; cbn; try assumption.
  intros r. destruct (decide (r = x)) as [->|Hne].
  - rewrite fn_lookup_insert. rewrite <- F. reflexivity.
  - rewrite fn_lookup_insert_ne by congruence. apply F.
Qed.

Lemma keeps_relisting_bubble_up (c : nat) (w : Qc) (range : list nat) :
  keeps (relisting_of s0) (bubble_up c w range).
Proof.
  induction range as [|i rest IH]; cbn [bubble_up]; [apply keeps_ret|].
  apply keeps_bind; [apply keeps_list_get|]. intros x.
  apply keeps_get. intros s1.
  destruct (Qcltb (weight (heap s1 x)) w); [|apply keeps_ret].
  apply keeps_bind; [apply keeps_list_get|]. intros y.
  apply keeps_bind; [apply keeps_relisting_set_index|]. intros _.
  apply keeps_bind; [apply keeps_list_get|]. intros z.
  apply keeps_bind; [apply keeps_relisting_list_set|]. intros _.
  apply keeps_bind; [apply keeps_relisting_list_set | intros _; exact IH].
Qed.

Lemma keeps_relisting_bubble_down (c : nat) (w : Qc) (range : list nat) :
  keeps (relisting_of s0) (bubble_down c w range).
Proof.
  induction range as [|i rest IH]; cbn [bubble_down]; [apply keeps_ret|].
  apply keeps_bind; [apply keeps_list_get|]. intros x.
  apply keeps_get. intros s1.
  destruct (Qcleb w (weight (heap s1 x))); [|apply keeps_ret].
  apply keeps_bind; [apply keeps_list_get|]. intros y.
  apply keeps_bind; [apply keeps_relisting_set_index|]. intros _.
  apply keeps_bind; [apply keeps_list_get|]. intros z.
  apply keeps_bind; [apply keeps_relisting_list_set|]. intros _.
  apply keeps_bind; [apply keeps_relisting_list_set | intros _; exact IH].
Qed.

Lemma keeps_relisting_reposition (c : nat) :
  keeps (relisting_of s0) (reposition c).
Proof.
  unfold reposition. apply keeps_get. intros s1. cbv zeta.
  destruct (list_index (heap s1 c)) as [p|]; [|apply keeps_raise].
  apply keeps_bind.
  - destruct (0 <? p)%nat; [|apply keeps_ret].
    apply keeps_bind; [apply keeps_list_get | intros x; apply keeps_ret].
  - intros [|]; [apply keeps_relisting_bubble_up|].
    apply keeps_bind.
    + destruct (Z.of_nat p <? Z.of_nat (length (cdn_list s1)) - 1);
        [|apply keeps_ret].
      apply keeps_bind; [apply keeps_list_get | intros x; apply keeps_ret].
    + intros [|]; [apply keeps_relisting_bubble_down | apply keeps_ret].
Qed.
End Relisting.

(** [report_cdn_result], step by step. *)
Lemma report_cdn_result_eq (h : string) (d : Qc) (b : bool) (s : Cdn) :
  report_cdn_result h d b s =
  match cdn_map s !! h with
  | None => (s, Raise KeyError)
  | Some c =>
      let '(it, res) := add_request_result d b (heap s c) in
      let s1 := set_heap (<[c:=it]> (heap s)) s in
      match res with
      | Ok _ => reposition c s1
      | Raise e => (s1, Raise e)
      end
  end.
Proof.
  unfold report_cdn_result, mbind at 1 2, M_bind, bind, map_get, on_item.
  destruct (cdn_map s !! h) as [c|]; [|reflexivity].
  destruct (add_request_result d b (heap s c)) as [it [[]|e]]; reflexivity.
Qed.

(** X4. A report changes the counters, window, score and weight of the item
    tracked for the reported host, exactly as [add_request_result] does.
    Apart from that it changes only which item the list holds at which
    index, and stored positions: the index, the hosts, the length of the
    list and every field but [list_index] of every other item stay as they
    were, and the list receives no item other than those it held and the
    reported one, whether the call returns or raises.  (The list need not
    stay a permutation of what it was: see [pool_ABC_3].) *)
Theorem report_touches_one_item (h : string) (d : Qc) (b : bool) (s : Cdn) :
  let s' := fst (report_cdn_result h d b s) in
  cdn_map s' = cdn_map s /\ items s' = items s /\
  next_ref s' = next_ref s /\ last_check_at s' = last_check_at s /\
  length (cdn_list s') = length (cdn_list s) /\
  (forall r, r ∈ cdn_list s' -> r ∈ cdn_list s \/ cdn_map s !! h = Some r) /\
  match cdn_map s !! h with
  | None => s' = s
  | Some c =>
      forget_index (heap s' c)
      = forget_index (fst (add_request_result d b (heap s c))) /\
      forall r, r <> c -> forget_index (heap s' r) = forget_index (heap s r)
  end.
Proof.
  cbv zeta.
  destruct (report_cdn_result_frame h d b s) as (_ & _ & Hfrom).
  revert Hfrom. rewrite report_cdn_result_eq.
  destruct (cdn_map s !! h) as [c|]; [|intros _; repeat split; now left].
  destruct (add_request_result d b (heap s c)) as [it res]. intros Hfrom.
  cbv zeta. set (s1 := set_heap (<[c:=it]> (heap s)) s).
  assert (relisting_of s1
            (fst (match res with
                  | Ok _ => reposition c s1
                  | Raise e => (s1, Raise e)
                  end))) as (A & B & C & D & E & F).
  { destruct res; [|apply relisting_of_refl].
    apply keeps_relisting_reposition, relisting_of_refl. }
  cbn [fst]. subst s1.
  cbn [cdn_map items next_ref last_check_at cdn_list heap set_heap] in *.
  repeat split; try assumption.
  - rewrite F. now rewrite fn_lookup_insert.
  - intros r Hne. rewrite F. now rewrite fn_lookup_insert_ne by congruence.
Qed.

(** ** Reports that go through *)

Section Sane.
Variable n : nat.

Lemma total_sane_list_get (i : nat) : (i < n)%nat -> total (sane n) (list_get i).
Proof.
  intros Hi s Hs. unfold list_get.
  destruct (lookup_lt_is_Some_2 (cdn_list s) i) as [x Hx];
    [destruct Hs as [-> _]; exact Hi|].
  rewrite Hx. now exists s, x.
Qed.

Lemma total_sane_list_set (i x : nat) :
  (i < n)%nat -> total (sane n) (list_set i x).
Proof.
  intros Hi s [Hlen Htr]. unfold list_set.
  assert ((i <? length (cdn_list s))%nat = true) as ->
    by (apply Nat.ltb_lt; lia).
  eexists _, tt. split; [reflexivity|]. split; cbn.
  - now rewrite length_insert.
  - exact Htr.
Qed.

Lemma sane_on_item (x : nat) (f : CdnItem -> CdnItem) (s : Cdn) :
  (0 <= request_count (heap s x) -> 0 <= request_count (f (heap s x))) ->
  ((exists p, list_index (heap s x) = Some p /\ (p < n)%nat) ->
   exists p, list_index (f (heap s x)) = Some p /\ (p < n)%nat) ->
  sane n s -> sane n (set_heap (<[x := f (heap s x)]> (heap s)) s).
Proof.
  intros Hrc Hidx [Hlen Htr]. split; [exact Hlen|].
  intros h r Hr. cbn in Hr. cbn [heap set_heap].
  destruct (Htr h r Hr) as [A B].
  destruct (decide (r = x)) as [->|Hne].
  - rewrite fn_lookup_insert. auto.
  - rewrite fn_lookup_insert_ne by congruence. auto.
Qed.

Lemma total_sane_set_index (x j : nat) :
  (j < n)%nat ->
  total (sane n) (on_item x (modify (set_list_index (Some j)))).
Proof.
  intros Hj s Hs. eexists _, tt. split; [reflexivity|].
  apply (sane_on_item x (set_list_index (Some j))); [auto | | exact Hs].
  intros _. exists j. now split.
Qed.

Lemma total_sane_bubble_up (c : nat) (w : Qc) (range : list nat) :
  Forall (fun i => (i + 1 < n)%nat) range ->
  total (sane n) (bubble_up c w range).
Proof.
  induction 1 as [|i rest Hi _ IH]; cbn [bubble_up]; [apply total_ret|].
  apply total_bind; [apply total_sane_list_get; lia|]. intros x.
  apply total_get. intros s1.
  destruct (Qcltb (weight (heap s1 x)) w); [|apply total_ret].
  apply total_bind; [apply total_sane_list_get; lia|]. intros y.
  apply total_bind; [apply total_sane_set_index; lia|]. intros _.
  apply total_bind; [apply total_sane_list_get; lia|]. intros z.
  apply total_bind; [apply total_sane_list_set; lia|]. intros _.
  apply total_bind; [apply total_sane_list_set; lia | intros _; exact IH].
Qed.

Lemma total_sane_bubble_down (c : nat) (w : Qc) (range : list nat) :
  Forall (fun i => (0 < i < n)%nat) range ->
  total (sane n) (bubble_down c w range).
Proof.
  induction 1 as [|i rest Hi _ IH]; cbn [bubble_down]; [apply total_ret|].
  apply total_bind; [apply total_sane_list_get; lia|]. intros x.
  apply total_get. intros s1.
  destruct (Qcleb w (weight (heap s1 x))); [|apply total_ret].
  apply total_bind; [apply total_sane_list_get; lia|]. intros y.
  apply total_bind; [apply total_sane_set_index; lia|]. intros _.
  apply total_bind; [apply total_sane_list_get; lia|]. intros z.
  apply total_bind; [apply total_sane_list_set; lia|]. intros _.
  apply total_bind; [apply total_sane_list_set; lia | intros _; exact IH].
Qed.

Lemma reposition_sane (c : nat) (s : Cdn) :
  sane n s ->
  (exists p, list_index (heap s c) = Some p /\ (p < n)%nat) ->
  exists s', reposition c s = (s', Ok tt) /\ sane n s'.
Proof.
  intros Hs (p & Hp & Hpn).
  assert (length (cdn_list s) = n) as Hlen by apply Hs.
  assert (total (sane n)
            (up ← (if (0 <? p)%nat
                   then x ← list_get (p - 1);
                        ret (Qcltb (weight (heap s x)) (weight (heap s c)))
                   else ret false);
             if (up : bool)
             then bubble_up c (weight (heap s c)) (rev (seq 0 p))
             else
               down ← (if Z.of_nat p <? Z.of_nat (length (cdn_list s)) - 1
                       then x ← list_get (p + 1);
                            ret (Qcleb (weight (heap s c)) (weight (heap s x)))
                       else ret false);
               if (down : bool)
               then bubble_down c (weight (heap s c))
                      (seq (p + 1) (length (cdn_list s) - (p + 1)))
               else ret tt)) as Htot.
  { apply total_bind.
    - destruct (0 <? p)%nat; [|apply total_ret].
      apply total_bind; [apply total_sane_list_get; lia|].
      intros x. apply total_ret.
    - intros [|].
      + apply total_sane_bubble_up. apply List.Forall_forall. intros i Hi.
        apply in_rev, in_seq in Hi. lia.
      + apply total_bind.
        * destruct (Z.of_nat p <? Z.of_nat (length (cdn_list s)) - 1) eqn:E;
            [|apply total_ret].
          apply Z.ltb_lt in E.
          apply total_bind; [apply total_sane_list_get; lia|].
          intros x. apply total_ret.
        * intros [|]; [|apply total_ret].
          apply total_sane_bubble_down. apply List.Forall_forall. intros i Hi.
          apply in_seq in Hi. lia. }
  destruct (Htot s Hs) as (s' & [] & E & Hs').
  exists s'. split; [|exact Hs'].
  unfold reposition, mbind at 1, M_bind, bind, get. cbv zeta. rewrite Hp.
  exact E.
Qed.

Lemma report_cdn_result_sane (h : string) (d : Qc) (b : bool) (s : Cdn) :
  sane n s -> is_Some (cdn_map s !! h) ->
  exists s', report_cdn_result h d b s = (s', Ok tt) /\ sane n s'.
Proof.
  intros Hs [c Hc]. rewrite report_cdn_result_eq, Hc.
  destruct (proj2 Hs h c Hc) as [Hrc Hidx].
  assert (request_count (heap s c) + 1 <> 0) as Hne by lia.
  assert (exists it,
            add_request_result d b (heap s c) = (it, Ok tt) /\
            0 <= request_count it /\
            list_index it = list_index (heap s c)) as (it & -> & Hrc' & Hidx').
  { destruct b; eexists.
    - split; [apply add_request_result_success, Hne|]. cbn. split; [lia|reflexivity].
    - split; [apply add_request_result_failure, Hne|]. cbn. split; [lia|reflexivity]. }
  cbv zeta.
  assert (sane n (set_heap (<[c:=it]> (heap s)) s)) as Hs1.
  { destruct Hs as [Hlen Htr]. split; [exact Hlen|].
    intros h' r Hr. cbn in Hr. cbn [heap set_heap].
    destruct (decide (r = c)) as [->|Hn].
    - rewrite fn_lookup_insert. rewrite Hidx'. auto.
    - rewrite fn_lookup_insert_ne by congruence. now apply (Htr h'). }
  apply reposition_sane; [exact Hs1|].
  cbn [heap set_heap]. rewrite fn_lookup_insert, Hidx'. exact Hidx.
Qed.

Lemma keeps_sane_assign_index (i : nat) : keeps (sane n) (assign_index i).
Proof.
  intros s Hs. unfold assign_index, mbind, M_bind, bind, list_get.
  destruct (cdn_list s !! i) as [x|] eqn:Hx; [|exact Hs].
  apply lookup_lt_Some in Hx.
  assert (i < n)%nat as Hi by (destruct Hs as [<- _]; exact Hx).
  exact (total_keeps _ _ (total_sane_set_index x i Hi) s Hs).
Qed.

Lemma keeps_sane_resort : keeps (sane n) resort_cdn_list.
Proof.
  unfold resort_cdn_list. apply keeps_bind.
  - intros s [Hlen Htr]. split; [|exact Htr]. cbn.
    now rewrite (Permutation_length (sort_desc_perm (heap s) (cdn_list s))).
  - intros _. apply keeps_get. intros s1.
    apply keeps_for_each. apply keeps_sane_assign_index.
Qed.

Lemma keeps_sane_modify_item (x : nat) (f : CdnItem -> CdnItem) :
  (forall it, 0 <= request_count it -> 0 <= request_count (f it)) ->
  (forall it, list_index (f it) = list_index it) ->
  keeps (sane n) (on_item x (modify f)).
Proof.
  intros Hrc Hidx s Hs. cbn.
  apply (sane_on_item x f); [apply Hrc | now rewrite Hidx | exact Hs].
Qed.

Lemma keeps_sane_restore_item (x : SnapshotItem) :
  0 <= snap_request_count x -> keeps (sane n) (restore_item x).
Proof.
  intros Hx. unfold restore_item.
  apply keeps_bind; [apply keeps_map_get|]. intros c.
  apply keeps_bind; [|intros _; apply keeps_bind; [|intros _]];
    apply keeps_sane_modify_item; cbn; auto.
Qed.

Lemma keeps_sane_restore_items
    (str_to_time : string -> string) (f : SnapshotFile) :
  call_sane (Restore f) -> keeps (sane n) (restore_items str_to_time f).
Proof.
  intros Hf. unfold restore_items.
  destruct f as [| |truthy|d]; try apply keeps_ret.
  { destruct truthy; [apply keeps_raise | apply keeps_ret]. }
  destruct (dict_truthy d); [|apply keeps_ret].
  destruct (default 1 (snap_version d) <=? 1); [apply keeps_ret|].
  apply keeps_bind; [intros s Hs; exact Hs|]. intros _.
  apply keeps_get. intros s0. apply keeps_bind.
  { destruct (last_check_at s0) as [[|c t]|]; try apply keeps_ret.
    intros s Hs; exact Hs. }
  intros _. apply keeps_bind.
  { cbn [call_sane] in Hf.
    induction Hf as [|x recs Hx _ IH]; cbn [for_each]; [apply keeps_ret|].
    apply keeps_bind; [now apply keeps_sane_restore_item | intros _; exact IH]. }
  intros _. apply keeps_bind; [apply keeps_sane_resort|].
  intros _. apply keeps_ret.
Qed.

Lemma run_call_sane (str_to_time : string -> string) (c : call) (s : Cdn) :
  call_sane c -> sane n s -> sane n (run_call str_to_time c s).
Proof.
  intros Hc Hs. destruct c as [h d b|k|now|f]; cbn [run_call].
  - destruct (cdn_map s !! h) as [r|] eqn:Hr.
    + destruct (report_cdn_result_sane h d b s Hs) as (s' & -> & Hs');
        [now exists r | exact Hs'].
    + now rewrite (report_cdn_result_KeyError s h d b Hr).
  - unfold get_cdn, mbind, M_bind, bind, get, lift_result.
    now destruct (random_choice k (take 100 (cdn_list s))).
  - exact Hs.
  - now apply keeps_sane_restore_items.
Qed.
End Sane.

Lemma load_items_sane (lines : list string) (n : nat) (s : Cdn) :
  sane n s -> allocated s ->
  sane (n + length lines) (fst (load_items lines s)) /\
  allocated (fst (load_items lines s)).
Proof.
  unfold load_items.
  revert n s. induction lines as [|h lines IH]; intros n s Hs Hal.
  - rewrite Nat.add_0_r. now split.
  - cbn [for_each length]. unfold mbind, M_bind, bind.
    destruct (load_item h s) as [s1 res] eqn:E1.
    unfold load_item in E1. injection E1 as <- <-.
    destruct Hs as [Hlen Htr]. destruct Hal as [Hal1 Hal2].
    replace (n + S (length lines))%nat with (S n + length lines)%nat by lia.
    apply IH.
    + split; cbn [cdn_list cdn_map heap].
      * rewrite length_app. cbn. lia.
      * intros h' r Hr. destruct (decide (h' = h)) as [->|Hne].
        -- rewrite lookup_insert_eq in Hr. injection Hr as <-.
           rewrite fn_lookup_insert. cbn. split; [lia|].
           exists (length (cdn_list s)). split; [reflexivity | lia].
        -- rewrite lookup_insert_ne in Hr by congruence.
           rewrite fn_lookup_insert_ne by (apply Hal2 in Hr; lia).
           destruct (Htr h' r Hr) as [A (p & B & C)].
           split; [exact A|]. exists p. split; [exact B | lia].
    + split; cbn [cdn_list cdn_map next_ref].
      * intros r Hr. apply elem_of_app in Hr as [Hr | Hr].
        -- apply Hal1 in Hr. lia.
        -- apply list_elem_of_singleton in Hr as ->. lia.
      * intros h' r Hr. destruct (decide (h' = h)) as [->|Hne].
        -- rewrite lookup_insert_eq in Hr. injection Hr as <-. lia.
        -- rewrite lookup_insert_ne in Hr by congruence. apply Hal2 in Hr. lia.
Qed.

Lemma Cdn_init_sane : sane 0 Cdn_init /\ allocated Cdn_init.
Proof.
  split; split; cbn; try reflexivity.
  - intros h r Hr. rewrite lookup_empty in Hr. discriminate.
  - intros r Hr. inversion Hr.
  - intros h r Hr. rewrite lookup_empty in Hr. discriminate.
Qed.

Lemma reachable_sane
    (str_to_time : string -> string) (lines : list string) (cs : list call) :
  Forall call_sane cs ->
  sane (length lines)
       (run_calls str_to_time cs (fst (load_items lines Cdn_init))).
Proof.
  intros Hcs.
  pose proof (proj1 (load_items_sane lines 0 Cdn_init (proj1 Cdn_init_sane)
                       (proj2 Cdn_init_sane))) as H0.
  cbn [Nat.add] in H0. revert H0.
  generalize (fst (load_items lines Cdn_init)) as s.
  induction Hcs as [|c cs Hc _ IH]; intros s Hs; [exact Hs|].
  unfold run_calls in *. cbn [fold_left]. apply IH.
  now apply run_call_sane.
Qed.

(** X5. Take a registry reached from a load of the host file by any history
    of calls in which every snapshot that is restored is a file of
    [SnapshotFile] (no file, no JSON, no JSON object, or an object whose
    records carry a host, integer counters and a numeric weight) and holds
    no negative request counter.  There a report for a tracked host returns
    normally, and a report for any other host raises [KeyError] and changes
    nothing: no report ends with [IndexError], [TypeError] or
    [ZeroDivisionError].  (An object with a record that lacks a member, or
    carries one of another type, is no file of [SnapshotFile]: the code
    stores [None] or the value as it is, and a later report can end with
    [TypeError].) *)
Theorem report_raises_only_KeyError
    (str_to_time : string -> string) (lines : list string) (cs : list call)
    (h : string) (d : Qc) (b : bool) :
  Forall call_sane cs ->
  let s := run_calls str_to_time cs (fst (load_items lines Cdn_init)) in
  match cdn_map s !! h with
  | Some _ => snd (report_cdn_result h d b s) = Ok tt
  | None => report_cdn_result h d b s = (s, Raise KeyError)
  end.
Proof.
  intros Hcs s.
  pose proof (reachable_sane str_to_time lines cs Hcs) as Hs. fold s in Hs.
  destruct (cdn_map s !! h) as [r|] eqn:Hr.
  - destruct (report_cdn_result_sane _ h d b s Hs) as (s' & -> & _);
      [now exists r | reflexivity].
  - now apply report_cdn_result_KeyError.
Qed.

Lemma report_raises_only_KeyError_witness :
  let cs := [Report "B" (Qc_of_Z 200) true; Save "now"; GetCdn 3] in
  Forall call_sane cs /\
  let s := run_calls id cs (fst (load_items ["A"; "B"] Cdn_init)) in
  match cdn_map s !! "A" with
  | Some _ => snd (report_cdn_result "A" (Qc_of_Z 100) false s) = Ok tt
  | None => report_cdn_result "A" (Qc_of_Z 100) false s = (s, Raise KeyError)
  end.
Proof.
  intros cs.
  assert (Forall call_sane cs) as Hcs by (repeat constructor).
  split; [exact Hcs|].
  exact (report_raises_only_KeyError id ["A"; "B"] cs "A" (Qc_of_Z 100) false Hcs).
Defined.

(** ** Loading the host file *)

Lemma load_items_run (lines : list string) (s : Cdn) :
  exists s',
    load_items lines s = (s', Ok tt) /\
    cdn_list s' = cdn_list s ++ seq (next_ref s) (length lines) /\
    items s' = items s ++ lines /\
    next_ref s' = (next_ref s + length lines)%nat /\
    last_check_at s' = last_check_at s /\
    (forall r, (r < next_ref s)%nat -> heap s' r = heap s r) /\
    (forall i h, lines !! i = Some h ->
       heap s' (next_ref s + i)%nat =
       set_list_index (Some (length (cdn_list s) + i)%nat) (CdnItem_init h)) /\
    (forall h, h ∉ lines -> cdn_map s' !! h = cdn_map s !! h) /\
    (forall i h, lines !! i = Some h ->
       (forall j, (i < j)%nat -> lines !! j <> Some h) ->
       cdn_map s' !! h = Some (next_ref s + i)%nat).
Proof.
  unfold load_items.
  revert s. induction lines as [|h0 lines IH]; intros s.
  - exists s. split; [reflexivity|]. cbn [length seq].
    rewrite !app_nil_r, Nat.add_0_r.
    repeat split; try reflexivity; intros i h Hi; discriminate Hi.
  - set (s1 := fst (load_item h0 s)).
    destruct (IH s1) as (s' & E & Hl & Hit & Hn & Hlc & Hold & Hnew & Hm1 & Hm2).
    subst s1. cbn [load_item fst cdn_list items next_ref last_check_at heap
                   cdn_map] in *.
    exists s'. split.
    { cbn [for_each]. unfold mbind, M_bind, bind. exact E. }
    split; [rewrite Hl, <- app_assoc; reflexivity|].
    split; [rewrite Hit, <- app_assoc; reflexivity|].
    split; [rewrite Hn; cbn [length]; lia|].
    split; [exact Hlc|].
    split; [|split; [|split]].
    + intros r Hr. rewrite Hold by lia.
      rewrite fn_lookup_insert_ne by lia. reflexivity.
    + intros [|i] h Hi.
      * cbn in Hi. injection Hi as ->.
        rewrite Nat.add_0_r, Hold by lia.
        rewrite fn_lookup_insert. now rewrite Nat.add_0_r.
      * cbn in Hi.
        replace (next_ref s + S i)%nat with (S (next_ref s) + i)%nat by lia.
        rewrite (Hnew i h Hi), length_app. cbn [length].
        f_equal. f_equal. lia.
    + intros h Hh. apply not_elem_of_cons in Hh as [Hne Hh].
      rewrite (Hm1 h Hh). now rewrite lookup_insert_ne by congruence.
    + intros [|i] h Hi Hlast.
      * cbn in Hi. injection Hi as ->.
        rewrite Hm1.
        -- rewrite lookup_insert_eq. f_equal. lia.
        -- intros Hin. apply list_elem_of_lookup in Hin as [j Hj].
           apply (Hlast (S j)); [lia | exact Hj].
      * cbn in Hi.
        replace (next_ref s + S i)%nat with (S (next_ref s) + i)%nat by lia.
        apply Hm2; [exact Hi|].
        intros j Hj. apply (Hlast (S j)). lia.
Qed.

Lemma descending_replicate_0 (n : nat) : descending (replicate n 0%Qc).
Proof.
  unfold descending. induction n as [|n IH]; cbn [replicate]; constructor.
  - exact IH.
  - clear IH. induction n as [|n IH]; cbn [replicate]; constructor.
    + apply Qcle_refl.
    + exact IH.
Qed.

(** X6. Loading the host file into the initial registry returns normally
    and gives one fresh item per line, listed in file order: the hosts of
    the list and [items] are the lines, every item has weight 0, no samples,
    and its own index as [list_index], so the list is ranked and every
    position is right; the tracked hosts are exactly the lines, and a host
    that occurs on several lines is tracked as the item of its last line. *)
Theorem load_items_fresh (lines : list string) :
  exists s,
    load_items lines Cdn_init = (s, Ok tt) /\
    hosts s = lines /\ items s = lines /\
    cdn_list s = seq 0 (length lines) /\
    (forall i h, lines !! i = Some h ->
       heap s i = set_list_index (Some i) (CdnItem_init h)) /\
    ranked s /\
    (forall r, r ∈ cdn_list s -> position_ok s r) /\
    (forall h, is_Some (cdn_map s !! h) <-> h ∈ lines) /\
    (forall i h, lines !! i = Some h ->
       (forall j, (i < j)%nat -> lines !! j <> Some h) ->
       cdn_map s !! h = Some i).
Proof.
  destruct (load_items_run lines Cdn_init)
    as (s & E & Hl & Hit & Hn & _ & _ & Hnew & Hm1 & Hm2).
  cbn [Cdn_init cdn_list items next_ref cdn_map app length Nat.add] in *.
  exists s. split; [exact E|].
  assert (forall i, (i < length lines)%nat ->
            exists h, lines !! i = Some h /\
                      heap s i = set_list_index (Some i) (CdnItem_init h)) as Hitem.
  { intros i Hi. destruct (lookup_lt_is_Some_2 lines i Hi) as [h Hh].
    exists h. split; [exact Hh | now apply Hnew]. }
  split; [|split; [exact Hit|]; split; [exact Hl|]; split; [exact Hnew|];
           split; [|split; [|split; [|exact Hm2]]]].
  - unfold hosts. rewrite Hl. apply list_eq. intros i.
    rewrite list_lookup_fmap.
    destruct (decide (i < length lines)%nat) as [Hi|Hi].
    + rewrite lookup_seq_lt by exact Hi. cbn.
      destruct (Hitem i Hi) as (h & -> & ->). reflexivity.
    + rewrite lookup_seq_ge by lia. cbn. symmetry.
      apply lookup_ge_None. lia.
  - unfold ranked, weights. rewrite Hl.
    replace (map (fun r => weight (heap s r)) (seq 0 (length lines)))
      with (replicate (length lines) 0%Qc); [apply descending_replicate_0|].
    apply list_eq. intros i. rewrite list_lookup_fmap.
    destruct (decide (i < length lines)%nat) as [Hi|Hi].
    + rewrite lookup_seq_lt by exact Hi. cbn.
      destruct (Hitem i Hi) as (h & _ & ->). cbn.
      now apply lookup_replicate_2.
    + rewrite lookup_seq_ge by lia. cbn.
      apply lookup_ge_None. rewrite length_replicate. lia.
  - intros r Hr. rewrite Hl in Hr. apply elem_of_seq in Hr.
    destruct (Hitem r) as (h & _ & Hh); [lia|].
    exists r. rewrite Hh, Hl. split; [reflexivity|].
    apply lookup_seq_lt. lia.
  - intros h. split.
    + intros Hsome. destruct (decide (h ∈ lines)) as [Hin|Hout]; [exact Hin|].
      rewrite (Hm1 h Hout), lookup_empty in Hsome. now destruct Hsome.
    + intros Hin. destruct (last_occurrence lines h Hin) as (i & Hi & Hlast).
      rewrite (Hm2 i h Hi Hlast). eexists; reflexivity.
Qed.

(** ** The full re-sort, in any state *)

Lemma sort_desc_sorted_id (h : nat -> CdnItem) (l : list nat) :
  StronglySorted (heavier h) l -> sort_desc h l = l.
Proof.
  unfold sort_desc. induction 1 as [|x l Hs IH Hx]; [reflexivity|].
  cbn [foldr]. rewrite IH. destruct l as [|y ys]; [reflexivity|].
  cbn [insert_desc].
  destruct (Qcltb (weight (h x)) (weight (h y))) eqn:E; [|reflexivity].
  apply Qcltb_lt in E. inversion Hx as [|? ? Hy _]; subst.
  now apply Qclt_not_le in E.
Qed.

Lemma descending_map_inv (h : nat -> CdnItem) (l : list nat) :
  descending (map (fun r => weight (h r)) l) -> StronglySorted (heavier h) l.
Proof.
  unfold descending. induction l as [|a l IH]; cbn [map]; intros Hs;
    [constructor|].
  apply StronglySorted_inv in Hs as [Hl Ha].
  constructor; [now apply IH|].
  rewrite List.Forall_forall in *. intros r Hr.
  apply Ha, in_map_iff. now exists r.
Qed.

Lemma ranked_after_sort (s1 s' : Cdn) (l : list nat) :
  cdn_list s' = sort_desc (heap s1) l ->
  (forall r, stats (heap s' r) = stats (heap s1 r)) ->
  ranked s'.
Proof.
  intros Hl Hst. unfold ranked, weights. rewrite Hl.
  rewrite (map_ext _ (fun r => weight (heap s1 r))).
  - apply descending_map, sort_desc_sorted.
  - intros r. specialize (Hst r). unfold stats in Hst. now injection Hst.
Qed.

Lemma positions_after_assign (s' : Cdn) :
  (forall i r, cdn_list s' !! i = Some r ->
     (forall j, (i < j)%nat -> cdn_list s' !! j <> Some r) ->
     list_index (heap s' r) = Some i) ->
  forall r, r ∈ cdn_list s' -> position_ok s' r.
Proof.
  intros Hpos r Hr. destruct (last_occurrence _ _ Hr) as (i & Hi & Hafter).
  exists i. split; [now apply Hpos | exact Hi].
Qed.

(** X7. In any state of the registry, however its list and positions were
    left, [resort_cdn_list] returns normally with the list a permutation of
    what it was, descending by weight, and with every listed item's
    [list_index] an index at which the list holds it; it changes nothing
    else of any item, and not the index. *)
Theorem resort_cdn_list_repairs (s : Cdn) :
  exists s',
    resort_cdn_list s = (s', Ok tt) /\
    Permutation (cdn_list s') (cdn_list s) /\
    ranked s' /\
    (forall r, r ∈ cdn_list s' -> position_ok s' r) /\
    cdn_map s' = cdn_map s /\
    (forall r, stats (heap s' r) = stats (heap s r) /\
               same_delay_fields (heap s r) (heap s' r)) /\
    (forall r, r ∉ cdn_list s -> list_index (heap s' r) = list_index (heap s r)).
Proof.
  destruct (resort_cdn_list_spec s) as (s' & E & Hl & Hm & _ & Hfr & Hun & Hpos).
  exists s'. split; [exact E|].
  split; [rewrite Hl; apply sort_desc_perm|].
  split; [apply (ranked_after_sort s s' _ Hl); intros r; apply Hfr|].
  split; [now apply positions_after_assign|].
  split; [exact Hm|]. split; [exact Hfr | exact Hun].
Qed.

(** X8. On a list that is already descending by weight, [resort_cdn_list]
    leaves the order as it is: items of equal weight are not swapped. *)
Theorem resort_cdn_list_keeps_ranked_order (s : Cdn) :
  ranked s -> cdn_list (fst (resort_cdn_list s)) = cdn_list s.
Proof.
  intros Hr.
  destruct (resort_cdn_list_spec s) as (s' & -> & Hl & _).
  cbn [fst]. rewrite Hl. now apply sort_desc_sorted_id, descending_map_inv.
Qed.

Lemma resort_cdn_list_keeps_ranked_order_witness :
  ranked pool_AB_1 /\
  cdn_list (fst (resort_cdn_list pool_AB_1)) = cdn_list pool_AB_1.
Proof.
  assert (ranked pool_AB_1) as Hr
    by (apply descendingb_spec; vm_compute; reflexivity).
  split; [exact Hr | exact (resort_cdn_list_keeps_ranked_order pool_AB_1 Hr)].
Defined.

(** ** The outcomes of [restore_items] *)



(** ** Selecting after any history *)

Lemma report_cdn_result_length (h : string) (d : Qc) (b : bool) (s : Cdn) :
  length (cdn_list (fst (report_cdn_result h d b s))) = length (cdn_list s).
Proof.
  rewrite report_cdn_result_eq.
  destruct (cdn_map s !! h) as [c|]; [|reflexivity].
  destruct (add_request_result d b (heap s c)) as [it [[]|e]]; cbv zeta;
    [|reflexivity].
  set (s1 := set_heap (<[c:=it]> (heap s)) s).
  now destruct (keeps_relisting_reposition s1 c s1 (relisting_of_refl s1))
    as (_ & _ & _ & _ & E & _).
Qed.

Lemma restore_items_length
    (str_to_time : string -> string) (f : SnapshotFile) (s : Cdn) :
  length (cdn_list (fst (restore_items str_to_time f s))) = length (cdn_list s).
Proof.
  assert (keeps (fun s' => length (cdn_list s') = length (cdn_list s))
                (restore_items str_to_time f)) as Hk.
  { unfold restore_items. destruct f as [| |truthy|d]; try apply keeps_ret.
    { destruct truthy; [apply keeps_raise | apply keeps_ret]. }
    destruct (dict_truthy d); [|apply keeps_ret].
    destruct (default 1 (snap_version d) <=? 1); [apply keeps_ret|].
    apply keeps_bind; [intros s1 Hs1; exact Hs1|]. intros _.
    apply keeps_get. intros s0. apply keeps_bind.
    { destruct (last_check_at s0) as [[|c t]|]; try apply keeps_ret.
      intros s1 Hs1; exact Hs1. }
    intros _. apply keeps_bind.
    { apply keeps_for_each. intros x. unfold restore_item.
      apply keeps_bind; [apply keeps_map_get|]. intros c.
      repeat (apply keeps_bind; [|intros _]); intros s1 Hs1; exact Hs1. }
    intros _. apply keeps_bind; [|intros _; apply keeps_ret].
    unfold resort_cdn_list. apply keeps_bind.
    - intros s1 Hs1. cbn.
      now rewrite (Permutation_length (sort_desc_perm (heap s1) (cdn_list s1))).
    - intros _. apply keeps_get. intros s1. apply keeps_for_each.
      intros i. unfold assign_index.
      apply keeps_bind; [apply keeps_list_get|].
      intros x s2 Hs2. exact Hs2. }
  now apply Hk.
Qed.

Lemma run_calls_listed_tracked
    (str_to_time : string -> string) (cs : list call) (s : Cdn) :
  listed_tracked s ->
  listed_tracked (run_calls str_to_time cs s) /\
  cdn_map (run_calls str_to_time cs s) = cdn_map s /\
  length (cdn_list (run_calls str_to_time cs s)) = length (cdn_list s).
Proof.
  revert s. induction cs as [|c cs IH]; intros s Hs;
    [split; [exact Hs | split; reflexivity]|].
  unfold run_calls in *. cbn [fold_left].
  destruct (run_call_frame str_to_time c s) as (A & B & C).
  assert (listed_tracked (run_call str_to_time c s)) as Hs1.
  { destruct Hs as [Hmap Hlist]. split.
    - intros h r Hr. rewrite A in Hr. rewrite B. now apply Hmap.
    - intros r Hr. rewrite A, B.
      destruct (C r Hr) as [Hold | [h Hh]]; [now apply Hlist|].
      rewrite (Hmap h r Hh), Hh. eexists; reflexivity. }
  assert (length (cdn_list (run_call str_to_time c s)) = length (cdn_list s))
    as Hlen.
  { destruct c as [h d b|k|now|f]; cbn [run_call].
    - apply report_cdn_result_length.
    - unfold get_cdn, mbind, M_bind, bind, get, lift_result.
      now destruct (random_choice k (take 100 (cdn_list s))).
    - reflexivity.
    - apply restore_items_length. }
  destruct (IH _ Hs1) as (H1 & H2 & H3).
  split; [exact H1|]. split; congruence.
Qed.

Lemma load_items_tracks_lines (lines : list string) :
  let s := fst (load_items lines Cdn_init) in
  listed_tracked s /\ length (cdn_list s) = length lines /\
  (forall h, is_Some (cdn_map s !! h) -> h ∈ lines).
Proof.
  destruct (load_items_run lines Cdn_init)
    as (s & E & Hl & _ & _ & _ & _ & Hnew & Hm1 & Hm2).
  rewrite E. cbn [fst].
  cbn [Cdn_init cdn_list next_ref cdn_map app length Nat.add] in *.
  assert (forall h, is_Some (cdn_map s !! h) -> h ∈ lines) as Hdom.
  { intros h Hsome. destruct (decide (h ∈ lines)) as [Hin|Hout]; [exact Hin|].
    rewrite (Hm1 h Hout), lookup_empty in Hsome. now destruct Hsome. }
  split; [split|split; [rewrite Hl; apply length_seq | exact Hdom]].
  - intros h r Hr.
    assert (h ∈ lines) as Hin by (apply Hdom; now exists r).
    destruct (last_occurrence lines h Hin) as (i & Hi & Hlast).
    rewrite (Hm2 i h Hi Hlast) in Hr. injection Hr as <-.
    now rewrite (Hnew i h Hi).
  - intros r Hr. rewrite Hl in Hr. apply elem_of_seq in Hr.
    destruct (lookup_lt_is_Some_2 lines r) as [h Hh]; [lia|].
    rewrite (Hnew r h Hh). cbn.
    assert (h ∈ lines) as Hin by (apply list_elem_of_lookup; now exists r).
    destruct (last_occurrence lines h Hin) as (i & Hi & Hlast).
    rewrite (Hm2 i h Hi Hlast). eexists; reflexivity.
Qed.

(** X10. After the host file is loaded, and whatever calls follow, [get_cdn]
    changes nothing and returns a host that is a line of the file and is
    tracked, so a report for it never raises [KeyError]; it raises, with
    [IndexError], only when the file had no line. *)
Theorem get_cdn_returns_tracked_host
    (str_to_time : string -> string) (lines : list string) (cs : list call)
    (entropy : nat) :
  let s := run_calls str_to_time cs (fst (load_items lines Cdn_init)) in
  match get_cdn entropy s with
  | (s', Ok h) => s' = s /\ h ∈ lines /\ is_Some (cdn_map s !! h)
  | (s', Raise e) => s' = s /\ e = IndexError /\ lines = []
  end.
Proof.
  intros s.
  destruct (load_items_tracks_lines lines) as (Hj0 & Hlen0 & Hdom0).
  destruct (run_calls_listed_tracked str_to_time cs _ Hj0)
    as ((_ & Hlisted) & Hmap & Hlen).
  fold s in Hlisted, Hmap, Hlen.
  unfold get_cdn, mbind, M_bind, bind, get, lift_result, mret, M_ret, ret.
  destruct (cdn_list s) as [|r0 l'] eqn:El.
  - cbn. split; [reflexivity|]. split; [reflexivity|].
    cbn in Hlen. apply length_zero_iff_nil. lia.
  - destruct (random_choice_nonempty entropy (take 100 (r0 :: l')))
      as (i & r & Hi & Hr & ->); [discriminate|].
    split; [reflexivity|].
    assert (r ∈ r0 :: l') as Hin.
    { apply lookup_take_Some in Hr as [Hr _].
      now apply list_elem_of_lookup_2 in Hr. }
    specialize (Hlisted r Hin).
    split; [|exact Hlisted].
    apply Hdom0. now rewrite <- Hmap.
Qed.

(** ** One report on a consistent registry *)

Lemma relisting_of_trans (s1 s2 s3 : Cdn) :
  relisting_of s1 s2 -> relisting_of s2 s3 -> relisting_of s1 s3.
Proof.
  intros (A1 & B1 & C1 & D1 & E1 & F1) (A2 & B2 & C2 & D2 & E2 & F2).
  unfold relisting_of. do 5 (split; [congruence|]).
  intros r. now rewrite F2.
Qed.

Lemma relisting_weight (s s' : Cdn) (r : nat) :
  relisting_of s s' -> weight (heap s' r) = weight (heap s r).
Proof.
  intros (_ & _ & _ & _ & _ & F).
  change (weight (forget_index (heap s' r)) = weight (forget_index (heap s r))).
  now rewrite F.
Qed.

Lemma exchanged_relisting (x j : nat) (l : list nat) (s : Cdn) :
  length l = length (cdn_list s) -> relisting_of s (exchanged x j l s).
Proof.
  intros Hl. unfold relisting_of, exchanged.
  cbn [cdn_map items next_ref last_check_at cdn_list heap set_cdn_list set_heap].
  do 4 (split; [reflexivity|]). split; [exact Hl|].
  intros r. destruct (decide (r = x)) as [->|Hne].
  - now rewrite fn_lookup_insert.
  - now rewrite fn_lookup_insert_ne by congruence.
Qed.

Lemma bind_ok {A B} (m : M Cdn A) (k : A -> M Cdn B) (s s1 : Cdn) (a : A) :
  m s = (s1, Ok a) -> (m ≫= k) s = k a s1.
Proof. intros E. unfold mbind, M_bind, bind. now rewrite E. Qed.

Lemma list_get_ok (i x : nat) (s : Cdn) :
  cdn_list s !! i = Some x -> list_get i s = (s, Ok x).
Proof. intros E. unfold list_get. now rewrite E. Qed.

Lemma list_set_ok (i x : nat) (s : Cdn) :
  (i < length (cdn_list s))%nat ->
  list_set i x s = (set_cdn_list (<[i:=x]> (cdn_list s)) s, Ok tt).
Proof.
  intros Hi. unfold list_set.
  now assert ((i <? length (cdn_list s))%nat = true) as ->
    by now apply Nat.ltb_lt.
Qed.

(** One pass of the body of the upward loop with the test passed. *)
Lemma bubble_up_exchange
    (c : nat) (w : Qc) (rest : list nat) (A B : list nat) (x : nat) (s : Cdn) :
  cdn_list s = A ++ x :: c :: B ->
  Qcltb (weight (heap s x)) w = true ->
  bubble_up c w (length A :: rest) s =
  bubble_up c w rest (exchanged x (length A + 1) (A ++ c :: x :: B) s).
Proof.
  intros Hl Ht.
  assert (cdn_list s !! length A = Some x) as Hx
    by (rewrite Hl; now apply list_lookup_middle).
  cbn [bubble_up].
  rewrite (bind_ok _ _ s s x (list_get_ok _ _ _ Hx)).
  rewrite (bind_ok _ _ s s s eq_refl), Ht.
  rewrite (bind_ok _ _ s s x (list_get_ok _ _ _ Hx)).
  set (s1 := set_heap (<[x:=set_list_index (Some (length A + 1)%nat) (heap s x)]>
                         (heap s)) s).
  rewrite (bind_ok (on_item x (modify (set_list_index (Some (length A + 1)%nat))))
             _ s s1 tt eq_refl).
  rewrite (bind_ok _ _ s1 s1 x (list_get_ok _ _ s1 Hx)).
  assert (length A + 1 < length (cdn_list s1))%nat as H1
    by (cbn; rewrite Hl, length_app; cbn; lia).
  rewrite (bind_ok _ _ s1 _ tt (list_set_ok _ x s1 H1)).
  set (s2 := set_cdn_list _ s1).
  assert (length A < length (cdn_list s2))%nat as H2
    by (cbn; rewrite length_insert, Hl, length_app; cbn; lia).
  rewrite (bind_ok _ _ s2 _ tt (list_set_ok _ c s2 H2)).
  f_equal. subst s2. unfold exchanged, s1, set_cdn_list, set_heap.
  cbn [cdn_list heap next_ref items cdn_map last_check_at].
  f_equal. rewrite Hl.
  rewrite (insert_app_r A (x :: c :: B) 1 x). cbn [insert list_insert].
  replace (length A) with (length A + 0)%nat at 1 by lia.
  now rewrite (insert_app_r A (x :: x :: B) 0 c).
Qed.

Lemma bubble_up_stop
    (c : nat) (w : Qc) (rest : list nat) (A B : list nat) (x : nat) (s : Cdn) :
  cdn_list s = A ++ x :: c :: B ->
  Qcltb (weight (heap s x)) w = false ->
  bubble_up c w (length A :: rest) s = (s, Ok tt).
Proof.
  intros Hl Ht.
  assert (cdn_list s !! length A = Some x) as Hx
    by (rewrite Hl; now apply list_lookup_middle).
  cbn [bubble_up].
  rewrite (bind_ok _ _ s s x (list_get_ok _ _ _ Hx)).
  now rewrite (bind_ok _ _ s s s eq_refl), Ht.
Qed.

Lemma rev_seq_S (n : nat) : rev (seq 0 (S n)) = n :: rev (seq 0 n).
Proof. rewrite seq_S, rev_app_distr. reflexivity. Qed.

Lemma bubble_up_run (c : nat) (w : Qc) (A B : list nat) (s : Cdn) :
  cdn_list s = A ++ c :: B -> NoDup A ->
  exists s' A1 A2,
    bubble_up c w (rev (seq 0 (length A))) s = (s', Ok tt) /\
    A = A1 ++ A2 /\
    cdn_list s' = A1 ++ c :: A2 ++ B /\
    Forall (fun x => Qcltb (weight (heap s x)) w = true) A2 /\
    (forall A1' y, A1 = A1' ++ [y] -> Qcltb (weight (heap s y)) w = false) /\
    relisting_of s s' /\
    (forall r, r ∉ A2 -> list_index (heap s' r) = list_index (heap s r)) /\
    (forall j x, A2 !! j = Some x ->
                 list_index (heap s' x) = Some (length A1 + 1 + j)%nat).
Proof.
  revert B s. induction A as [|x A IH] using rev_ind; intros B s Hl Hnd.
  - exists s, [], []. cbn. split; [reflexivity|]. split; [reflexivity|].
    split; [exact Hl|]. split; [constructor|].
    split; [intros [|? ?] ? E; discriminate E|].
    split; [apply relisting_of_refl|]. split; [reflexivity|].
    intros j x Hj. discriminate Hj.
  - rewrite <- app_assoc in Hl. cbn [app] in Hl.
    rewrite length_app. cbn [length]. rewrite Nat.add_1_r, rev_seq_S.
    apply list.NoDup_app in Hnd as (HndA & Hdisj & _).
    destruct (Qcltb (weight (heap s x)) w) eqn:Ht.
    + rewrite (bubble_up_exchange c w _ A B x s Hl Ht).
      set (s1 := exchanged x (length A + 1) (A ++ c :: x :: B) s).
      assert (relisting_of s s1) as Hre1.
      { apply exchanged_relisting. rewrite Hl, !length_app. reflexivity. }
      destruct (IH (x :: B) s1) as (s' & A1 & A2 & E & HA & Hl' & Hlt & Hstop
                                    & Hre & Hun & Hset); [reflexivity | exact HndA|].
      exists s', A1, (A2 ++ [x]). split; [exact E|].
      split; [rewrite HA, app_assoc; reflexivity|].
      split; [rewrite Hl', <- app_assoc; reflexivity|].
      assert (x ∉ A2) as HxA2.
      { intros Hin. apply (Hdisj x); [|now left].
        rewrite HA. apply elem_of_app. now right. }
      split; [|split; [|split; [|split]]].
      * apply Forall_app. split.
        -- eapply List.Forall_impl; [|exact Hlt]. cbn. intros y Hy.
           now rewrite <- (relisting_weight s s1 y Hre1).
        -- repeat constructor. exact Ht.
      * intros A1' y E1. rewrite <- (relisting_weight s s1 y Hre1).
        now apply (Hstop A1').
      * now apply (relisting_of_trans s s1 s').
      * intros r Hr. apply not_elem_of_app in Hr as [Hr1 Hr2].
        rewrite (Hun r Hr1). unfold s1, exchanged. cbn [heap set_cdn_list set_heap].
        rewrite fn_lookup_insert_ne; [reflexivity|].
        intros ->. apply Hr2. now left.
      * intros j y Hj. apply lookup_app_Some in Hj as [Hj | [Hge Hj]].
        -- now apply Hset.
        -- apply list_lookup_singleton_Some in Hj as [Hj0 <-].
           rewrite (Hun x HxA2). unfold s1, exchanged.
           cbn [heap set_cdn_list set_heap]. rewrite fn_lookup_insert. cbn.
           f_equal. rewrite HA, length_app. lia.
    + rewrite (bubble_up_stop c w _ A B x s Hl Ht).
      exists s, (A ++ [x]), []. split; [reflexivity|].
      split; [now rewrite app_nil_r|].
      split; [rewrite Hl, <- app_assoc; reflexivity|].
      split; [constructor|]. split.
      * intros A1' y E1. apply app_inj_tail in E1 as [_ <-]. exact Ht.
      * split; [apply relisting_of_refl|]. split; [reflexivity|].
        intros j y Hj. discriminate Hj.
Qed.

(** One pass of the body of the downward loop with the test passed. *)
Lemma bubble_down_exchange
    (c : nat) (w : Qc) (rest : list nat) (A B : list nat) (x : nat) (s : Cdn) :
  cdn_list s = A ++ c :: x :: B ->
  Qcleb w (weight (heap s x)) = true ->
  bubble_down c w ((length A + 1)%nat :: rest) s =
  bubble_down c w rest (exchanged x (length A + 1 - 1) (A ++ x :: c :: B) s).
Proof.
  intros Hl Ht.
  assert (cdn_list s !! (length A + 1)%nat = Some x) as Hx.
  { rewrite Hl, lookup_app_r by lia.
    now replace (length A + 1 - length A)%nat with 1%nat by lia. }
  cbn [bubble_down].
  rewrite (bind_ok _ _ s s x (list_get_ok _ _ _ Hx)).
  rewrite (bind_ok _ _ s s s eq_refl), Ht.
  rewrite (bind_ok _ _ s s x (list_get_ok _ _ _ Hx)).
  set (s1 := set_heap
               (<[x:=set_list_index (Some (length A + 1 - 1)%nat) (heap s x)]>
                  (heap s)) s).
  rewrite (bind_ok
             (on_item x (modify (set_list_index (Some (length A + 1 - 1)%nat))))
             _ s s1 tt eq_refl).
  rewrite (bind_ok _ _ s1 s1 x (list_get_ok _ _ s1 Hx)).
  assert (length A + 1 - 1 < length (cdn_list s1))%nat as H1
    by (cbn; rewrite Hl, length_app; cbn; lia).
  rewrite (bind_ok _ _ s1 _ tt (list_set_ok _ x s1 H1)).
  set (s2 := set_cdn_list _ s1).
  assert (length A + 1 < length (cdn_list s2))%nat as H2
    by (cbn; rewrite length_insert, Hl, length_app; cbn; lia).
  rewrite (bind_ok _ _ s2 _ tt (list_set_ok _ c s2 H2)).
  f_equal. subst s2. unfold exchanged, s1, set_cdn_list, set_heap.
  cbn [cdn_list heap next_ref items cdn_map last_check_at].
  f_equal. rewrite Hl.
  replace (length A + 1 - 1)%nat with (length A + 0)%nat by lia.
  rewrite (insert_app_r A (c :: x :: B) 0 x). cbn [insert list_insert].
  now rewrite (insert_app_r A (x :: x :: B) 1 c).
Qed.

Lemma bubble_down_stop
    (c : nat) (w : Qc) (rest : list nat) (A B : list nat) (x : nat) (s : Cdn) :
  cdn_list s = A ++ c :: x :: B ->
  Qcleb w (weight (heap s x)) = false ->
  bubble_down c w ((length A + 1)%nat :: rest) s = (s, Ok tt).
Proof.
  intros Hl Ht.
  assert (cdn_list s !! (length A + 1)%nat = Some x) as Hx.
  { rewrite Hl, lookup_app_r by lia.
    now replace (length A + 1 - length A)%nat with 1%nat by lia. }
  cbn [bubble_down].
  rewrite (bind_ok _ _ s s x (list_get_ok _ _ _ Hx)).
  now rewrite (bind_ok _ _ s s s eq_refl), Ht.
Qed.

Lemma bubble_down_run (c : nat) (w : Qc) (B A : list nat) (s : Cdn) :
  cdn_list s = A ++ c :: B -> NoDup B ->
  exists s' B1 B2,
    bubble_down c w (seq (length A + 1) (length B)) s = (s', Ok tt) /\
    B = B1 ++ B2 /\
    cdn_list s' = A ++ B1 ++ c :: B2 /\
    Forall (fun x => Qcleb w (weight (heap s x)) = true) B1 /\
    (forall y B2', B2 = y :: B2' -> Qcleb w (weight (heap s y)) = false) /\
    relisting_of s s' /\
    (forall r, r ∉ B1 -> list_index (heap s' r) = list_index (heap s r)) /\
    (forall j x, B1 !! j = Some x ->
                 list_index (heap s' x) = Some (length A + j)%nat).
Proof.
  revert A s. induction B as [|x B IH]; intros A s Hl Hnd.
  - exists s, [], []. cbn. split; [reflexivity|]. split; [reflexivity|].
    split; [exact Hl|]. split; [constructor|].
    split; [intros ? ? E; discriminate E|].
    split; [apply relisting_of_refl|]. split; [reflexivity|].
    intros j x Hj. discriminate Hj.
  - cbn [length seq].
    inversion Hnd as [|? ? HxB HndB]; subst.
    destruct (Qcleb w (weight (heap s x))) eqn:Ht.
    + rewrite (bubble_down_exchange c w _ A B x s Hl Ht).
      set (s1 := exchanged x (length A + 1 - 1) (A ++ x :: c :: B) s).
      assert (relisting_of s s1) as Hre1.
      { apply exchanged_relisting. rewrite Hl, !length_app. reflexivity. }
      destruct (IH (A ++ [x]) s1)
        as (s' & B1 & B2 & E & HB & Hl' & Hle & Hstop & Hre & Hun & Hset);
        [unfold s1, exchanged; cbn; now rewrite <- app_assoc | exact HndB|].
      rewrite length_app in E. cbn [length] in E.
      replace (length A + 1 + 1)%nat with (S (length A + 1)) in E by lia.
      exists s', (x :: B1), B2. split; [exact E|].
      split; [now rewrite HB|].
      split; [rewrite Hl', <- app_assoc; reflexivity|].
      assert (x ∉ B1) as HxB1.
      { intros Hin. apply HxB. rewrite HB. apply elem_of_app. now left. }
      split; [|split; [|split; [|split]]].
      * constructor; [exact Ht|].
        eapply List.Forall_impl; [|exact Hle]. cbn. intros y Hy.
        now rewrite <- (relisting_weight s s1 y Hre1).
      * intros y B2' E2. rewrite <- (relisting_weight s s1 y Hre1).
        now apply (Hstop y B2').
      * now apply (relisting_of_trans s s1 s').
      * intros r Hr. apply not_elem_of_cons in Hr as [Hr1 Hr2].
        rewrite (Hun r Hr2). unfold s1, exchanged.
        cbn [heap set_cdn_list set_heap].
        now rewrite fn_lookup_insert_ne by congruence.
      * intros [|j] y Hj.
        -- cbn in Hj. injection Hj as <-.
           rewrite (Hun x HxB1). unfold s1, exchanged.
           cbn [heap set_cdn_list set_heap]. rewrite fn_lookup_insert. cbn.
           f_equal. lia.
        -- cbn in Hj. rewrite (Hset j y Hj), length_app. cbn. f_equal. lia.
    + rewrite (bubble_down_stop c w _ A B x s Hl Ht).
      exists s, [], (x :: B). split; [reflexivity|].
      split; [reflexivity|]. split; [exact Hl|].
      split; [constructor|]. split.
      * intros y B2' E2. injection E2 as <- _. exact Ht.
      * split; [apply relisting_of_refl|]. split; [reflexivity|].
        intros j y Hj. discriminate Hj.
Qed.

(** The tests of [reposition], read on the list around the item. *)
Lemma reposition_cases (c : nat) (A B : list nat) (s : Cdn) :
  cdn_list s = A ++ c :: B ->
  list_index (heap s c) = Some (length A) ->
  let w := weight (heap s c) in
  let up := match last A with
            | Some x => Qcltb (weight (heap s x)) w
            | None => false
            end in
  let down := match B with
              | y :: _ => Qcleb w (weight (heap s y))
              | [] => false
              end in
  reposition c s =
  if up then bubble_up c w (rev (seq 0 (length A))) s
  else if down then bubble_down c w (seq (length A + 1) (length B)) s
  else (s, Ok tt).
Proof.
  intros Hl Hp w up down.
  unfold reposition. rewrite (bind_ok _ _ s s s eq_refl). cbv zeta. rewrite Hp.
  fold w.
  assert ((if (0 <? length A)%nat
           then x ← list_get (length A - 1); ret (Qcltb (weight (heap s x)) w)
           else ret false) s = (s, Ok up)) as Hup.
  { subst up. destruct A as [|a A'] using rev_ind; [reflexivity|].
    rewrite last_snoc, length_app. cbn [length].
    replace (0 <? length A' + 1)%nat with true by (symmetry; apply Nat.ltb_lt; lia).
    replace (length A' + 1 - 1)%nat with (length A') by lia.
    rewrite (bind_ok _ _ s s a); [reflexivity|].
    apply list_get_ok. rewrite Hl, <- app_assoc. now apply list_lookup_middle. }
  rewrite (bind_ok _ _ s s up Hup).
  destruct up; [reflexivity|].
  assert ((if Z.of_nat (length A) <? Z.of_nat (length (cdn_list s)) - 1
           then x ← list_get (length A + 1); ret (Qcleb w (weight (heap s x)))
           else ret false) s = (s, Ok down)) as Hdown.
  { subst down. rewrite Hl, length_app. cbn [length].
    destruct B as [|y B'].
    - cbn [length].
      replace (Z.of_nat (length A) <? Z.of_nat (length A + 1) - 1) with false
        by (symmetry; apply Z.ltb_ge; lia).
      reflexivity.
    - cbn [length].
      replace (Z.of_nat (length A) <? Z.of_nat (length A + S (S (length B'))) - 1)
        with true by (symmetry; apply Z.ltb_lt; lia).
      rewrite (bind_ok _ _ s s y); [reflexivity|].
      apply list_get_ok. rewrite Hl, lookup_app_r by lia.
      now replace (length A + 1 - length A)%nat with 1%nat by lia. }
  rewrite (bind_ok _ _ s s down Hdown).
  destruct down; [|reflexivity].
  rewrite Hl, length_app. cbn [length].
  now replace (length A + S (length B) - (length A + 1))%nat with (length B) by lia.
Qed.

Section Ranking.
Variable h : nat -> CdnItem.

Lemma heavier_trans (a b c : nat) : heavier h a b -> heavier h b c -> heavier h a c.
Proof. unfold heavier. intros H1 H2. eapply Qcle_trans; eassumption. Qed.

Lemma sorted_before_last (l : list nat) (y a : nat) :
  StronglySorted (heavier h) (l ++ [y]) -> a ∈ l ++ [y] -> heavier h a y.
Proof.
  intros Hs Ha. apply elem_of_app in Ha as [Ha | Ha].
  - apply (StronglySorted_app_1_elem_of _ _ _ _ _ Hs Ha). now left.
  - apply list_elem_of_singleton in Ha as ->. apply Qcle_refl.
Qed.

Lemma sorted_after_head (l : list nat) (y a : nat) :
  StronglySorted (heavier h) (y :: l) -> a ∈ y :: l -> heavier h y a.
Proof.
  intros Hs Ha. apply StronglySorted_inv in Hs as [_ Hall].
  apply elem_of_cons in Ha as [-> | Ha]; [apply Qcle_refl|].
  rewrite List.Forall_forall in Hall. apply Hall. now apply list_elem_of_In.
Qed.

(** Where the item [c] of weight [w] may stand: after items at least as
    heavy and before items no heavier. *)
Lemma sorted_insert (c : nat) (L R : list nat) :
  StronglySorted (heavier h) (L ++ R) ->
  (forall a, a ∈ L -> heavier h a c) ->
  (forall b, b ∈ R -> heavier h c b) ->
  StronglySorted (heavier h) (L ++ c :: R).
Proof.
  intros Hs HL HR. apply StronglySorted_app in Hs as (Hcross & HsL & HsR).
  apply StronglySorted_app_2; [|exact HsL|].
  - intros a z Ha Hz. apply elem_of_cons in Hz as [-> | Hz]; auto.
  - constructor; [exact HsR|]. apply List.Forall_forall. intros b Hb.
    apply HR. now apply list_elem_of_In.
Qed.
End Ranking.

Lemma sorted_same_weights (h1 h2 : nat -> CdnItem) (l : list nat) :
  (forall r, r ∈ l -> weight (h2 r) = weight (h1 r)) ->
  StronglySorted (heavier h1) l -> StronglySorted (heavier h2) l.
Proof.
  intros Hw Hs. induction Hs as [|a l Hs IH Ha]; [constructor|].
  constructor.
  - apply IH. intros r Hr. apply Hw. now right.
  - rewrite List.Forall_forall in *. intros r Hr. unfold heavier.
    rewrite (Hw a), (Hw r); [now apply Ha | right; now apply list_elem_of_In
                            | now left].
Qed.

Lemma add_request_result_keeps_index (it : CdnItem) (d : Qc) (b : bool) :
  0 <= request_count it ->
  exists it', add_request_result d b it = (it', Ok tt) /\
              list_index it' = list_index it.
Proof.
  intros Hrc. assert (request_count it + 1 <> 0) as Hne by lia.
  destruct b; eexists.
  - split; [apply add_request_result_success, Hne | reflexivity].
  - split; [apply add_request_result_failure, Hne | reflexivity].
Qed.

(** X11. One report on a consistent registry.  If the list has no repeated
    item, is descending by weight and every stored position is right, then a
    report for a tracked, listed host returns normally; the list is again a
    permutation of what it was and descending by weight under the new
    weight; every item other than the reported one has its stored position
    right; and the reported item keeps the [list_index] it had, which is
    right exactly when the item did not move. *)
Theorem report_on_consistent_registry
    (h : string) (d : Qc) (b : bool) (s : Cdn) (c : nat) :
  consistent s ->
  cdn_map s !! h = Some c -> c ∈ cdn_list s ->
  0 <= request_count (heap s c) ->
  exists s',
    report_cdn_result h d b s = (s', Ok tt) /\
    Permutation (cdn_list s') (cdn_list s) /\
    ranked s' /\
    (forall i r, cdn_list s' !! i = Some r -> r <> c ->
                 list_index (heap s' r) = Some i) /\
    list_index (heap s' c) = list_index (heap s c) /\
    (cdn_list s' = cdn_list s -> consistent s') /\
    (cdn_list s' <> cdn_list s -> ~ position_ok s' c).
Proof.
  intros (Hnd & Hrk & Hpos) Hc Hin Hrc.
  apply list_elem_of_lookup in Hin as [p Hp].
  pose proof (Hpos p c Hp) as Hidx.
  apply list_elem_of_split_length in Hp as (A & B & Hl & ->).
  destruct (add_request_result_keeps_index (heap s c) d b Hrc)
    as (it & Eadd & Hidx').
  set (s1 := set_heap (<[c:=it]> (heap s)) s).
  assert (report_cdn_result h d b s = reposition c s1) as ->
    by (rewrite report_cdn_result_eq, Hc, Eadd; reflexivity).
  assert (cdn_list s1 = A ++ c :: B) as Hl1 by exact Hl.
  assert (heap s1 c = it) as Hit by (cbn; now rewrite fn_lookup_insert).
  assert (forall r, r <> c -> heap s1 r = heap s r) as Hother
    by (intros r Hr; cbn; now rewrite fn_lookup_insert_ne by congruence).
  assert (forall r, list_index (heap s1 r) = list_index (heap s r)) as Hidx1.
  { intros r. destruct (decide (r = c)) as [->|Hr];
      [rewrite Hit; congruence | now rewrite Hother]. }
  rewrite Hl in Hnd.
  apply list.NoDup_app in Hnd as (HndA & HdisjA & HndcB).
  apply list.NoDup_cons in HndcB as [HcB HndB].
  assert (c ∉ A) as HcA by (intros Hx; apply (HdisjA c Hx); now left).
  assert (forall a, a ∈ A -> a ∉ B) as HAB
    by (intros a Ha Hb; apply (HdisjA a Ha); now right).
  (* the order before the report, read in the store after the update *)
  apply descending_map_inv in Hrk. rewrite Hl in Hrk.
  assert (StronglySorted (heavier (heap s1)) (A ++ B)) as HsAB.
  { apply (sorted_same_weights (heap s)).
    - intros r Hr. rewrite Hother; [reflexivity|].
      intros ->. apply elem_of_app in Hr as [?|?]; contradiction.
    - apply StronglySorted_app in Hrk as (Hcross & HsA & HscB).
      apply StronglySorted_inv in HscB as [HsB _].
      apply StronglySorted_app_2; [|exact HsA | exact HsB].
      intros a z Ha Hz. apply Hcross; [exact Ha | now right]. }
  pose proof (reposition_cases c A B s1 Hl1) as Hcases.
  rewrite Hidx1, Hidx in Hcases. specialize (Hcases eq_refl). cbv zeta in Hcases.
  set (w := weight (heap s1 c)) in *.
  (* what remains to be shown of the final state, given its list *)
  assert (forall s' L R,
            relisting_of s1 s' -> cdn_list s' = L ++ c :: R ->
            L ++ R = A ++ B ->
            (forall a, a ∈ L -> heavier (heap s1) a c) ->
            (forall z, z ∈ R -> heavier (heap s1) c z) ->
            Permutation (cdn_list s') (cdn_list s) /\ ranked s') as Hfinal.
  { intros s' L R Hre Hl' HLR HL HR. split.
    - rewrite Hl', Hl, <- !Permutation_middle, HLR. reflexivity.
    - unfold ranked, weights.
      rewrite (map_ext _ (fun r => weight (heap s1 r)))
        by (intros r; now apply relisting_weight).
      rewrite Hl'. apply descending_map, sorted_insert; [|exact HL | exact HR].
      now rewrite HLR. }
  (* not going up: everything before the item is at least as heavy *)
  assert (match last A with
          | Some x => Qcltb (weight (heap s1 x)) w
          | None => false
          end = false ->
          forall a, a ∈ A -> heavier (heap s1) a c) as Hnotup.
  { intros Hup a Ha. destruct A as [|x A'] using rev_ind; [inversion Ha|].
    rewrite last_snoc in Hup.
    apply (heavier_trans _ a x c).
    - apply (sorted_before_last _ A'); [|exact Ha].
      now apply StronglySorted_app_1_l in HsAB.
    - unfold heavier. fold w. apply Qcnot_lt_le. intros Hlt.
      apply Qcltb_lt in Hlt. congruence. }
  (* not going down: everything after the item is no heavier *)
  assert (match B with
          | y :: _ => Qcleb w (weight (heap s1 y))
          | [] => false
          end = false ->
          forall z, z ∈ B -> heavier (heap s1) c z) as Hnotdown.
  { intros Hdown z Hz. destruct B as [|y B']; [inversion Hz|].
    apply (heavier_trans _ c y z).
    - unfold heavier. fold w. apply Qclt_le_weak, Qcnot_le_lt. intros Hle.
      apply Qcleb_le in Hle. congruence.
    - apply (sorted_after_head _ B'); [|exact Hz].
      now apply StronglySorted_app_1_r in HsAB. }
  destruct (match last A with
            | Some x => Qcltb (weight (heap s1 x)) w
            | None => false
            end) eqn:Hup.
  - (* the item goes up *)
    destruct (bubble_up_run c w A B s1 Hl1 HndA)
      as (s' & A1 & A2 & E & HA & Hl' & Hlt & Hstop & Hre & Hun & Hset).
    rewrite Hcases, E. exists s'. split; [reflexivity|].
    assert (A2 <> []) as HA2.
    { intros ->. rewrite app_nil_r in HA. subst A1.
      destruct A as [|x A'] using rev_ind; [discriminate Hup|].
      rewrite last_snoc in Hup. rewrite (Hstop A' x eq_refl) in Hup.
      discriminate. }
    assert (forall z, z ∈ A2 -> heavier (heap s1) c z) as HcA2.
    { intros z Hz. rewrite List.Forall_forall in Hlt.
      unfold heavier. fold w. apply Qclt_le_weak, Qcltb_lt, Hlt.
      now apply list_elem_of_In. }
    destruct (Hfinal s' A1 (A2 ++ B) Hre Hl') as [Hperm Hranked].
    { now rewrite app_assoc, <- HA. }
    { intros a Ha. destruct A1 as [|y A1'] using rev_ind; [inversion Ha|].
      apply (heavier_trans _ a y c).
      - apply (sorted_before_last _ A1'); [|exact Ha].
        rewrite HA, <- app_assoc in HsAB.
        now apply StronglySorted_app_1_l in HsAB.
      - unfold heavier. fold w. apply Qcnot_lt_le. intros Hlt'.
        apply Qcltb_lt in Hlt'. rewrite (Hstop A1' y eq_refl) in Hlt'.
        discriminate. }
    { intros z Hz. apply elem_of_app in Hz as [Hz | Hz]; [now apply HcA2|].
      destruct A2 as [|a2 A2']; [contradiction|].
      apply (heavier_trans _ c a2 z); [apply HcA2; now left|].
      rewrite HA in HsAB.
      apply (StronglySorted_app_1_elem_of _ _ _ _ _ HsAB); [|exact Hz].
      apply elem_of_app. right. now left. }
    split; [exact Hperm|]. split; [exact Hranked|].
    assert (list_index (heap s' c) = list_index (heap s c)) as Hc'.
    { rewrite Hun, Hidx1; [reflexivity|].
      intros Hx. apply HcA. rewrite HA. apply elem_of_app. now right. }
    split; [|split; [exact Hc'|]].
    + intros i r Hi Hne. rewrite Hl' in Hi.
      apply lookup_app_Some in Hi as [Hi | [Hge Hi]].
      * rewrite Hun, Hidx1.
        -- apply Hpos. rewrite Hl, HA, <- app_assoc.
           now apply lookup_app_l_Some.
        -- intros Hx. apply list_elem_of_lookup_2 in Hi.
           rewrite HA in HndA. apply list.NoDup_app in HndA as (_ & Hd & _).
           now apply (Hd r).
      * apply lookup_cons_Some in Hi as [[_ Hi] | [Hpos1 Hi]]; [congruence|].
        apply lookup_app_Some in Hi as [Hi | [Hge2 Hi]].
        -- rewrite (Hset _ r Hi). f_equal. lia.
        -- rewrite Hun, Hidx1.
           ++ apply Hpos. rewrite Hl, lookup_app_r by (rewrite HA, length_app; lia).
              rewrite lookup_cons_ne_0 by (rewrite HA, length_app; lia).
              rewrite <- Hi. f_equal. rewrite HA, length_app. lia.
           ++ intros Hx. apply list_elem_of_lookup_2 in Hi.
              apply (HAB r); [|exact Hi].
              rewrite HA. apply elem_of_app. now right.
    + split.
      * intros Esame. exfalso. rewrite Hl', Hl, HA, <- app_assoc in Esame.
        apply app_inv_head in Esame.
        destruct A2 as [|a2 A2']; [contradiction|].
        cbn in Esame. injection Esame as -> _.
        apply HcA. rewrite HA. apply elem_of_app. right. now left.
      * intros _ (q & Hq & Hlq). rewrite Hc', Hidx in Hq. injection Hq as <-.
        assert (NoDup (cdn_list s')) as Hnd'.
        { rewrite Hperm, Hl. apply list.NoDup_app. split; [exact HndA|].
          split; [exact HdisjA|]. apply list.NoDup_cons. now split. }
        assert (cdn_list s' !! length A1 = Some c) as Hat
          by (rewrite Hl'; now apply list_lookup_middle).
        pose proof (NoDup_lookup _ _ _ _ Hnd' Hlq Hat) as Heq.
        rewrite HA, length_app in Heq.
        destruct A2; [contradiction | cbn in Heq; lia].
  - destruct (match B with
              | y :: _ => Qcleb w (weight (heap s1 y))
              | [] => false
              end) eqn:Hdown.
    + (* the item goes down *)
      destruct (bubble_down_run c w B A s1 Hl1 HndB)
        as (s' & B1 & B2 & E & HB & Hl' & Hle & Hstop & Hre & Hun & Hset).
      rewrite Hcases, E. exists s'. split; [reflexivity|].
      assert (B1 <> []) as HB1.
      { intros ->. cbn in HB. subst B2.
        destruct B as [|y B']; [discriminate Hdown|].
        rewrite (Hstop y B' eq_refl) in Hdown. discriminate. }
      rewrite app_assoc in Hl'.
      destruct (Hfinal s' (A ++ B1) B2 Hre Hl') as [Hperm Hranked].
      { now rewrite <- app_assoc, <- HB. }
      { intros a Ha. apply elem_of_app in Ha as [Ha | Ha]; [now apply Hnotup|].
        rewrite List.Forall_forall in Hle.
        unfold heavier. fold w. apply Qcleb_le, Hle. now apply list_elem_of_In. }
      { intros z Hz. destruct B2 as [|y B2']; [inversion Hz|].
        apply (heavier_trans _ c y z).
        - unfold heavier. fold w. apply Qclt_le_weak, Qcnot_le_lt. intros Hle'.
          apply Qcleb_le in Hle'. rewrite (Hstop y B2' eq_refl) in Hle'.
          discriminate.
        - apply (sorted_after_head _ B2'); [|exact Hz].
          rewrite HB, app_assoc in HsAB.
          now apply StronglySorted_app_1_r in HsAB. }
      split; [exact Hperm|]. split; [exact Hranked|].
      assert (list_index (heap s' c) = list_index (heap s c)) as Hc'.
      { rewrite Hun, Hidx1; [reflexivity|].
        intros Hx. apply HcB. rewrite HB. apply elem_of_app. now left. }
      split; [|split; [exact Hc'|]].
      * intros i r Hi Hne. rewrite Hl', <- app_assoc in Hi.
        apply lookup_app_Some in Hi as [Hi | [Hge Hi]].
        -- rewrite Hun, Hidx1.
           ++ apply Hpos. rewrite Hl. now apply lookup_app_l_Some.
           ++ intros Hx. apply list_elem_of_lookup_2 in Hi.
              apply (HAB r Hi). rewrite HB. apply elem_of_app. now left.
        -- apply lookup_app_Some in Hi as [Hi | [Hge2 Hi]].
           ++ rewrite (Hset _ r Hi). f_equal. lia.
           ++ apply lookup_cons_Some in Hi as [[_ Hi] | [Hpos1 Hi]]; [congruence|].
              rewrite Hun, Hidx1.
              ** apply Hpos. rewrite Hl, lookup_app_r by lia.
                 rewrite lookup_cons_ne_0 by lia.
                 rewrite HB, lookup_app_r by lia.
                 rewrite <- Hi. f_equal. lia.
              ** intros Hx. apply list_elem_of_lookup_2 in Hi.
                 rewrite HB in HndB.
                 apply list.NoDup_app in HndB as (_ & Hd & _).
                 now apply (Hd r).
      * split.
        -- intros Esame. exfalso. rewrite Hl', Hl, HB, <- app_assoc in Esame.
           apply app_inv_head in Esame.
           destruct B1 as [|b1 B1']; [contradiction|].
           cbn in Esame. injection Esame as <- _.
           apply HcB. rewrite HB. apply elem_of_app. left. now left.
        -- intros _ (q & Hq & Hlq). rewrite Hc', Hidx in Hq. injection Hq as <-.
           assert (NoDup (cdn_list s')) as Hnd'.
           { rewrite Hperm, Hl. apply list.NoDup_app. split; [exact HndA|].
             split; [exact HdisjA|]. apply list.NoDup_cons. now split. }
           assert (cdn_list s' !! length (A ++ B1) = Some c) as Hat
             by (rewrite Hl'; now apply list_lookup_middle).
           pose proof (NoDup_lookup _ _ _ _ Hnd' Hlq Hat) as Heq.
           rewrite length_app in Heq.
           destruct B1; [contradiction | cbn in Heq; lia].
    + (* the item stays *)
      rewrite Hcases. exists s1. split; [reflexivity|].
      destruct (Hfinal s1 A B (relisting_of_refl s1) Hl1 eq_refl)
        as [Hperm Hranked]; [now apply Hnotup | now apply Hnotdown|].
      split; [exact Hperm|]. split; [exact Hranked|].
      assert (forall i r, cdn_list s1 !! i = Some r ->
                          list_index (heap s1 r) = Some i) as Hpos1.
      { intros i r Hi. rewrite Hidx1. now apply Hpos. }
      split; [intros i r Hi _; now apply Hpos1|].
      split; [apply Hidx1|]. split; [|intros Hne; now contradiction Hne].
      intros _. split; [|split; [exact Hranked | exact Hpos1]].
      rewrite Hl1. apply list.NoDup_app. split; [exact HndA|].
      split; [exact HdisjA|]. apply list.NoDup_cons. now split.
Qed.

Lemma load_items_consistent (lines : list string) :
  consistent (fst (load_items lines Cdn_init)).
Proof.
  destruct (load_items_run lines Cdn_init)
    as (s & E & Hl & _ & _ & _ & _ & Hnew & _ & _).
  rewrite E. cbn [fst].
  cbn [Cdn_init cdn_list next_ref app length Nat.add] in *.
  assert (forall i r, cdn_list s !! i = Some r ->
            r = i /\ exists h, heap s i = set_list_index (Some i) (CdnItem_init h))
    as Hitem.
  { intros i r Hi. rewrite Hl in Hi. apply lookup_seq in Hi as [-> Hlt].
    split; [reflexivity|].
    destruct (lookup_lt_is_Some_2 lines i Hlt) as [h Hh].
    exists h. now apply Hnew. }
  split; [rewrite Hl; apply NoDup_seq|]. split.
  - unfold ranked, weights.
    replace (map (fun r => weight (heap s r)) (cdn_list s))
      with (replicate (length (cdn_list s)) 0%Qc);
      [apply descending_replicate_0|].
    apply list_eq. intros i. rewrite list_lookup_fmap.
    destruct (cdn_list s !! i) as [r|] eqn:Hi.
    + destruct (Hitem i r Hi) as (-> & h & Hh). cbn. rewrite Hh. cbn.
      apply lookup_replicate_2. now apply lookup_lt_Some in Hi.
    + cbn. apply lookup_ge_None. rewrite length_replicate.
      now apply lookup_ge_None in Hi.
  - intros i r Hi. destruct (Hitem i r Hi) as (-> & h & Hh). now rewrite Hh.
Qed.

Lemma report_on_consistent_registry_witness :
  consistent pool_AB /\ cdn_map pool_AB !! "B" = Some 1%nat /\
  1%nat ∈ cdn_list pool_AB /\ 0 <= request_count (heap pool_AB 1%nat) /\
  exists s',
    report_cdn_result "B" (Qc_of_Z 200) true pool_AB = (s', Ok tt) /\
    ranked s' /\ ~ position_ok s' 1%nat.
Proof.
  assert (consistent pool_AB) as Hcons by apply (load_items_consistent ["A"; "B"]).
  assert (Hmap : (cdn_map pool_AB !! "B") = Some 1%nat)
    by apply pool_AB_tracks_A_B.
  assert (Hin : 1%nat ∈ cdn_list pool_AB) by (right; left).
  assert (Hrc : 0 <= request_count (heap pool_AB 1%nat))
    by (vm_compute; discriminate).
  split; [exact Hcons|]. split; [exact Hmap|]. split; [exact Hin|].
  split; [exact Hrc|].
  destruct (report_on_consistent_registry "B" (Qc_of_Z 200) true pool_AB 1%nat
              Hcons Hmap Hin Hrc) as (s' & E & _ & Hranked & _ & _ & _ & Hstale).
  exists s'. split; [exact E|]. split; [exact Hranked|].
  apply Hstale. intros Esame.
  assert (cdn_list (fst (report_cdn_result "B" (Qc_of_Z 200) true pool_AB))
          = [1; 0]%nat) as Emoved by (vm_compute; reflexivity).
  rewrite E in Emoved. cbn [fst] in Emoved. rewrite Emoved in Esame.
  vm_compute in Esame. discriminate.
Defined.

(** ** Loading into a registry that is already loaded *)

(** X12. [load_items] appends.  Run on a registry that already holds a pool,
    it leaves every listed item and its counters in place and lists one
    fresh item per line behind them; every host of the new lines is from
    then on tracked as its fresh item, not as an item listed before, and
    the other hosts are tracked as they were. *)
Theorem load_items_appends (lines : list string) (s : Cdn) :
  allocated s ->
  exists s',
    load_items lines s = (s', Ok tt) /\
    hosts s' = hosts s ++ lines /\
    items s' = items s ++ lines /\
    length (cdn_list s') = (length (cdn_list s) + length lines)%nat /\
    (forall r, r ∈ cdn_list s -> heap s' r = heap s r) /\
    (forall h, h ∈ lines ->
       exists r, cdn_map s' !! h = Some r /\ (r ∉ cdn_list s) /\
                 r ∈ cdn_list s' /\ host (heap s' r) = h /\
                 stats (heap s' r) = (0, 0, 0%Qc)) /\
    (forall h, h ∉ lines -> cdn_map s' !! h = cdn_map s !! h).
Proof.
  intros [Hal _].
  destruct (load_items_run lines s)
    as (s' & E & Hl & Hit & _ & _ & Hold & Hnew & Hm1 & Hm2).
  exists s'. split; [exact E|].
  assert (forall r, r ∈ cdn_list s -> heap s' r = heap s r) as Hkeep
    by (intros r Hr; apply Hold; now apply Hal).
  split; [|split; [exact Hit|]; split; [|split; [exact Hkeep|];
           split; [|exact Hm1]]].
  - unfold hosts. rewrite Hl, map_app. f_equal.
    + apply map_ext_in. intros r Hr. f_equal. apply Hkeep.
      now apply list_elem_of_In.
    + apply list_eq. intros i. rewrite list_lookup_fmap.
      destruct (lines !! i) as [h|] eqn:Hi.
      * rewrite lookup_seq_lt by (now apply lookup_lt_Some in Hi). cbn.
        now rewrite (Hnew i h Hi).
      * rewrite lookup_seq_ge; [reflexivity|]. now apply lookup_ge_None in Hi.
  - rewrite Hl, length_app, length_seq. reflexivity.
  - intros h Hh. destruct (last_occurrence lines h Hh) as (i & Hi & Hlast).
    exists (next_ref s + i)%nat. split; [now apply Hm2|].
    split; [intros Hr; apply Hal in Hr; lia|].
    split; [|rewrite (Hnew i h Hi); now split].
    rewrite Hl. apply elem_of_app. right. apply elem_of_seq.
    apply lookup_lt_Some in Hi. lia.
Qed.

Lemma load_items_appends_witness :
  allocated pool_AB /\
  exists s',
    load_items ["A"; "B"] pool_AB = (s', Ok tt) /\
    hosts s' = hosts pool_AB ++ ["A"; "B"] /\
    exists r, cdn_map s' !! "A" = Some r /\ (r ∉ cdn_list pool_AB).
Proof.
  assert (allocated pool_AB) as Hal.
  { apply (load_items_sane ["A"; "B"] 0 Cdn_init); apply Cdn_init_sane. }
  split; [exact Hal|].
  destruct (load_items_appends ["A"; "B"] pool_AB Hal)
    as (s' & E & Hh & _ & _ & _ & Hnew & _).
  exists s'. split; [exact E|]. split; [exact Hh|].
  destruct (Hnew "A") as (r & Hr & Hout & _); [now left|].
  exists r. now split.
Defined.

(** ** Start-up *)




